(** * Kitsune TAS: input recording and playback engine

    A shallow embedding of the three copies of the TAS object found in the
    repository and of the service worker that follows them in [src/tas.js],
    with the properties of the recorder, the player, the codec, the
    sequence builder, the initialisation and the worker's cache.

    - [Dispatch]      : [src/tas.js], lines 1-440   (native keyboard events);
    - [Legacy]        : [src/tas.js], lines 442-1044 (direct key map, no tick hook);
    - [ServiceWorker] : [src/tas.js], lines 1046-1376 (offline cache);
    - [Direct]        : [src/unnamed/part_000]      (direct key map, tick hook).

    JavaScript values are modelled as far as the program uses them: JSON
    data is an immutable tree, the arrays the program pushes to and hands
    around by reference live in a store, and a call either returns or
    throws, in both cases leaving a world behind. *)

From stdpp Require Import gmap list strings.
From Stdlib Require Import ZArith NArith Lia Ascii.
From Stdlib Require Decimal DecimalN DecimalFacts.
From Stdlib Require PrimFloat Uint63.

Set Default Proof Using "Type".
Set Warnings "-register-all".

(** ** Strings

    A JavaScript string is a sequence of UTF-16 code units. *)

Abbreviation jstring := (list N).

Definition jstr (s : string) : jstring :=
  N_of_ascii <$> String.list_ascii_of_string s.

(** ** JSON data *)

(** [JNum m k] is the number [m / 10^k], kept exact and in lowest terms
    ([k = 0] or [m] not a multiple of 10).  Integers are [JNum m 0]; the
    program itself only ever builds integers (frame counters).
    JavaScript rounds number literals to binary64 and prints very large
    and very small numbers with an exponent: the model and the language
    agree on every integer of magnitude below 2^53. *)
Inductive json : Type :=
| JNull
| JBool (b : bool)
| JNum (m : Z) (k : nat)
| JStr (s : jstring)
| JArr (l : list json)
| JObj (fields : list (jstring * json)).

Definition JInt (n : Z) : json := JNum n 0.

(** ToBoolean on JSON data *)
Definition truthy (j : json) : bool :=
  match j with
  | JNull => false
  | JBool b => b
  | JNum m _ => negb (m =? 0)%Z
  | JStr s => match s with [] => false | _ => true end
  | JArr _ | JObj _ => true
  end.

(** ToBoolean on a possibly missing value ([None] is [undefined]) *)
Definition truthy_opt (o : option json) : bool :=
  match o with Some j => truthy j | None => false end.

Fixpoint assoc (k : jstring) (f : list (jstring * json)) : option json :=
  match f with
  | [] => None
  | (k', v) :: f' => if decide (k = k') then Some v else assoc k f'
  end.

(** ** JSON text: [JSON.stringify] and [JSON.parse] *)

Module JSON.

Import Decimal.

(** *** Decimal numerals *)

Fixpoint uint_codes (u : uint) : jstring :=
  match u with
  | Nil => []
  | D0 u => 48%N :: uint_codes u
  | D1 u => 49%N :: uint_codes u
  | D2 u => 50%N :: uint_codes u
  | D3 u => 51%N :: uint_codes u
  | D4 u => 52%N :: uint_codes u
  | D5 u => 53%N :: uint_codes u
  | D6 u => 54%N :: uint_codes u
  | D7 u => 55%N :: uint_codes u
  | D8 u => 56%N :: uint_codes u
  | D9 u => 57%N :: uint_codes u
  end.

Definition digit_cons (c : N) : option (uint -> uint) :=
  if (c =? 48)%N then Some D0 else
  if (c =? 49)%N then Some D1 else
  if (c =? 50)%N then Some D2 else
  if (c =? 51)%N then Some D3 else
  if (c =? 52)%N then Some D4 else
  if (c =? 53)%N then Some D5 else
  if (c =? 54)%N then Some D6 else
  if (c =? 55)%N then Some D7 else
  if (c =? 56)%N then Some D8 else
  if (c =? 57)%N then Some D9 else None.

(** the longest run of decimal digits at the head of [s] *)
Fixpoint read_uint (s : jstring) : uint * jstring :=
  match s with
  | [] => (Nil, [])
  | c :: r =>
      match digit_cons c with
      | Some d => let (u, rest) := read_uint r in (d u, rest)
      | None => (Nil, s)
      end
  end.

Definition pow10 (k : nat) : Z := (10 ^ Z.of_nat k)%Z.

(** the [k] low decimal digits of [n], zero-padded on the left *)
Fixpoint frac_codes (k : nat) (n : N) : jstring :=
  match k with
  | O => []
  | S k' => frac_codes k' (n / 10) ++ [(48 + n mod 10)%N]
  end.

(** Number::toString, for the numbers of the model *)
Definition number_to_string (m : Z) (k : nat) : jstring :=
  let a := Z.to_N (Z.abs m) in
  let sign := if (m <? 0)%Z then [45%N] else [] in
  match k with
  | O => sign ++ uint_codes (N.to_uint a)
  | S _ =>
      let p := Z.to_N (pow10 k) in
      sign ++ uint_codes (N.to_uint (a / p)) ++ [46%N] ++ frac_codes k (a mod p)
  end.

(** drop up to [k] trailing decimal zeros of the mantissa *)
Fixpoint strip_zeros (k : nat) (m : Z) : Z * nat :=
  match k with
  | O => (m, O)
  | S k' => if (m mod 10 =? 0)%Z then strip_zeros k' (m / 10)%Z else (m, k)
  end.

(** the value [(-1)^neg * mant * 10^e] in normal form *)
Definition mk_num (neg : bool) (mant : uint) (e : Z) : json :=
  let a := Z.of_N (N.of_uint mant) in
  let m := if neg then (- a)%Z else a in
  if (0 <=? e)%Z then JNum (m * 10 ^ e)%Z 0
  else let (m', k) := strip_zeros (Z.to_nat (- e)) m in JNum m' k.

(** *** Strings *)

Definition hex_digit (d : N) : N :=
  if (d <? 10)%N then (48 + d)%N else (87 + d)%N.

Definition unicode_escape (c : N) : jstring :=
  [92; 117; hex_digit (c / 4096 mod 16); hex_digit (c / 256 mod 16);
   hex_digit (c / 16 mod 16); hex_digit (c mod 16)]%N.

Definition is_high_surrogate (c : N) : bool := (55296 <=? c)%N && (c <=? 56319)%N.
Definition is_low_surrogate (c : N) : bool := (56320 <=? c)%N && (c <=? 57343)%N.

(** one code unit of QuoteJSONString, surrogates apart *)
Definition escape (c : N) : jstring :=
  if (c =? 8)%N then [92; 98]%N else
  if (c =? 9)%N then [92; 116]%N else
  if (c =? 10)%N then [92; 110]%N else
  if (c =? 12)%N then [92; 102]%N else
  if (c =? 13)%N then [92; 114]%N else
  if (c =? 34)%N then [92; 34]%N else
  if (c =? 92)%N then [92; 92]%N else
  if (c <? 32)%N || is_low_surrogate c then unicode_escape c else [c].

Fixpoint quote_chars (s : jstring) : jstring :=
  match s with
  | [] => []
  | c :: r =>
      if is_high_surrogate c then
        match r with
        | d :: r' =>
            if is_low_surrogate d then c :: d :: quote_chars r'
            else unicode_escape c ++ quote_chars r
        | [] => unicode_escape c
        end
      else escape c ++ quote_chars r
  end.

Definition quote (s : jstring) : jstring := 34%N :: quote_chars s ++ [34%N].

Definition hex_value (c : N) : option N :=
  if (48 <=? c)%N && (c <=? 57)%N then Some (c - 48)%N else
  if (65 <=? c)%N && (c <=? 70)%N then Some (c - 55)%N else
  if (97 <=? c)%N && (c <=? 102)%N then Some (c - 87)%N else None.

Definition unescape (e : N) : option N :=
  if (e =? 34)%N then Some 34%N else
  if (e =? 92)%N then Some 92%N else
  if (e =? 47)%N then Some 47%N else
  if (e =? 98)%N then Some 8%N else
  if (e =? 102)%N then Some 12%N else
  if (e =? 110)%N then Some 10%N else
  if (e =? 114)%N then Some 13%N else
  if (e =? 116)%N then Some 9%N else None.

(** the characters of a string literal, after its opening quote *)
Fixpoint parse_chars (s : jstring) : option (jstring * jstring) :=
  match s with
  | [] => None
  | c :: r =>
      if (c =? 34)%N then Some ([], r)
      else if (c =? 92)%N then
        match r with
        | [] => None
        | e :: r' =>
            if (e =? 117)%N then
              match r' with
              | h1 :: h2 :: h3 :: h4 :: r'' =>
                  match hex_value h1, hex_value h2, hex_value h3, hex_value h4 with
                  | Some a, Some b, Some c', Some d =>
                      match parse_chars r'' with
                      | Some (str, rest) =>
                          Some ((a * 4096 + b * 256 + c' * 16 + d)%N :: str, rest)
                      | None => None
                      end
                  | _, _, _, _ => None
                  end
              | _ => None
              end
            else
              match unescape e with
              | Some x =>
                  match parse_chars r' with
                  | Some (str, rest) => Some (x :: str, rest)
                  | None => None
                  end
              | None => None
              end
        end
      else if (c <? 32)%N then None
      else
        match parse_chars r with
        | Some (str, rest) => Some (c :: str, rest)
        | None => None
        end
  end.

(** *** Lexical helpers *)

Definition is_ws (c : N) : bool :=
  (c =? 32)%N || (c =? 9)%N || (c =? 10)%N || (c =? 13)%N.

Fixpoint skip_ws (s : jstring) : jstring :=
  match s with
  | c :: r => if is_ws c then skip_ws r else s
  | [] => []
  end.

Fixpoint strip_prefix (p s : jstring) : option jstring :=
  match p, s with
  | [], _ => Some s
  | a :: p', b :: s' => if (a =? b)%N then strip_prefix p' s' else None
  | _ :: _, [] => None
  end.

(** *** Numbers *)

Definition parse_fraction (s : jstring) : option (uint * jstring) :=
  match s with
  | c :: r =>
      if (c =? 46)%N then
        let (fp, r') := read_uint r in
        match fp with Nil => None | _ => Some (fp, r') end
      else Some (Nil, s)
  | [] => Some (Nil, s)
  end.

Definition parse_exp_digits (neg : bool) (s : jstring) : option (Z * jstring) :=
  let (ep, r) := read_uint s in
  match ep with
  | Nil => None
  | _ => let e := Z.of_N (N.of_uint ep) in Some (if neg then (- e)%Z else e, r)
  end.

Definition parse_exponent (s : jstring) : option (Z * jstring) :=
  match s with
  | c :: r =>
      if (c =? 101)%N || (c =? 69)%N then
        match r with
        | c' :: r' =>
            if (c' =? 43)%N then parse_exp_digits false r'
            else if (c' =? 45)%N then parse_exp_digits true r'
            else parse_exp_digits false r
        | [] => None
        end
      else Some (0%Z, s)
  | [] => Some (0%Z, s)
  end.

Definition parse_number (s : jstring) : option (json * jstring) :=
  let (neg, s1) :=
    match s with
    | c :: r => if (c =? 45)%N then (true, r) else (false, s)
    | [] => (false, s)
    end in
  let (ip, s2) := read_uint s1 in
  match ip with
  | Nil => None
  | D0 (D0 _ | D1 _ | D2 _ | D3 _ | D4 _ | D5 _ | D6 _ | D7 _ | D8 _ | D9 _) => None
  | _ =>
      match parse_fraction s2 with
      | None => None
      | Some (fp, s3) =>
          match parse_exponent s3 with
          | None => None
          | Some (e, s4) =>
              Some (mk_num neg (app ip fp) (e - Z.of_nat (nb_digits fp)), s4)
          end
      end
  end.

(** *** Objects: property order

    An object lists its integer-index keys first, in ascending order, then
    its other keys in order of creation; assigning to an existing key
    keeps its place. *)

Definition array_index (k : jstring) : option N :=
  let (u, rest) := read_uint k in
  match rest with
  | [] =>
      match u with
      | Nil => None
      | D0 Nil => Some 0%N
      | D0 _ => None
      | _ => let n := N.of_uint u in if (n <? 4294967295)%N then Some n else None
      end
  | _ :: _ => None
  end.

Fixpoint define (k : jstring) (v : json) (f : list (jstring * json))
  : list (jstring * json) :=
  match f with
  | [] => [(k, v)]
  | (k', v') :: f' =>
      if decide (k = k') then (k, v) :: f'
      else
        match array_index k, array_index k' with
        | Some i, Some i' =>
            if (i <? i')%N then (k, v) :: f else (k', v') :: define k v f'
        | Some _, None => (k, v) :: f
        | None, _ => (k', v') :: define k v f'
        end
  end.

Definition object_of (members : list (jstring * json)) : json :=
  JObj (fold_left (fun f kv => define kv.1 kv.2 f) members []).

(** *** The parser

    Recursive descent.  [n] bounds the nesting depth and the number of
    elements of one array or object; every recursive call is made after
    at least one code unit has been consumed, so a bound above the length
    of the text is never reached (lemma [parse_value_bound]). *)

Section Parser.
Variable parse_value : jstring -> option (json * jstring).

(** the elements of an array and its closing bracket: v [, v]* ] *)
Fixpoint parse_elements (n : nat) (s : jstring) : option (list json * jstring) :=
  match n with
  | O => None
  | S n' =>
      match parse_value s with
      | None => None
      | Some (v, r) =>
          match skip_ws r with
          | c :: r' =>
              if (c =? 44)%N then
                match parse_elements n' r' with
                | Some (vs, r'') => Some (v :: vs, r'')
                | None => None
                end
              else if (c =? 93)%N then Some ([v], r')
              else None
          | [] => None
          end
      end
  end.

(** the members of an object and its closing bracket:
    "k" : v [, "k" : v]* } *)
Fixpoint parse_members (n : nat) (s : jstring)
  : option (list (jstring * json) * jstring) :=
  match n with
  | O => None
  | S n' =>
      match skip_ws s with
      | c :: r =>
          if (c =? 34)%N then
            match parse_chars r with
            | None => None
            | Some (k, r1) =>
                match skip_ws r1 with
                | c1 :: r2 =>
                    if (c1 =? 58)%N then
                      match parse_value r2 with
                      | None => None
                      | Some (v, r3) =>
                          match skip_ws r3 with
                          | c3 :: r4 =>
                              if (c3 =? 44)%N then
                                match parse_members n' r4 with
                                | Some (ms, r5) => Some ((k, v) :: ms, r5)
                                | None => None
                                end
                              else if (c3 =? 125)%N then Some ([(k, v)], r4)
                              else None
                          | [] => None
                          end
                      end
                    else None
                | [] => None
                end
            end
          else None
      | [] => None
      end
  end.
End Parser.

Definition is_digit (c : N) : bool := (48 <=? c)%N && (c <=? 57)%N.

(** the text after the bracket [b], if [s] starts with it *)
Definition closing (b : N) (s : jstring) : option jstring :=
  match s with
  | c :: r => if (c =? b)%N then Some r else None
  | [] => None
  end.

Fixpoint parse_value (n : nat) (s : jstring) : option (json * jstring) :=
  match n with
  | O => None
  | S n' =>
      match skip_ws s with
      | [] => None
      | c :: r =>
          if (c =? 91)%N then
            match closing 93 (skip_ws r) with
            | Some r' => Some (JArr [], r')
            | None =>
                match parse_elements (parse_value n') n' r with
                | Some (vs, r') => Some (JArr vs, r')
                | None => None
                end
            end
          else if (c =? 123)%N then
            match closing 125 (skip_ws r) with
            | Some r' => Some (JObj [], r')
            | None =>
                match parse_members (parse_value n') n' r with
                | Some (ms, r') => Some (object_of ms, r')
                | None => None
                end
            end
          else if (c =? 34)%N then
            match parse_chars r with
            | Some (str, r') => Some (JStr str, r')
            | None => None
            end
          else if (c =? 45)%N || is_digit c then parse_number (c :: r)
          else if (c =? 116)%N then
            match strip_prefix (jstr "rue") r with
            | Some r' => Some (JBool true, r') | None => None end
          else if (c =? 102)%N then
            match strip_prefix (jstr "alse") r with
            | Some r' => Some (JBool false, r') | None => None end
          else if (c =? 110)%N then
            match strip_prefix (jstr "ull") r with
            | Some r' => Some (JNull, r') | None => None end
          else None
      end
  end.

(** *** The printer *)

Fixpoint stringify (j : json) : jstring :=
  match j with
  | JNull => jstr "null"
  | JBool true => jstr "true"
  | JBool false => jstr "false"
  | JNum m k => number_to_string m k
  | JStr s => quote s
  | JArr l =>
      [91%N] ++
      (fix elements (l : list json) : jstring :=
         match l with
         | [] => []
         | [x] => stringify x
         | x :: r => stringify x ++ [44%N] ++ elements r
         end) l ++ [93%N]
  | JObj f =>
      [123%N] ++
      (fix members (f : list (jstring * json)) : jstring :=
         match f with
         | [] => []
         | [(k, v)] => quote k ++ [58%N] ++ stringify v
         | (k, v) :: r => quote k ++ [58%N] ++ stringify v ++ [44%N] ++ members r
         end) f ++ [125%N]
  end.

(** the texts of the elements of an array and of the members of an
    object, as [stringify] joins them *)
Definition elements_text : list json -> jstring :=
  fix elements (l : list json) : jstring :=
    match l with
    | [] => []
    | [x] => stringify x
    | x :: r => stringify x ++ [44%N] ++ elements r
    end.

Definition members_text : list (jstring * json) -> jstring :=
  fix members (f : list (jstring * json)) : jstring :=
    match f with
    | [] => []
    | [(k, v)] => quote k ++ [58%N] ++ stringify v
    | (k, v) :: r => quote k ++ [58%N] ++ stringify v ++ [44%N] ++ members r
    end.

(** [JSON.parse]: [None] is a thrown SyntaxError *)
Definition parse (s : jstring) : option json :=
  match parse_value (S (length s)) s with
  | Some (v, r) => match skip_ws r with [] => Some v | _ :: _ => None end
  | None => None
  end.

End JSON.


(** ** Run-time values and the store

    Arrays are objects with identity: [this._recording = sequence] shares
    the caller's array and [push] changes it in place.  The store holds
    the arrays; their elements are JSON data (the program never changes a
    frame record once it is stored). *)

Definition loc := nat.

Inductive value : Type :=
| VUndefined
| VNull
| VBool (b : bool)
| VNum (m : Z) (k : nat)
| VStr (s : jstring)
| VObj (fields : list (jstring * json))
| VArr (l : loc).

(** ** The host game

    [Wv.Jc.Dk] is the input manager ([tb]: direction slot to pressed,
    [ha]: the raw vector), its [Jc] the keyboard handler ([Ob]: key code to
    pressed, [Ea]: direction slot to key codes).  [Vv_tick] says whether
    [Vv.prototype.tick] exists.  [listeners] is what the key listeners
    registered on the page do to the game's objects when an event reaches
    them: any function, since the listeners are the game's and not part of
    this repository.  They act on the game's objects only, and what they
    throw does not reach the caller of [dispatchEvent].  [dispatched] is
    the trace of keyboard events handed to [document.dispatchEvent]. *)

Record InputManager : Type := {
  tb : option (gmap N json);
  ha : option (json * json)
}.

Record KeyboardHandler : Type := {
  Ob : gmap N bool;
  Ea : option (gmap N (list N))
}.

Inductive KeyEvent : Type :=
| keydown (keyCode : N)
| keyup (keyCode : N).

Record Game : Type := {
  Dk : InputManager;
  Jc : KeyboardHandler;
  Vv_tick : bool
}.

Record Host : Type := {
  game :> Game;
  listeners : KeyEvent -> Game -> Game;
  dispatched : list KeyEvent
}.

Definition set_game (g : Game) (h : Host) : Host :=
  {| game := g; listeners := listeners h; dispatched := dispatched h |}.

Definition set_Ob (f : gmap N bool -> gmap N bool) (h : Host) : Host :=
  set_game {| Dk := Dk h; Jc := {| Ob := f (Ob (Jc h)); Ea := Ea (Jc h) |};
              Vv_tick := Vv_tick h |} h.

(** [document.dispatchEvent(event)]: the event goes to the page's
    listeners, which run before the call returns *)
Definition dispatchEvent (e : KeyEvent) (h : Host) : Host :=
  {| game := listeners h e (game h); listeners := listeners h;
     dispatched := dispatched h ++ [e] |}.

(** ** The TAS object

    [_inputManager] and [_keyboardHandler] are [null] ([false]) or refer to
    the host's objects ([true]). *)

Record Session : Type := {
  _inputManager : bool;
  _keyboardHandler : bool;
  _recording : value;
  _isRecording : bool;
  _isPlaying : bool;
  _playbackIndex : nat;
  _frameCount : nat;
  _tickHooked : bool
}.

Definition set_recording (v : value) (s : Session) : Session :=
  {| _inputManager := _inputManager s; _keyboardHandler := _keyboardHandler s;
     _recording := v; _isRecording := _isRecording s; _isPlaying := _isPlaying s;
     _playbackIndex := _playbackIndex s; _frameCount := _frameCount s;
     _tickHooked := _tickHooked s |}.

Definition set_isRecording (b : bool) (s : Session) : Session :=
  {| _inputManager := _inputManager s; _keyboardHandler := _keyboardHandler s;
     _recording := _recording s; _isRecording := b; _isPlaying := _isPlaying s;
     _playbackIndex := _playbackIndex s; _frameCount := _frameCount s;
     _tickHooked := _tickHooked s |}.

Definition set_isPlaying (b : bool) (s : Session) : Session :=
  {| _inputManager := _inputManager s; _keyboardHandler := _keyboardHandler s;
     _recording := _recording s; _isRecording := _isRecording s; _isPlaying := b;
     _playbackIndex := _playbackIndex s; _frameCount := _frameCount s;
     _tickHooked := _tickHooked s |}.

Definition set_playbackIndex (n : nat) (s : Session) : Session :=
  {| _inputManager := _inputManager s; _keyboardHandler := _keyboardHandler s;
     _recording := _recording s; _isRecording := _isRecording s;
     _isPlaying := _isPlaying s; _playbackIndex := n;
     _frameCount := _frameCount s; _tickHooked := _tickHooked s |}.

Definition set_frameCount (n : nat) (s : Session) : Session :=
  {| _inputManager := _inputManager s; _keyboardHandler := _keyboardHandler s;
     _recording := _recording s; _isRecording := _isRecording s;
     _isPlaying := _isPlaying s; _playbackIndex := _playbackIndex s;
     _frameCount := n; _tickHooked := _tickHooked s |}.

Definition set_tickHooked (b : bool) (s : Session) : Session :=
  {| _inputManager := _inputManager s; _keyboardHandler := _keyboardHandler s;
     _recording := _recording s; _isRecording := _isRecording s;
     _isPlaying := _isPlaying s; _playbackIndex := _playbackIndex s;
     _frameCount := _frameCount s; _tickHooked := b |}.

Definition set_inputManager (b : bool) (s : Session) : Session :=
  {| _inputManager := b; _keyboardHandler := _keyboardHandler s;
     _recording := _recording s; _isRecording := _isRecording s;
     _isPlaying := _isPlaying s; _playbackIndex := _playbackIndex s;
     _frameCount := _frameCount s; _tickHooked := _tickHooked s |}.

Definition set_keyboardHandler (b : bool) (s : Session) : Session :=
  {| _inputManager := _inputManager s; _keyboardHandler := b;
     _recording := _recording s; _isRecording := _isRecording s;
     _isPlaying := _isPlaying s; _playbackIndex := _playbackIndex s;
     _frameCount := _frameCount s; _tickHooked := _tickHooked s |}.

(** ** The console *)

Inductive Level : Type := log | warn | error.

(** one call of [console.log], [console.warn] or [console.error]: the
    literal text and the values spliced into it *)
Record Entry : Type := {
  level : Level;
  text : string;
  args : list (option json)
}.

(** ** Worlds and calls *)

Record World : Type := {
  tas : Session;
  store : list (list json);
  host : Host;
  console : list Entry
}.

Inductive exn : Type :=
| TypeError
| SyntaxError
| OutsideModel.  (* a coercion of JavaScript that the model does not cover *)

Inductive completion (A : Type) : Type :=
| Normal (a : A)
| Abrupt (e : exn).
Arguments Normal {A} a.
Arguments Abrupt {A} e.

(** a call: from a world to a completion and the world it leaves *)
Definition M (A : Type) : Type := World -> completion A * World.

Definition ret {A} (a : A) : M A := fun w => (Normal a, w).

Definition bind {A B} (m : M A) (k : A -> M B) : M B :=
  fun w =>
    match m w with
    | (Normal a, w') => k a w'
    | (Abrupt e, w') => (Abrupt e, w')
    end.

#[global] Instance M_ret : MRet M := @ret.
#[global] Instance M_bind : MBind M := fun A B k m => bind m k.

Definition throw {A} (e : exn) : M A := fun w => (Abrupt e, w).

(** [try { m } catch (e) { h }]; what the model does not cover is not caught *)
Definition try_catch {A} (m : M A) (h : M A) : M A :=
  fun w =>
    match m w with
    | (Abrupt OutsideModel, w') => (Abrupt OutsideModel, w')
    | (Abrupt _, w') => h w'
    | r => r
    end.

Definition this : M Session := fun w => (Normal (tas w), w).

Definition update (f : Session -> Session) : M unit :=
  fun w => (Normal tt,
            {| tas := f (tas w); store := store w; host := host w;
               console := console w |}).

Definition the_host : M Host := fun w => (Normal (host w), w).

Definition update_host (f : Host -> Host) : M unit :=
  fun w => (Normal tt,
            {| tas := tas w; store := store w; host := f (host w);
               console := console w |}).

Definition say (l : Level) (t : string) (a : list (option json)) : M unit :=
  fun w => (Normal tt,
            {| tas := tas w; store := store w; host := host w;
               console := console w ++ [{| level := l; text := t; args := a |}] |}).

(** a new array object *)
Definition alloc (a : list json) : M value :=
  fun w => (Normal (VArr (length (store w))),
            {| tas := tas w; store := store w ++ [a]; host := host w;
               console := console w |}).

Definition when (b : bool) (m : M unit) : M unit := if b then m else ret tt.

Fixpoint for_each {A} (l : list A) (body : A -> M unit) : M unit :=
  match l with
  | [] => ret tt
  | x :: r => body x;; for_each r body
  end.

(** ** The page and its timers

    [init] looks for the game in the globals of the page.  [Wv] tells
    whether [Wv], [Wv.Jc] and [Wv.Jc.Dk] are all there; [xh_yp] is what the
    call [xh(yp)] does: [None] when [xh] is not a function or [yp] is not
    defined, [Some (Abrupt e)] when the call throws, [Some (Normal b)] when
    it returns, [b] telling whether the value returned and its [Dk] are
    there.  The page has one game: the input manager found either way is
    the host's. *)
Record Page : Type := {
  Wv : bool;
  xh_yp : option (completion bool)
}.

(** [setTimeout(callback, delay)] keeps the callback for later: the delay
    in milliseconds and the callback, which finds the page and the world of
    the moment it fires and may set a timer in turn *)
Inductive Pending : Type :=
| pending (delay : N) (callback : Page -> M (option Pending)).

(** ** The operations of JavaScript the program uses *)

Definition to_boolean (v : value) : bool :=
  match v with
  | VUndefined | VNull => false
  | VBool b => b
  | VNum m _ => negb (m =? 0)%Z
  | VStr s => match s with [] => false | _ => true end
  | VObj _ | VArr _ => true
  end.

Definition is_array (v : value) : bool :=
  match v with VArr _ => true | _ => false end.

(** the value of a JSON datum; an array becomes a new object *)
Definition of_json (j : json) : M value :=
  match j with
  | JNull => ret VNull
  | JBool b => ret (VBool b)
  | JNum m k => ret (VNum m k)
  | JStr s => ret (VStr s)
  | JObj f => ret (VObj f)
  | JArr l => alloc l
  end.

(** the elements of the array at [l] *)
Definition elements (σ : list (list json)) (l : loc) : list json :=
  default [] (σ !! l).

(** the JSON datum of a value; [None] for [undefined] *)
Definition to_json (σ : list (list json)) (v : value) : option json :=
  match v with
  | VUndefined => None
  | VNull => Some JNull
  | VBool b => Some (JBool b)
  | VNum m k => Some (JNum m k)
  | VStr s => Some (JStr s)
  | VObj f => Some (JObj f)
  | VArr l => Some (JArr (elements σ l))
  end.

(** [v.length] *)
Definition length_of (v : value) : M (option json) :=
  fun w =>
    match v with
    | VUndefined | VNull => (Abrupt TypeError, w)
    | VBool _ | VNum _ _ => (Normal None, w)
    | VStr s => (Normal (Some (JInt (Z.of_nat (length s)))), w)
    | VObj f => (Normal (assoc (jstr "length") f), w)
    | VArr l => (Normal (Some (JInt (Z.of_nat (length (elements (store w) l))))), w)
    end.

(** [x === 0] *)
Definition is_zero (x : option json) : bool :=
  match x with Some (JNum m _) => (m =? 0)%Z | _ => false end.

(** [x > 0] for a length *)
Definition positive (x : option json) : bool :=
  match x with Some (JNum m _) => (0 <? m)%Z | _ => false end.

(** [i >= x] for a counter [i]; ToNumber is modelled on [undefined], [null],
    booleans and numbers *)
Definition counter_ge (i : nat) (x : option json) : M bool :=
  match x with
  | None => ret false
  | Some JNull => ret true
  | Some (JBool b) => ret (if b then (1 <=? i)%nat else true)
  | Some (JNum m k) => ret (m <=? Z.of_nat i * JSON.pow10 k)%Z
  | Some (JStr _) | Some (JArr _) | Some (JObj _) => throw OutsideModel
  end.

(** [v[i]] *)
Definition index (v : value) (i : nat) : M (option json) :=
  fun w =>
    match v with
    | VUndefined | VNull => (Abrupt TypeError, w)
    | VBool _ | VNum _ _ => (Normal None, w)
    | VStr s => (Normal ((fun c => JStr [c]) <$> s !! i), w)
    | VObj f => (Normal (assoc (JSON.uint_codes (N.to_uint (N.of_nat i))) f), w)
    | VArr l => (Normal (elements (store w) l !! i), w)
    end.

(** [x.k] for one of the keys of a frame record *)
Definition prop (x : option json) (k : string) : M (option json) :=
  match x with
  | None | Some JNull => throw TypeError
  | Some (JObj f) => ret (assoc (jstr k) f)
  | Some _ => ret None
  end.

(** [v.push(x)] *)
Definition push (v : value) (x : json) : M unit :=
  fun w =>
    match v with
    | VArr l =>
        (Normal tt,
         {| tas := tas w;
            store := <[l := elements (store w) l ++ [x]]> (store w);
            host := host w; console := console w |})
    | _ => (Abrupt TypeError, w)
    end.

(** [v.slice()] *)
Definition slice (v : value) : M value :=
  fun w =>
    match v with
    | VArr l => alloc (elements (store w) l) w
    | VStr s => (Normal (VStr s), w)
    | _ => (Abrupt TypeError, w)
    end.

(** [JSON.stringify(v)] *)
Definition JSON_stringify (v : value) : M value :=
  fun w =>
    (Normal (match to_json (store w) v with
             | Some j => VStr (JSON.stringify j)
             | None => VUndefined
             end), w).

(** [JSON.parse(s)] *)
Definition JSON_parse (s : jstring) : M value :=
  match JSON.parse s with
  | Some j => of_json j
  | None => throw SyntaxError
  end.

(** ** Frame records *)

Definition frame_record (frame : Z) (left right up down action cancel : bool)
  : json :=
  JObj [(jstr "frame", JInt frame); (jstr "left", JBool left);
        (jstr "right", JBool right); (jstr "up", JBool up);
        (jstr "down", JBool down); (jstr "action", JBool action);
        (jstr "cancel", JBool cancel)].

(** the direction slots, [TAS.DIRECTION] *)
Module DIRECTION.
Definition LEFT : N := 0.
Definition RIGHT : N := 1.
Definition UP : N := 2.
Definition DOWN : N := 3.
Definition ACTION : N := 4.
Definition CANCEL : N := 5.
End DIRECTION.

(** the object returned by [getInputState] *)
Module InputState.
Record t : Type := {
  left : bool; right : bool; up : bool; down : bool;
  action : bool; cancel : bool;
  vector : option (json * json)
}.
End InputState.

(** * The sequence builder

    [sequence()] closes over a new array [seq] and a counter
    [currentFrame]; every method returns the same builder.  The text of
    [src/tas.js], lines 897-966, and of [src/unnamed/part_000], lines
    582-651, is the same; [play] hands [seq] to the [startPlayback] of its
    own TAS object. *)

Module Builder.

Record t : Type := {
  seq : value;
  currentFrame : nat
}.

Definition sequence : M t :=
  a ← alloc [];
  mret {| seq := a; currentFrame := 0 |}.

Fixpoint hold_loop (direction : N) (n : nat) (b : t) : M t :=
  match n with
  | O => mret b
  | S n' =>
      push (seq b)
        (frame_record (Z.of_nat (currentFrame b))
           (direction =? DIRECTION.LEFT)%N (direction =? DIRECTION.RIGHT)%N
           (direction =? DIRECTION.UP)%N (direction =? DIRECTION.DOWN)%N
           (direction =? DIRECTION.ACTION)%N (direction =? DIRECTION.CANCEL)%N);;
      hold_loop direction n' {| seq := seq b; currentFrame := S (currentFrame b) |}
  end.

(** [for (let i = 0; i < frames; i++)] *)
Definition hold (direction : N) (frames : Z) (b : t) : M t :=
  hold_loop direction (Z.to_nat frames) b.

Fixpoint wait_loop (n : nat) (b : t) : M t :=
  match n with
  | O => mret b
  | S n' =>
      push (seq b)
        (frame_record (Z.of_nat (currentFrame b)) false false false false false false);;
      wait_loop n' {| seq := seq b; currentFrame := S (currentFrame b) |}
  end.

Definition wait (frames : Z) (b : t) : M t :=
  wait_loop (Z.to_nat frames) b.

(** [frames || 1]; [None] is a call without argument *)
Definition or_one (frames : option Z) : Z :=
  match frames with
  | None => 1
  | Some n => if (n =? 0)%Z then 1 else n
  end%Z.

Definition left (frames : option Z) : t -> M t := hold DIRECTION.LEFT (or_one frames).
Definition right (frames : option Z) : t -> M t := hold DIRECTION.RIGHT (or_one frames).
Definition up (frames : option Z) : t -> M t := hold DIRECTION.UP (or_one frames).
Definition down (frames : option Z) : t -> M t := hold DIRECTION.DOWN (or_one frames).
Definition action (frames : option Z) : t -> M t := hold DIRECTION.ACTION (or_one frames).
Definition cancel (frames : option Z) : t -> M t := hold DIRECTION.CANCEL (or_one frames).

Definition build (b : t) : M value := mret (seq b).

Definition play (startPlayback : value -> M unit) (b : t) : M value :=
  startPlayback (seq b);;
  mret (seq b).

End Builder.

(** * [src/unnamed/part_000]: the direct-state engine with a tick hook *)

Module Direct.

(** ** Direct input simulation *)

Definition pressKey (keyCode : N) : M unit :=
  s ← this;
  if negb (_keyboardHandler s) then say warn "[TAS] Not initialized" []
  else update_host (set_Ob (insert keyCode true)).

Definition releaseKey (keyCode : N) : M unit :=
  s ← this;
  if negb (_keyboardHandler s) then say warn "[TAS] Not initialized" []
  else update_host (set_Ob (insert keyCode false)).

(** every key of [Ob] is assigned [false] *)
Definition releaseAllKeys : M unit :=
  s ← this;
  if negb (_keyboardHandler s) then say warn "[TAS] Not initialized" []
  else update_host (set_Ob (fmap (fun _ => false))).

(** the [fallbackKeys] table of [pressDirection] *)
Definition fallbackKey (direction : N) : option N :=
  match direction with
  | 0 => Some 37 | 1 => Some 39 | 2 => Some 38
  | 3 => Some 40 | 4 => Some 32 | 5 => Some 8
  | _ => None
  end%N.

(** the [fallbackKeys] table of [releaseDirection] *)
Definition fallbackKeys (direction : N) : option (list N) :=
  match direction with
  | 0 => Some [37; 65] | 1 => Some [39; 68] | 2 => Some [38; 87]
  | 3 => Some [40; 83] | 4 => Some [32; 13] | 5 => Some [8; 49; 46]
  | _ => None
  end%N.

Definition pressDirection (direction : N) : M unit :=
  s ← this;
  if negb (_keyboardHandler s) then say warn "[TAS] Not initialized" []
  else
    h ← the_host;
    match Ea (Jc (game h)) ≫= (fun keyMappings => keyMappings !! direction) with
    | Some (keyCode :: _) => pressKey keyCode
    | _ =>
        match fallbackKey direction with
        | Some keyCode => pressKey keyCode
        | None => mret tt
        end
    end.

Definition releaseDirection (direction : N) : M unit :=
  s ← this;
  if negb (_keyboardHandler s) then say warn "[TAS] Not initialized" []
  else
    h ← the_host;
    match Ea (Jc (game h)) ≫= (fun keyMappings => keyMappings !! direction) with
    | Some (keyCode :: keys) => for_each (keyCode :: keys) releaseKey
    | _ =>
        match fallbackKeys direction with
        | Some keys => for_each keys releaseKey
        | None => mret tt
        end
    end.

(** ** Convenience methods *)

Definition left : M unit := pressDirection DIRECTION.LEFT.
Definition right : M unit := pressDirection DIRECTION.RIGHT.
Definition up : M unit := pressDirection DIRECTION.UP.
Definition down : M unit := pressDirection DIRECTION.DOWN.
Definition action : M unit := pressKey 13.
Definition cancel : M unit := pressDirection DIRECTION.CANCEL.

Definition releaseLeft : M unit := releaseDirection DIRECTION.LEFT.
Definition releaseRight : M unit := releaseDirection DIRECTION.RIGHT.
Definition releaseUp : M unit := releaseDirection DIRECTION.UP.
Definition releaseDown : M unit := releaseDirection DIRECTION.DOWN.
Definition releaseAction : M unit := releaseKey 13.
Definition releaseCancel : M unit := releaseDirection DIRECTION.CANCEL.

(** ** Input state *)

Definition getInputState : M (option InputState.t) :=
  s ← this;
  if negb (_inputManager s) then mret None
  else
    h ← the_host;
    let tb := default ∅ (tb (Dk (game h))) in
    mret (Some {| InputState.left := truthy_opt (tb !! 0%N);
                  InputState.right := truthy_opt (tb !! 1%N);
                  InputState.up := truthy_opt (tb !! 2%N);
                  InputState.down := truthy_opt (tb !! 3%N);
                  InputState.action := truthy_opt (tb !! 4%N);
                  InputState.cancel := truthy_opt (tb !! 5%N);
                  InputState.vector := ha (Dk (game h)) |}).

Definition setInputState (state : option json) : M unit :=
  releaseAllKeys;;
  x ← prop state "left"; when (truthy_opt x) left;;
  x ← prop state "right"; when (truthy_opt x) right;;
  x ← prop state "up"; when (truthy_opt x) up;;
  x ← prop state "down"; when (truthy_opt x) down;;
  x ← prop state "action"; when (truthy_opt x) action;;
  x ← prop state "cancel"; when (truthy_opt x) cancel.

(** ** Recording and playback *)

Definition _hookGameTick : M unit :=
  s ← this;
  if _tickHooked s then mret tt
  else
    h ← the_host;
    if Vv_tick (game h) then
      update (set_tickHooked true);;
      say log "[TAS] Hooked into game tick (Vv.prototype.tick)" []
    else
      say warn "[TAS] Could not hook into game tick. Recording may not work automatically." [].

Definition startRecording : M unit :=
  a ← alloc [];
  update (set_recording a);;
  update (set_isRecording true);;
  update (set_frameCount 0);;
  s ← this;
  when (negb (_tickHooked s)) _hookGameTick;;
  say log "[TAS] Recording started" [].

Definition stopRecording : M value :=
  update (set_isRecording false);;
  s ← this;
  n ← length_of (_recording s);
  say log "[TAS] Recording stopped. _ frames recorded." [n];;
  slice (_recording s).

Definition recordFrame : M unit :=
  s ← this;
  if negb (_isRecording s) then mret tt
  else
    state ← getInputState;
    match state with
    | Some state =>
        let hasInput :=
          InputState.left state || InputState.right state ||
          InputState.up state || InputState.down state ||
          InputState.action state || InputState.cancel state in
        s ← this;
        push (_recording s)
          (JObj [(jstr "frame", JInt (Z.of_nat (_frameCount s)));
                 (jstr "left", JBool (InputState.left state));
                 (jstr "right", JBool (InputState.right state));
                 (jstr "up", JBool (InputState.up state));
                 (jstr "down", JBool (InputState.down state));
                 (jstr "action", JBool (InputState.action state));
                 (jstr "cancel", JBool (InputState.cancel state));
                 (jstr "hasInput", JBool hasInput)])
    | None => mret tt
    end;;
    s ← this;
    update (set_frameCount (S (_frameCount s))).

Definition startPlayback (sequence : value) : M unit :=
  s ← this;
  let sequence :=
    match sequence with VUndefined => _recording s | _ => sequence end in
  parsed ←
    match sequence with
    | VStr text =>
        try_catch (v ← JSON_parse text; mret (Some v))
                  (say error "[TAS] Failed to parse sequence JSON:" [];; mret None)
    | _ => mret (Some sequence)
    end;
  match parsed with
  | None => mret tt
  | Some sequence =>
      (if is_array sequence then
         n ← length_of sequence;
         when (positive n) (update (set_recording sequence))
       else mret tt);;
      s ← this;
      nothing ←
        (if negb (to_boolean (_recording s)) then mret true
         else if negb (is_array (_recording s)) then mret true
         else n ← length_of (_recording s); mret (is_zero n));
      if nothing : bool then
        say warn "[TAS] No sequence to play. Use TAS.importRecording(json) first or pass a sequence." []
      else
        s ← this;
        when (negb (_tickHooked s)) _hookGameTick;;
        update (set_playbackIndex 0);;
        update (set_isPlaying true);;
        update (set_isRecording false);;
        s ← this;
        n ← length_of (_recording s);
        say log "[TAS] Playback started. _ frames to play." [n]
  end.

Definition stopPlayback : M unit :=
  update (set_isPlaying false);;
  update (set_playbackIndex 0);;
  releaseAllKeys;;
  say log "[TAS] Playback stopped" [].

Definition playbackFrame : M bool :=
  s ← this;
  if negb (_isPlaying s) then mret false
  else
    n ← length_of (_recording s);
    finished ← counter_ge (_playbackIndex s) n;
    if finished : bool then stopPlayback;; mret false
    else
      state ← index (_recording s) (_playbackIndex s);
      setInputState state;;
      s ← this;
      update (set_playbackIndex (S (_playbackIndex s)));;
      mret true.

(** the function installed over [Vv.prototype.tick] by [_hookGameTick];
    [originalTick] is what the game's own tick does to its objects *)
Definition tick (originalTick : Host -> Host) : M unit :=
  update_host originalTick;;
  s ← this;
  when (_isRecording s) recordFrame;;
  s ← this;
  when (_isPlaying s) (playbackFrame;; mret tt).

Definition isRecording : M bool := s ← this; mret (_isRecording s).
Definition isPlaying : M bool := s ← this; mret (_isPlaying s).

Definition getRecording : M value := s ← this; slice (_recording s).

Definition exportRecording : M value := s ← this; JSON_stringify (_recording s).

Definition importRecording (data : value) : M bool :=
  try_catch
    (if is_array data then
       update (set_recording data);;
       s ← this;
       n ← length_of (_recording s);
       say log "[TAS] Imported _ frames (from array)" [n];;
       mret true
     else
       match data with
       | VStr text =>
           v ← JSON_parse text;
           update (set_recording v);;
           s ← this;
           n ← length_of (_recording s);
           say log "[TAS] Imported _ frames (from JSON)" [n];;
           mret true
       | _ =>
           say error "[TAS] Invalid import data type. Expected array or JSON string." [];;
           mret false
       end)
    (say error "[TAS] Failed to import recording:" [];; mret false).

(** ** Sequence builder *)

Definition sequence : M Builder.t := Builder.sequence.

Definition play (b : Builder.t) : M value := Builder.play startPlayback b.

(** ** Frame count and readiness *)

Definition getFrameCount : M nat := s ← this; mret (_frameCount s).

Definition isGameReady : M bool :=
  s ← this; mret (_inputManager s && _keyboardHandler s).

(** ** Initialisation *)

(** [inputManager] is [null] ([false]) or the host's input manager
    ([true]) *)
Definition setInputManager (inputManager : bool) : M unit :=
  update (set_inputManager inputManager);;
  when inputManager (update (set_keyboardHandler true)).

(** [this._gameInstance], which only [getCurrentScene] reads, is not kept;
    the call [xh(yp)] is taken to leave the host as it is *)
Definition init (page : Page) : M bool :=
  if Wv page then
    update (set_inputManager true);;
    update (set_keyboardHandler true);;
    say log "[TAS] Initialized successfully via Wv.Jc.Dk" [];;
    mret true
  else
    found ←
      match xh_yp page with
      | Some (Normal true) =>
          update (set_inputManager true);;
          update (set_keyboardHandler true);;
          say log "[TAS] Initialized successfully via xh(yp)" [];;
          mret true
      | _ => mret false
      end;
    if found : bool then mret true
    else
      say warn "[TAS] Could not find input manager. Make sure game is loaded." [];;
      say warn "[TAS] Try calling TAS.init() after the game starts." [];;
      mret false.

Fixpoint tryInit (attempts : nat) (page : Page) : M (option Pending) :=
  ok ← init page;
  if ok : bool then
    _hookGameTick;;
    say log "[TAS] Ready! Use TAS.logState() to see current state." [];;
    say log "[TAS] Commands: TAS.action(), TAS.left(), TAS.right(), TAS.up(), TAS.down()" [];;
    say log "[TAS] Recording: TAS.startRecording(), TAS.stopRecording(), TAS.exportRecording()" [];;
    mret None
  else
    match attempts with
    | S n => mret (Some (pending 500 (tryInit n)))
    | O => mret None
    end.

(** the timer the script sets, at once when the document is complete and
    on the [load] event of the window otherwise *)
Definition on_load : Pending := pending 500 (tryInit 10).

End Direct.

(** * [src/tas.js], lines 1-440: the event-dispatch engine *)

Module Dispatch.

(** [TAS.KEYS] *)
Module KEYS.
Definition LEFT : N := 37.
Definition RIGHT : N := 39.
Definition UP : N := 38.
Definition DOWN : N := 40.
Definition SPACE : N := 32.
Definition ENTER : N := 13.
Definition BACKSPACE : N := 8.
(** [Object.keys(this.KEYS)], as values *)
Definition all : list N := [LEFT; RIGHT; UP; DOWN; SPACE; ENTER; BACKSPACE].
End KEYS.

(** ** Keyboard event simulation *)

Definition _dispatchKeyEvent (type : N -> KeyEvent) (keyCode : N) : M unit :=
  update_host (dispatchEvent (type keyCode)).

Definition pressKey (keyCode : N) : M unit := _dispatchKeyEvent keydown keyCode.
Definition releaseKey (keyCode : N) : M unit := _dispatchKeyEvent keyup keyCode.

Definition releaseAllKeys : M unit := for_each KEYS.all releaseKey.

(** ** Direction shortcuts *)

Definition left : M unit := pressKey KEYS.LEFT.
Definition right : M unit := pressKey KEYS.RIGHT.
Definition up : M unit := pressKey KEYS.UP.
Definition down : M unit := pressKey KEYS.DOWN.
Definition action : M unit := pressKey KEYS.ENTER.
Definition cancel : M unit := pressKey KEYS.BACKSPACE.

Definition releaseLeft : M unit := releaseKey KEYS.LEFT.
Definition releaseRight : M unit := releaseKey KEYS.RIGHT.
Definition releaseUp : M unit := releaseKey KEYS.UP.
Definition releaseDown : M unit := releaseKey KEYS.DOWN.
Definition releaseAction : M unit := releaseKey KEYS.ENTER.
Definition releaseCancel : M unit := releaseKey KEYS.BACKSPACE.

(** ** Input state *)

(** this copy's object has no [vector] *)
Definition getInputState : M (option InputState.t) :=
  s ← this;
  if negb (_inputManager s) then mret None
  else
    h ← the_host;
    let tb := default ∅ (tb (Dk (game h))) in
    mret (Some {| InputState.left := truthy_opt (tb !! 0%N);
                  InputState.right := truthy_opt (tb !! 1%N);
                  InputState.up := truthy_opt (tb !! 2%N);
                  InputState.down := truthy_opt (tb !! 3%N);
                  InputState.action := truthy_opt (tb !! 4%N);
                  InputState.cancel := truthy_opt (tb !! 5%N);
                  InputState.vector := None |}).

Definition setInputState (state : option json) : M unit :=
  releaseAllKeys;;
  x ← prop state "left"; when (truthy_opt x) left;;
  x ← prop state "right"; when (truthy_opt x) right;;
  x ← prop state "up"; when (truthy_opt x) up;;
  x ← prop state "down"; when (truthy_opt x) down;;
  x ← prop state "action"; when (truthy_opt x) (pressKey KEYS.ENTER);;
  x ← prop state "cancel"; when (truthy_opt x) (pressKey KEYS.BACKSPACE).

(** ** Recording and playback *)

Definition _hookGameTick : M unit :=
  s ← this;
  if _tickHooked s then mret tt
  else
    h ← the_host;
    when (Vv_tick (game h))
      (update (set_tickHooked true);;
       say log "[TAS] Hooked into game tick" []).

Definition startRecording : M unit :=
  a ← alloc [];
  update (set_recording a);;
  update (set_isRecording true);;
  update (set_frameCount 0);;
  s ← this;
  when (negb (_tickHooked s)) _hookGameTick;;
  say log "[TAS] Recording started" [].

Definition stopRecording : M value :=
  update (set_isRecording false);;
  s ← this;
  n ← length_of (_recording s);
  say log "[TAS] Recording stopped. _ frames recorded." [n];;
  slice (_recording s).

Definition recordFrame : M unit :=
  s ← this;
  if negb (_isRecording s) then mret tt
  else
    state ← getInputState;
    match state with
    | Some state =>
        s ← this;
        push (_recording s)
          (frame_record (Z.of_nat (_frameCount s))
             (InputState.left state) (InputState.right state)
             (InputState.up state) (InputState.down state)
             (InputState.action state) (InputState.cancel state))
    | None => mret tt
    end;;
    s ← this;
    update (set_frameCount (S (_frameCount s))).

Definition startPlayback (sequence : value) : M unit :=
  s ← this;
  let sequence :=
    match sequence with VUndefined => _recording s | _ => sequence end in
  parsed ←
    match sequence with
    | VStr text =>
        try_catch (v ← JSON_parse text; mret (Some v))
                  (say error "[TAS] Failed to parse sequence:" [];; mret None)
    | _ => mret (Some sequence)
    end;
  match parsed with
  | None => mret tt
  | Some sequence =>
      (if is_array sequence then
         n ← length_of sequence;
         when (positive n) (update (set_recording sequence))
       else mret tt);;
      s ← this;
      nothing ←
        (if negb (to_boolean (_recording s)) then mret true
         else n ← length_of (_recording s); mret (is_zero n));
      if nothing : bool then say warn "[TAS] No sequence to play" []
      else
        s ← this;
        when (negb (_tickHooked s)) _hookGameTick;;
        update (set_playbackIndex 0);;
        update (set_isPlaying true);;
        update (set_isRecording false);;
        s ← this;
        n ← length_of (_recording s);
        say log "[TAS] Playback started. _ frames." [n]
  end.

Definition stopPlayback : M unit :=
  update (set_isPlaying false);;
  update (set_playbackIndex 0);;
  releaseAllKeys;;
  say log "[TAS] Playback stopped" [].

Definition playbackFrame : M bool :=
  s ← this;
  if negb (_isPlaying s) then mret false
  else
    n ← length_of (_recording s);
    finished ← counter_ge (_playbackIndex s) n;
    if finished : bool then stopPlayback;; mret false
    else
      state ← index (_recording s) (_playbackIndex s);
      setInputState state;;
      s ← this;
      update (set_playbackIndex (S (_playbackIndex s)));;
      mret true.

(** the function installed over [Vv.prototype.tick] by [_hookGameTick] *)
Definition tick (originalTick : Host -> Host) : M unit :=
  update_host originalTick;;
  s ← this;
  when (_isRecording s) recordFrame;;
  s ← this;
  when (_isPlaying s) (playbackFrame;; mret tt).

Definition isRecording : M bool := s ← this; mret (_isRecording s).
Definition isPlaying : M bool := s ← this; mret (_isPlaying s).

Definition getRecording : M value := s ← this; slice (_recording s).

Definition exportRecording : M value := s ← this; JSON_stringify (_recording s).

Definition importRecording (data : value) : M bool :=
  try_catch
    (go_on ←
       (if is_array data then update (set_recording data);; mret true
        else
          match data with
          | VStr text => v ← JSON_parse text; update (set_recording v);; mret true
          | _ => say error "[TAS] Invalid data type" [];; mret false
          end);
     if go_on : bool then
       s ← this;
       n ← length_of (_recording s);
       say log "[TAS] Imported _ frames" [n];;
       mret true
     else mret false)
    (say error "[TAS] Import failed:" [];; mret false).

(** ** Initialisation *)

(** [this._gameInstance], which this copy never reads, is not kept *)
Definition init (page : Page) : M bool :=
  if Wv page then
    update (set_inputManager true);;
    update (set_keyboardHandler true);;
    say log "[TAS] Initialized successfully" [];;
    mret true
  else
    say warn "[TAS] Could not find input manager. Try TAS.init() after game loads." [];;
    mret false.

Fixpoint tryInit (attempts : nat) (page : Page) : M (option Pending) :=
  ok ← init page;
  if ok : bool then
    _hookGameTick;;
    say log "[TAS] Ready! Commands: TAS.action(), TAS.tapAction(), TAS.left(), etc." [];;
    mret None
  else
    match attempts with
    | S n => mret (Some (pending 500 (tryInit n)))
    | O => mret None
    end.

(** the timer the script sets, at once when the document is complete and
    on the [load] event of the window otherwise *)
Definition on_load : Pending := pending 500 (tryInit 10).

End Dispatch.

(** * [src/tas.js], lines 442-1044: the earlier direct-state engine

    This copy has no tick hook: its [recordFrame] and [playbackFrame] are
    to be called by hand on every game tick. *)

Module Legacy.

Definition releaseAllKeys : M unit :=
  s ← this;
  if negb (_keyboardHandler s) then say warn "[TAS] Not initialized" []
  else update_host (set_Ob (fmap (fun _ => false))).

Definition startRecording : M unit :=
  a ← alloc [];
  update (set_recording a);;
  update (set_isRecording true);;
  update (set_frameCount 0);;
  say log "[TAS] Recording started" [].

Definition stopRecording : M value :=
  update (set_isRecording false);;
  s ← this;
  n ← length_of (_recording s);
  say log "[TAS] Recording stopped. _ frames recorded." [n];;
  slice (_recording s).

Definition startPlayback (sequence : value) : M unit :=
  nothing ←
    (if negb (to_boolean sequence) then mret true
     else n ← length_of sequence; mret (is_zero n));
  if nothing : bool then say warn "[TAS] No sequence to play" []
  else
    update (set_recording sequence);;
    update (set_playbackIndex 0);;
    update (set_isPlaying true);;
    n ← length_of sequence;
    say log "[TAS] Playback started. _ frames to play." [n].

Definition stopPlayback : M unit :=
  update (set_isPlaying false);;
  update (set_playbackIndex 0);;
  releaseAllKeys;;
  say log "[TAS] Playback stopped" [].

Definition isRecording : M bool := s ← this; mret (_isRecording s).
Definition isPlaying : M bool := s ← this; mret (_isPlaying s).

Definition getRecording : M value := s ← this; slice (_recording s).

Definition exportRecording : M value := s ← this; JSON_stringify (_recording s).

(** [JSON.parse] of a value that is not a string first converts it to one;
    that conversion is outside the model *)
Definition importRecording (json : value) : M unit :=
  try_catch
    (match json with
     | VStr text =>
         v ← JSON_parse text;
         update (set_recording v);;
         s ← this;
         n ← length_of (_recording s);
         say log "[TAS] Imported _ frames" [n]
     | _ => throw OutsideModel
     end)
    (say error "[TAS] Failed to import recording:" []).

Definition sequence : M Builder.t := Builder.sequence.

Definition play (b : Builder.t) : M value := Builder.play startPlayback b.

(** ** Direct input simulation *)

Definition pressKey (keyCode : N) : M unit :=
  s ← this;
  if negb (_keyboardHandler s) then say warn "[TAS] Not initialized" []
  else update_host (set_Ob (insert keyCode true)).

Definition releaseKey (keyCode : N) : M unit :=
  s ← this;
  if negb (_keyboardHandler s) then say warn "[TAS] Not initialized" []
  else update_host (set_Ob (insert keyCode false)).

(** this copy has no fallback table.  For a direction mapped to the empty
    array, [keyMappings[direction][0]] is [undefined] and [pressKey]
    writes the property ["undefined"] of [Ob], which the model does not
    hold. *)
Definition pressDirection (direction : N) : M unit :=
  s ← this;
  if negb (_keyboardHandler s) then say warn "[TAS] Not initialized" []
  else
    h ← the_host;
    match Ea (Jc (game h)) ≫= (fun keyMappings => keyMappings !! direction) with
    | Some (keyCode :: _) => pressKey keyCode
    | Some [] => throw OutsideModel
    | None => mret tt
    end.

Definition releaseDirection (direction : N) : M unit :=
  s ← this;
  if negb (_keyboardHandler s) then say warn "[TAS] Not initialized" []
  else
    h ← the_host;
    match Ea (Jc (game h)) ≫= (fun keyMappings => keyMappings !! direction) with
    | Some keys => for_each keys releaseKey
    | None => mret tt
    end.

(** ** Convenience methods *)

Definition left : M unit := pressDirection DIRECTION.LEFT.
Definition right : M unit := pressDirection DIRECTION.RIGHT.
Definition up : M unit := pressDirection DIRECTION.UP.
Definition down : M unit := pressDirection DIRECTION.DOWN.
Definition action : M unit := pressDirection DIRECTION.ACTION.
Definition cancel : M unit := pressDirection DIRECTION.CANCEL.

Definition releaseLeft : M unit := releaseDirection DIRECTION.LEFT.
Definition releaseRight : M unit := releaseDirection DIRECTION.RIGHT.
Definition releaseUp : M unit := releaseDirection DIRECTION.UP.
Definition releaseDown : M unit := releaseDirection DIRECTION.DOWN.
Definition releaseAction : M unit := releaseDirection DIRECTION.ACTION.
Definition releaseCancel : M unit := releaseDirection DIRECTION.CANCEL.

(** ** Input state *)

(** [x || false] *)
Definition or_false (x : option json) : json :=
  match x with
  | Some j => if truthy j then j else JBool false
  | None => JBool false
  end.

(** the object returned by this copy's [getInputState]: the slots as they
    are when truthy *)
Module State.
Record t : Type := {
  left : json; right : json; up : json; down : json;
  action : json; cancel : json;
  vector : option (json * json)
}.
End State.

(** [this._inputManager.tb[0]] throws when there is no [tb] *)
Definition getInputState : M (option State.t) :=
  s ← this;
  if negb (_inputManager s) then mret None
  else
    h ← the_host;
    match tb (Dk (game h)) with
    | None => throw TypeError
    | Some tb =>
        mret (Some {| State.left := or_false (tb !! 0%N);
                      State.right := or_false (tb !! 1%N);
                      State.up := or_false (tb !! 2%N);
                      State.down := or_false (tb !! 3%N);
                      State.action := or_false (tb !! 4%N);
                      State.cancel := or_false (tb !! 5%N);
                      State.vector := ha (Dk (game h)) |})
    end.

Definition setInputState (state : option json) : M unit :=
  releaseAllKeys;;
  x ← prop state "left"; when (truthy_opt x) left;;
  x ← prop state "right"; when (truthy_opt x) right;;
  x ← prop state "up"; when (truthy_opt x) up;;
  x ← prop state "down"; when (truthy_opt x) down;;
  x ← prop state "action"; when (truthy_opt x) action;;
  x ← prop state "cancel"; when (truthy_opt x) cancel.

(** ** Recording and playback by hand *)

Definition recordFrame : M unit :=
  s ← this;
  if negb (_isRecording s) then mret tt
  else
    state ← getInputState;
    match state with
    | Some state =>
        s ← this;
        push (_recording s)
          (JObj [(jstr "frame", JInt (Z.of_nat (_frameCount s)));
                 (jstr "left", State.left state);
                 (jstr "right", State.right state);
                 (jstr "up", State.up state);
                 (jstr "down", State.down state);
                 (jstr "action", State.action state);
                 (jstr "cancel", State.cancel state)])
    | None => mret tt
    end;;
    s ← this;
    update (set_frameCount (S (_frameCount s))).

Definition playbackFrame : M bool :=
  s ← this;
  if negb (_isPlaying s) then mret false
  else
    n ← length_of (_recording s);
    finished ← counter_ge (_playbackIndex s) n;
    if finished : bool then stopPlayback;; mret false
    else
      state ← index (_recording s) (_playbackIndex s);
      setInputState state;;
      s ← this;
      update (set_playbackIndex (S (_playbackIndex s)));;
      mret true.

Definition getFrameCount : M nat := s ← this; mret (_frameCount s).

Definition isGameReady : M bool :=
  s ← this; mret (_inputManager s && _keyboardHandler s).

End Legacy.

(** * [src/tas.js], lines 1046-1376: the service worker

    The worker answers the requests of the page from a cache.  The
    platform around it is not part of the program: the URL parser, the
    Cache API and [fetch] are parameters of the definitions below, and what
    is proved holds whatever they do.  The cache operations are taken to
    settle; that [caches.open] makes the cache when it is missing is not
    part of what is modelled. *)

Module ServiceWorker.

Definition CACHE_NAME : jstring := jstr "kitsune-offline-v4".

(** the resources to cache for offline play, lines 1049-1214 *)
Definition GAME_RESOURCES : list jstring :=
  jstr <$>
  ["./logos/2020/kitsune/rc7/kitsune20.html";
   "./logos/2020/kitsune/rc7/kitsune20.js";
   "./logos/2020/kitsune/rc7/kitsune_compiled_deferred_module.js";
   "./gstatic/externally_hosted/cannonjs/cannon.min.js";
   "./gstatic/externally_hosted/createjs/createjs-2015.11.26.min.js";
   "./gstatic/externally_hosted/expr_eval/dist/bundle.min.js";
   "./gstatic/externally_hosted/pixelmplus_font/PixelMplus10-Regular.ttf";
   "./logos/2020/kitsune/rc7/archery-sprite.png";
   "./logos/2020/kitsune/rc7/climbing-sprite.png";
   "./logos/2020/kitsune/rc7/cutscene-sprite.png";
   "./logos/2020/kitsune/rc7/marathon-sprite.png";
   "./logos/2020/kitsune/rc7/overworld-sprite.png";
   "./logos/2020/kitsune/rc7/pingpong-sprite.png";
   "./logos/2020/kitsune/rc7/rugby-sprite.png";
   "./logos/2020/kitsune/rc7/skate-sprite.png";
   "./logos/2020/kitsune/rc7/swim-sprite.png";
   "./logos/2020/kitsune/rc7/shared-sprite.png";
   "./logos/2020/kitsune/rc7/preload-sprite.png";
   "./logos/2020/kitsune/rc7/CTA-Archery-174787996-174787824.png";
   "./logos/2020/kitsune/rc7/CTA-Closing-174787829-192414335.png";
   "./logos/2020/kitsune/rc7/CTA-Marathon-174788017-174787794.png";
   "./logos/2020/kitsune/rc7/CTA-Opening-144867217-174787752-174787825-192413481.png";
   "./logos/2020/kitsune/rc7/CTA-Rugby-174787947-174787773.png";
   "./logos/2020/kitsune/rc7/CTA-Skateboarding-174787927.png";
   "./logos/2020/kitsune/rc7/CTA-Swimming-174787828-174787766.png";
   "./logos/2020/kitsune/rc7/CTA-TableTennis-174787827-174787820.png";
   "./logos/2020/kitsune/rc7/CTA_Climbing-174787997.png";
   "./logos/2020/kitsune/rc7/CTA-CenteredPlayButtonFrame1.png";
   "./logos/2020/kitsune/rc7/CTA-CenteredPlayButtonFrame2.png";
   "./logos/2020/kitsune/rc7/CTA-OffsetPlayButtonFrame1.png";
   "./logos/2020/kitsune/rc7/CTA-OffsetPlayButtonFrame2.png";
   "./logos/2020/kitsune/rc7/archery.mp3";
   "./logos/2020/kitsune/rc7/archery.ogg";
   "./logos/2020/kitsune/rc7/ballad.mp3";
   "./logos/2020/kitsune/rc7/ballad.ogg";
   "./logos/2020/kitsune/rc7/climbing.mp3";
   "./logos/2020/kitsune/rc7/climbing.ogg";
   "./logos/2020/kitsune/rc7/disco.mp3";
   "./logos/2020/kitsune/rc7/disco.ogg";
   "./logos/2020/kitsune/rc7/marathon.mp3";
   "./logos/2020/kitsune/rc7/marathon.ogg";
   "./logos/2020/kitsune/rc7/overworld.mp3";
   "./logos/2020/kitsune/rc7/overworld.ogg";
   "./logos/2020/kitsune/rc7/pingpong.mp3";
   "./logos/2020/kitsune/rc7/pingpong.ogg";
   "./logos/2020/kitsune/rc7/rock.mp3";
   "./logos/2020/kitsune/rc7/rock.ogg";
   "./logos/2020/kitsune/rc7/rugby.mp3";
   "./logos/2020/kitsune/rc7/rugby.ogg";
   "./logos/2020/kitsune/rc7/shared.mp3";
   "./logos/2020/kitsune/rc7/shared.ogg";
   "./logos/2020/kitsune/rc7/skate.mp3";
   "./logos/2020/kitsune/rc7/skate.ogg";
   "./logos/2020/kitsune/rc7/intro.mp4";
   "./logos/2020/kitsune/rc7/outro.mp4";
   "./logos/2020/kitsune/rc7/archeryintro.mp4";
   "./logos/2020/kitsune/rc7/archeryoutro.mp4";
   "./logos/2020/kitsune/rc7/climbingintro.mp4";
   "./logos/2020/kitsune/rc7/climbingoutro.mp4";
   "./logos/2020/kitsune/rc7/marathonintro.mp4";
   "./logos/2020/kitsune/rc7/marathonoutro.mp4";
   "./logos/2020/kitsune/rc7/pingpongintro.mp4";
   "./logos/2020/kitsune/rc7/pingpongoutro.mp4";
   "./logos/2020/kitsune/rc7/rugbyintro.mp4";
   "./logos/2020/kitsune/rc7/rugbyoutro.mp4";
   "./logos/2020/kitsune/rc7/skateintro.mp4";
   "./logos/2020/kitsune/rc7/skateoutro.mp4";
   "./logos/2020/kitsune/rc7/swimintro.mp4";
   "./logos/2020/kitsune/rc7/swimoutro.mp4";
   "./logos/2020/kitsune/rc7/messages.af.nocache.json";
   "./logos/2020/kitsune/rc7/messages.am.nocache.json";
   "./logos/2020/kitsune/rc7/messages.ar.nocache.json";
   "./logos/2020/kitsune/rc7/messages.az.nocache.json";
   "./logos/2020/kitsune/rc7/messages.be.nocache.json";
   "./logos/2020/kitsune/rc7/messages.bg.nocache.json";
   "./logos/2020/kitsune/rc7/messages.bn.nocache.json";
   "./logos/2020/kitsune/rc7/messages.bs.nocache.json";
   "./logos/2020/kitsune/rc7/messages.ca.nocache.json";
   "./logos/2020/kitsune/rc7/messages.cs.nocache.json";
   "./logos/2020/kitsune/rc7/messages.da.nocache.json";
   "./logos/2020/kitsune/rc7/messages.de.nocache.json";
   "./logos/2020/kitsune/rc7/messages.el.nocache.json";
   "./logos/2020/kitsune/rc7/messages.en.nocache.json";
   "./logos/2020/kitsune/rc7/messages.en-GB.nocache.json";
   "./logos/2020/kitsune/rc7/messages.es.nocache.json";
   "./logos/2020/kitsune/rc7/messages.es-419.nocache.json";
   "./logos/2020/kitsune/rc7/messages.et.nocache.json";
   "./logos/2020/kitsune/rc7/messages.eu.nocache.json";
   "./logos/2020/kitsune/rc7/messages.fa.nocache.json";
   "./logos/2020/kitsune/rc7/messages.fi.nocache.json";
   "./logos/2020/kitsune/rc7/messages.fr.nocache.json";
   "./logos/2020/kitsune/rc7/messages.gl.nocache.json";
   "./logos/2020/kitsune/rc7/messages.gu.nocache.json";
   "./logos/2020/kitsune/rc7/messages.hi.nocache.json";
   "./logos/2020/kitsune/rc7/messages.hr.nocache.json";
   "./logos/2020/kitsune/rc7/messages.hu.nocache.json";
   "./logos/2020/kitsune/rc7/messages.hy.nocache.json";
   "./logos/2020/kitsune/rc7/messages.id.nocache.json";
   "./logos/2020/kitsune/rc7/messages.is.nocache.json";
   "./logos/2020/kitsune/rc7/messages.it.nocache.json";
   "./logos/2020/kitsune/rc7/messages.iw.nocache.json";
   "./logos/2020/kitsune/rc7/messages.ja.nocache.json";
   "./logos/2020/kitsune/rc7/messages.ka.nocache.json";
   "./logos/2020/kitsune/rc7/messages.kk.nocache.json";
   "./logos/2020/kitsune/rc7/messages.km.nocache.json";
   "./logos/2020/kitsune/rc7/messages.kn.nocache.json";
   "./logos/2020/kitsune/rc7/messages.ko.nocache.json";
   "./logos/2020/kitsune/rc7/messages.ky.nocache.json";
   "./logos/2020/kitsune/rc7/messages.lo.nocache.json";
   "./logos/2020/kitsune/rc7/messages.lt.nocache.json";
   "./logos/2020/kitsune/rc7/messages.lv.nocache.json";
   "./logos/2020/kitsune/rc7/messages.mk.nocache.json";
   "./logos/2020/kitsune/rc7/messages.ml.nocache.json";
   "./logos/2020/kitsune/rc7/messages.mn.nocache.json";
   "./logos/2020/kitsune/rc7/messages.mr.nocache.json";
   "./logos/2020/kitsune/rc7/messages.ms.nocache.json";
   "./logos/2020/kitsune/rc7/messages.my.nocache.json";
   "./logos/2020/kitsune/rc7/messages.ne.nocache.json";
   "./logos/2020/kitsune/rc7/messages.nl.nocache.json";
   "./logos/2020/kitsune/rc7/messages.no.nocache.json";
   "./logos/2020/kitsune/rc7/messages.pa.nocache.json";
   "./logos/2020/kitsune/rc7/messages.pl.nocache.json";
   "./logos/2020/kitsune/rc7/messages.pt-BR.nocache.json";
   "./logos/2020/kitsune/rc7/messages.pt-PT.nocache.json";
   "./logos/2020/kitsune/rc7/messages.ro.nocache.json";
   "./logos/2020/kitsune/rc7/messages.ru.nocache.json";
   "./logos/2020/kitsune/rc7/messages.si.nocache.json";
   "./logos/2020/kitsune/rc7/messages.sk.nocache.json";
   "./logos/2020/kitsune/rc7/messages.sl.nocache.json";
   "./logos/2020/kitsune/rc7/messages.sq.nocache.json";
   "./logos/2020/kitsune/rc7/messages.sr.nocache.json";
   "./logos/2020/kitsune/rc7/messages.sv.nocache.json";
   "./logos/2020/kitsune/rc7/messages.sw.nocache.json";
   "./logos/2020/kitsune/rc7/messages.ta.nocache.json";
   "./logos/2020/kitsune/rc7/messages.te.nocache.json";
   "./logos/2020/kitsune/rc7/messages.th.nocache.json";
   "./logos/2020/kitsune/rc7/messages.tr.nocache.json";
   "./logos/2020/kitsune/rc7/messages.uk.nocache.json";
   "./logos/2020/kitsune/rc7/messages.ur.nocache.json";
   "./logos/2020/kitsune/rc7/messages.uz.nocache.json";
   "./logos/2020/kitsune/rc7/messages.vi.nocache.json";
   "./logos/2020/kitsune/rc7/messages.zh-CN.nocache.json";
   "./logos/2020/kitsune/rc7/messages.zh-HK.nocache.json";
   "./logos/2020/kitsune/rc7/messages.zh-TW.nocache.json";
   "./logos/2020/kitsune/rc7/messages.zu.nocache.json";
   "./silica/config.html";
   "./silica/run.html";
   "./silica/icon.png";
   "./index.html"]%string.

(** ** The string operations used *)

(** [s.startsWith(p)] *)
Fixpoint startsWith (p s : jstring) : bool :=
  match p, s with
  | [], _ => true
  | c :: p', d :: s' => (c =? d)%N && startsWith p' s'
  | _ :: _, [] => false
  end.

(** [s.endsWith(p)] *)
Definition endsWith (p s : jstring) : bool :=
  (length p <=? length s) && startsWith p (drop (length s - length p) s).

(** [s.replace(pattern, replacement)] for a string [pattern]: the first
    occurrence is replaced.  The replacement of the program holds no [$]. *)
Fixpoint replace (pattern replacement s : jstring) {struct s} : jstring :=
  if startsWith pattern s then replacement ++ drop (length pattern) s
  else
    match s with
    | [] => []
    | c :: r => c :: replace pattern replacement r
    end.

(** [s.replace(/^\//, '')] *)
Definition without_leading_slash (s : jstring) : jstring :=
  match s with
  | c :: r => if (c =? 47)%N then r else s
  | [] => []
  end.

(** the code units that [.] does not match *)
Definition is_line_terminator (c : N) : bool :=
  (c =? 10)%N || (c =? 13)%N || (c =? 8232)%N || (c =? 8233)%N.

(** what follows the longest match of [/^.*\//]: the text after the last
    slash that only code units matched by [.] come before *)
Fixpoint after_last_slash (s : jstring) : option jstring :=
  match s with
  | [] => None
  | c :: r =>
      if is_line_terminator c then None
      else
        match after_last_slash r with
        | Some t => Some t
        | None => if (c =? 47)%N then Some r else None
        end
  end.

(** [s.replace(/^.*\//, '')] *)
Definition file_name (s : jstring) : jstring := default s (after_last_slash s).

(** ** Mapping [gstatic.com] URLs to local paths *)

Definition gstaticPrefix : jstring :=
  jstr "https://www.gstatic.com/external_hosted/".

Definition mapGstaticToLocal (url : jstring) : option jstring :=
  if startsWith gstaticPrefix url then
    Some (replace gstaticPrefix (jstr "/gstatic/externally_hosted/") url)
  else None.

(** ** Requests and responses *)

Record Request : Type := {
  method : jstring;
  url : jstring
}.

Record Response : Type := {
  status : N;
  statusText : jstring;
  body : jstring
}.

(** [response.ok] *)
Definition ok (response : Response) : bool :=
  (200 <=? status response)%N && (status response <=? 299)%N.

(** ** The [fetch] listener *)

Section Fetch.
(** [new URL(u).pathname] *)
Variable pathname : jstring -> jstring.
(** [caches.match(request)] *)
Variable caches_match : Request -> option Response.
(** [cache.keys()] and [cache.match(key)] of the cache [CACHE_NAME] *)
Variable cache_keys : list Request.
Variable cache_match : Request -> option Response.
(** [fetch(request)]; [None] when it is rejected *)
Variable fetch : Request -> option Response.

(** the test of the first [keys.find], for the local path of a
    [gstatic.com] request *)
Definition matches_local (localPath : jstring) (key : Request) : bool :=
  let keyUrl := pathname (url key) in
  bool_decide (keyUrl = localPath) ||
  endsWith (without_leading_slash localPath) keyUrl.

(** the test of the second [keys.find], for the path of the request *)
Definition matches_pathname (path : jstring) (key : Request) : bool :=
  let keyUrl := pathname (url key) in
  bool_decide (keyUrl = path) ||
  endsWith (without_leading_slash path) keyUrl ||
  endsWith (file_name keyUrl) path.

Definition offline : Response :=
  {| status := 503; statusText := jstr "Service Unavailable";
     body := jstr "Offline - resource not cached" |}.

(** what the promise given to [event.respondWith] resolves to; [None] is
    [undefined] *)
Definition respond (request : Request) : option Response :=
  match caches_match request with
  | Some cachedResponse => Some cachedResponse
  | None =>
      let matchingKey :=
        match mapGstaticToLocal (url request) with
        | Some (c :: localPath) =>
            List.find (matches_local (c :: localPath)) cache_keys
        | _ => None
        end in
      match matchingKey with
      | Some key => cache_match key
      | None =>
          match List.find (matches_pathname (pathname (url request))) cache_keys with
          | Some key => cache_match key
          | None =>
              match fetch request with
              | Some response => Some response
              | None => Some offline
              end
          end
      end
  end.

End Fetch.

(** ** Caching the resources *)

(** the messages posted to the page *)
Inductive Message : Type :=
| cache_progress (cached failed total : nat)
| cache_complete (cached failed total : nat)
| cache_status (cached total : nat) (isCached : bool).


Section CacheResources.
(** [fetch(resource)]; [None] when it is rejected *)
Variable fetch : jstring -> option Response.
(** whether [cache.put(resource, response)] is rejected *)
Variable put_rejected : jstring -> Response -> bool.





End CacheResources.

(** ** The cache status *)

(** a length as a number of JavaScript, a binary64 float; lengths are
    below 2^32 *)
Definition number (n : nat) : PrimFloat.float :=
  PrimFloat.of_uint63 (Uint63.of_Z (Z.of_nat n)).

(** the literal [0.9]: the float nearest to 9/10 *)
Definition nine_tenths : PrimFloat.float :=
  PrimFloat.div (number 9) (number 10).

(** [keys_length] is [keys.length], and [None] when opening the cache or
    listing its keys is rejected *)
Definition getCacheStatus (keys_length : option nat) : Message :=
  let total := length GAME_RESOURCES in
  match keys_length with
  | Some cached =>
      cache_status cached total
        (PrimFloat.leb (PrimFloat.mul (number total) nine_tenths) (number cached))
  | None => cache_status 0 total false
  end.

End ServiceWorker.

(** * Vocabulary of the properties *)

(** the game runs the hooked tick once per frame; [fs] lists what the
    game's own tick does to its objects on each of them *)
Fixpoint observe (tick : (Host -> Host) -> M unit) (fs : list (Host -> Host))
  : M unit :=
  match fs with
  | [] => mret tt
  | f :: r => tick f;; observe tick r
  end.

(** the TAS object as the source text creates it, next to a host *)
Definition fresh_session : Session :=
  {| _inputManager := false; _keyboardHandler := false; _recording := VArr 0;
     _isRecording := false; _isPlaying := false; _playbackIndex := 0;
     _frameCount := 0; _tickHooked := false |}.

Definition page_load (h : Host) : World :=
  {| tas := fresh_session; store := [[]]; host := h; console := [] |}.

(** [TAS.init()] succeeded: both references are set *)
Definition bound_session : Session :=
  {| _inputManager := true; _keyboardHandler := true; _recording := VArr 0;
     _isRecording := false; _isPlaying := false; _playbackIndex := 0;
     _frameCount := 0; _tickHooked := false |}.

Definition game_ready (h : Host) : World :=
  {| tas := bound_session; store := [[]]; host := h; console := [] |}.

(** a page on which no key listener is registered and no event was
    dispatched *)
Definition without_listeners (g : Game) : Host :=
  {| game := g; listeners := fun _ g => g; dispatched := [] |}.

(** a host with nothing pressed and the game's tick in place *)
Definition quiet_host : Host :=
  without_listeners
    {| Dk := {| tb := Some ∅; ha := None |};
       Jc := {| Ob := ∅; Ea := None |};
       Vv_tick := true |}.

(** a world with one stored array [xs] at address 1, next to the empty
    array the TAS object starts with *)
Definition with_sequence (t : Session) (h : Host) (xs : list json) : World :=
  {| tas := t; store := [[]; xs]; host := h; console := [] |}.

(** every part of the world but the console is the same *)
Definition same_state (w w' : World) : Prop :=
  tas w' = tas w /\ store w' = store w /\ host w' = host w.

(** the call wrote exactly one line to the console, at level [l] *)
Definition reported (l : Level) (w w' : World) : Prop :=
  exists t a, console w' = console w ++ [{| level := l; text := t; args := a |}].

Definition idle (s : Session) : Prop :=
  _isRecording s = false /\ _isPlaying s = false.

(** an element that [setInputState] can read a field of *)
Definition playable (j : json) : Prop := j <> JNull.

(** every key of the pressed-key map is up *)
Definition all_released (h : Host) : Prop :=
  forall k b, Ob (Jc h) !! k = Some b -> b = false.

(** the last events dispatched are the [keyup]s of [releaseAllKeys] *)
Definition released_by_events (h : Host) : Prop :=
  exists before, dispatched h = before ++ (keyup <$> Dispatch.KEYS.all).

(** *** Playback exhaustion *)

(** how the session moves while [xs] is played to its end, for an engine
    whose [released w h] says that the keys are up in host [h] *)
Definition ends_after_one_more_tick
    (startPlayback : value -> M unit) (tick : (Host -> Host) -> M unit)
    (released : World -> Host -> Prop) : Prop :=
  forall (w : World) (l : loc) (xs : list json),
    store w !! l = Some xs -> xs <> [] -> Forall playable xs ->
    exists w0,
      startPlayback (VArr l) w = (Normal tt, w0) /\
      forall fs : list (Host -> Host),
        length fs <= S (length xs) ->
        exists w',
          observe tick fs w0 = (Normal tt, w') /\
          (length fs <= length xs ->
             _isPlaying (tas w') = true /\ _playbackIndex (tas w') = length fs) /\
          (length fs = S (length xs) ->
             idle (tas w') /\ _playbackIndex (tas w') = 0 /\ released w (host w')).

(** *** Recording *)

(** the record at position [i] is an object whose [frame] is [i] *)
Definition frames_count_up (xs : list json) : Prop :=
  forall i, i < length xs ->
    exists fields,
      xs !! i = Some (JObj fields) /\
      assoc (jstr "frame") fields = Some (JInt (Z.of_nat i)).

Definition records_every_tick
    (startRecording : M unit) (tick : (Host -> Host) -> M unit)
    (stopRecording : M value) : Prop :=
  forall (w : World) (fs : list (Host -> Host)),
    _inputManager (tas w) = true ->
    exists l w' xs,
      (startRecording;; observe tick fs;; stopRecording) w = (Normal (VArr l), w') /\
      store w' !! l = Some xs /\
      length xs = length fs /\
      frames_count_up xs.

(** the keys of a record, in order *)
Definition keys (j : json) : list jstring :=
  match j with JObj f => f.*1 | _ => [] end.

(** the record [recordFrame] of [part_000] pushes *)
Definition flagged_record (frame : Z) (left right up down action cancel : bool)
  : json :=
  JObj [(jstr "frame", JInt frame); (jstr "left", JBool left);
        (jstr "right", JBool right); (jstr "up", JBool up);
        (jstr "down", JBool down); (jstr "action", JBool action);
        (jstr "cancel", JBool cancel);
        (jstr "hasInput", JBool (left || right || up || down || action || cancel))].

(** [recordFrame] appends [record frame l r u d a c] for the frame counter
    and some six booleans *)
Definition recordFrame_pushes
    (recordFrame : M unit)
    (record : Z -> bool -> bool -> bool -> bool -> bool -> bool -> json) : Prop :=
  forall (w : World) (l : loc) (xs : list json),
    _isRecording (tas w) = true -> _inputManager (tas w) = true ->
    _recording (tas w) = VArr l -> store w !! l = Some xs ->
    exists w' left right up down action cancel,
      recordFrame w = (Normal tt, w') /\
      store w' !! l =
        Some (xs ++ [record (Z.of_nat (_frameCount (tas w)))
                       left right up down action cancel]).

(** *** The codec *)

Definition is_frame_record (j : json) : Prop :=
  exists frame left right up down action cancel,
    j = frame_record frame left right up down action cancel.

Definition export_import_restores
    (exportRecording : M value) (importRecording : value -> M bool) : Prop :=
  forall (w : World) (l : loc) (xs : list json),
    Forall is_frame_record xs ->
    _recording (tas w) = VArr l -> store w !! l = Some xs ->
    exists text,
      exportRecording w = (Normal (VStr text), w) /\
      JSON.parse text = Some (JArr xs) /\
      forall w1 : World,
        exists l' w2,
          importRecording (VStr text) w1 = (Normal true, w2) /\
          _recording (tas w2) = VArr l' /\
          store w2 !! l' = Some xs.

(** *** Empty playback *)


(** *** Decoding failures *)

Definition syntax_errors_leave_state
    (startPlayback : value -> M unit) (importRecording : value -> M bool) : Prop :=
  forall (w : World) (text : jstring),
    JSON.parse text = None ->
    (exists w',
       startPlayback (VStr text) w = (Normal tt, w') /\
       same_state w w' /\ reported error w w') /\
    (exists w',
       importRecording (VStr text) w = (Normal false, w') /\
       same_state w w' /\ reported error w w').

(** Following the spec's words: a text decodes as a sequence when it is
    the JSON text of an array. *)
Definition decodes_as_sequence (text : jstring) : Prop :=
  exists xs, JSON.parse text = Some (JArr xs).

(** *** Starting playback of a sequence *)

Definition playback_replaces_recording
    (startPlayback : value -> M unit) (getRecording exportRecording : M value)
  : Prop :=
  forall (w : World) (l : loc) (xs : list json),
    store w !! l = Some xs -> xs <> [] ->
    exists w0,
      startPlayback (VArr l) w = (Normal tt, w0) /\
      _recording (tas w0) = VArr l /\ store w0 = store w /\
      (exists l' w1,
         getRecording w0 = (Normal (VArr l'), w1) /\ store w1 !! l' = Some xs) /\
      exportRecording w0 = (Normal (VStr (JSON.stringify (JArr xs))), w0).

Definition playback_stops_recording (startPlayback : value -> M unit) : Prop :=
  forall (w : World) (l : loc) (xs : list json),
    _isRecording (tas w) = true ->
    store w !! l = Some xs -> xs <> [] ->
    exists w0,
      startPlayback (VArr l) w = (Normal tt, w0) /\
      _isPlaying (tas w0) = true /\ _isRecording (tas w0) = false.

(** *** The input adapter *)

(** the keys that stand for a direction: those [releaseDirection] releases *)
Definition keys_of (h : Host) (direction : N) : list N :=
  match Ea (Jc h) ≫= (fun keyMappings => keyMappings !! direction) with
  | Some (keyCode :: keys) => keyCode :: keys
  | _ => default [] (Direct.fallbackKeys direction)
  end.

(** a direction is asserted when one of its keys is down *)
Definition flag (h : Host) (direction : N) : bool :=
  existsb (fun k => bool_decide (Ob (Jc h) !! k = Some true)) (keys_of h direction).

(** an input vector: six named booleans *)
Definition input_vector (left right up down action cancel : bool) : json :=
  JObj [(jstr "left", JBool left); (jstr "right", JBool right);
        (jstr "up", JBool up); (jstr "down", JBool down);
        (jstr "action", JBool action); (jstr "cancel", JBool cancel)].

(** the key [pressDirection] presses *)
Definition key_pressed_for (h : Host) (direction : N) : list N :=
  match Ea (Jc h) ≫= (fun keyMappings => keyMappings !! direction) with
  | Some (keyCode :: _) => [keyCode]
  | _ => match Direct.fallbackKey direction with Some k => [k] | None => [] end
  end.

(** the keys [setInputState] presses for a vector *)
Definition keys_pressed (h : Host) (left right up down action cancel : bool)
  : list N :=
  (if left then key_pressed_for h DIRECTION.LEFT else []) ++
  (if right then key_pressed_for h DIRECTION.RIGHT else []) ++
  (if up then key_pressed_for h DIRECTION.UP else []) ++
  (if down then key_pressed_for h DIRECTION.DOWN else []) ++
  (if action then [13%N] else []) ++
  (if cancel then key_pressed_for h DIRECTION.CANCEL else []).

(** distinct directions have disjoint keys, and Enter is an action key *)
Definition key_map_separates (h : Host) : Prop :=
  13%N ∈ keys_of h DIRECTION.ACTION /\
  forall d d' k, (d < 6)%N -> (d' < 6)%N ->
    k ∈ keys_of h d -> k ∈ keys_of h d' -> d = d'.

(** *** The builder *)

Inductive BuilderCall : Type :=
| call_hold (direction : N) (frames : Z)
| call_wait (frames : Z)
| call_left (frames : option Z)
| call_right (frames : option Z)
| call_up (frames : option Z)
| call_down (frames : option Z)
| call_action (frames : option Z)
| call_cancel (frames : option Z).

Definition call (c : BuilderCall) : Builder.t -> M Builder.t :=
  match c with
  | call_hold d n => Builder.hold d n
  | call_wait n => Builder.wait n
  | call_left n => Builder.left n
  | call_right n => Builder.right n
  | call_up n => Builder.up n
  | call_down n => Builder.down n
  | call_action n => Builder.action n
  | call_cancel n => Builder.cancel n
  end.

(** the frame a [hold] of [direction] makes *)
Definition held (direction : N) (frame : nat) : json :=
  frame_record (Z.of_nat frame)
    (direction =? DIRECTION.LEFT)%N (direction =? DIRECTION.RIGHT)%N
    (direction =? DIRECTION.UP)%N (direction =? DIRECTION.DOWN)%N
    (direction =? DIRECTION.ACTION)%N (direction =? DIRECTION.CANCEL)%N.

Definition waited (frame : nat) : json :=
  frame_record (Z.of_nat frame) false false false false false false.

(** the frames a call appends, from frame number [start] *)
Definition appended (c : BuilderCall) (start : nat) : list json :=
  match c with
  | call_hold d n => held d <$> seq start (Z.to_nat n)
  | call_wait n => waited <$> seq start (Z.to_nat n)
  | call_left n => held DIRECTION.LEFT <$> seq start (Z.to_nat (Builder.or_one n))
  | call_right n => held DIRECTION.RIGHT <$> seq start (Z.to_nat (Builder.or_one n))
  | call_up n => held DIRECTION.UP <$> seq start (Z.to_nat (Builder.or_one n))
  | call_down n => held DIRECTION.DOWN <$> seq start (Z.to_nat (Builder.or_one n))
  | call_action n => held DIRECTION.ACTION <$> seq start (Z.to_nat (Builder.or_one n))
  | call_cancel n => held DIRECTION.CANCEL <$> seq start (Z.to_nat (Builder.or_one n))
  end.

(** what a successful [startPlayback] leaves *)
Definition playing_from (w : World) (l : loc) (w0 : World) : Prop :=
  _recording (tas w0) = VArr l /\ _isPlaying (tas w0) = true /\
  _isRecording (tas w0) = false /\ _playbackIndex (tas w0) = 0 /\
  _inputManager (tas w0) = _inputManager (tas w) /\
  _keyboardHandler (tas w0) = _keyboardHandler (tas w) /\
  _frameCount (tas w0) = _frameCount (tas w) /\
  store w0 = store w /\ host w0 = host w.


(** *** Effects on the host *)

Definition set_host (h : Host) (w : World) : World :=
  {| tas := tas w; store := store w; host := h; console := console w |}.

(** the keys [ks] pressed, one after the other *)
Definition press (ks : list N) (ob : gmap N bool) : gmap N bool :=
  foldl (fun m k => <[k := true]> m) ob ks.

(** the truth value [setInputState] finds under key [k] of a frame *)
Definition reads (j : json) (k : string) : bool :=
  match j with
  | JObj f => truthy_opt (assoc (jstr k) f)
  | _ => false
  end.

(** a call that returns, and leaves the TAS object and the store alone *)
Definition touches_host_only (m : M unit) : Prop :=
  forall w, exists w', m w = (Normal tt, w') /\ tas w' = tas w /\ store w' = store w.

(** the fields of the TAS object that playback does not assign *)
Definition same_recorder (s s' : Session) : Prop :=
  _inputManager s' = _inputManager s /\
  _keyboardHandler s' = _keyboardHandler s /\
  _recording s' = _recording s /\
  _isRecording s' = _isRecording s /\
  _frameCount s' = _frameCount s /\
  _tickHooked s' = _tickHooked s.

(** what one [playbackFrame] does when the recording is the array [xs] *)
Definition playback_step (released : World -> Host -> Prop) (xs : list json)
    (w : World) (b : bool) (w' : World) : Prop :=
  store w' = store w /\ same_recorder (tas w) (tas w') /\
  if _isPlaying (tas w) then
    if length xs <=? _playbackIndex (tas w) then
      b = false /\ _isPlaying (tas w') = false /\ _playbackIndex (tas w') = 0 /\
      released w (host w')
    else
      b = true /\ _isPlaying (tas w') = true /\
      _playbackIndex (tas w') = S (_playbackIndex (tas w))
  else b = false /\ w' = w.

Definition Direct_released (w : World) (h : Host) : Prop :=
  _keyboardHandler (tas w) = true -> all_released h.

Definition Dispatch_released (w : World) (h : Host) : Prop :=
  released_by_events h.

(** while [xs], stored at [l], is being played and [i] frames are done *)
Definition playing_at (l : loc) (w0 : World) (i : nat) (w : World) : Prop :=
  store w = store w0 /\ _recording (tas w) = VArr l /\
  _isRecording (tas w) = false /\ _isPlaying (tas w) = true /\
  _playbackIndex (tas w) = i /\
  _keyboardHandler (tas w) = _keyboardHandler (tas w0).

(** *** Recording *)

(** what [getInputState] reads in direction slot [i] *)
Definition slot (h : Host) (i : N) : bool :=
  truthy_opt (default ∅ (tb (Dk h)) !! i).

(** one [recordFrame] with the input manager bound: one record, whose
    [frame] is the frame counter, and the counter goes up *)
Definition record_step (recordFrame : M unit) : Prop :=
  forall (w : World) (l : loc) (xs : list json),
    _isRecording (tas w) = true -> _inputManager (tas w) = true ->
    _recording (tas w) = VArr l -> store w !! l = Some xs ->
    exists w' fields,
      recordFrame w = (Normal tt, w') /\
      store w' = <[l := xs ++ [JObj fields]]> (store w) /\
      tas w' = set_frameCount (S (_frameCount (tas w))) (tas w) /\
      assoc (jstr "frame") fields = Some (JInt (Z.of_nat (_frameCount (tas w)))).

(** while recording into the array at [l], [n] ticks in *)
Definition recording_at (l : loc) (n : nat) (w : World) : Prop :=
  _isRecording (tas w) = true /\ _inputManager (tas w) = true /\
  _recording (tas w) = VArr l /\ _frameCount (tas w) = n /\
  exists xs,
    store w !! l = Some xs /\ length xs = n /\
    frames_count_up xs /\ Forall playable xs.

(** after [startPlayback], no observed tick finds the session recording *)
Definition playback_excludes_recording
    (startPlayback : value -> M unit) (tick : (Host -> Host) -> M unit) : Prop :=
  forall (w : World) (l : loc) (xs : list json) (fs : list (Host -> Host)),
    store w !! l = Some xs -> xs <> [] -> Forall playable xs ->
    exists w0 w',
      startPlayback (VArr l) w = (Normal tt, w0) /\
      observe tick fs w0 = (Normal tt, w') /\
      _isRecording (tas w') = false.

(** *** Applying a vector *)

(** the flag of a vector for a direction slot *)
Definition flag_of (left right up down action cancel : bool) (direction : N)
  : bool :=
  match direction with
  | 0 => left | 1 => right | 2 => up | 3 => down | 4 => action | 5 => cancel
  | _ => false
  end%N.

(** the pressed-key map [setInputState] leaves for the keys [ks] *)
Definition applied (ks : list N) (ob : gmap N bool) : gmap N bool :=
  press ks ((fun _ => false) <$> ob).

Definition applies_exactly (setInputState : option json -> M unit) : Prop :=
  forall (w : World) (left right up down action cancel : bool),
    _keyboardHandler (tas w) = true ->
    exists w',
      setInputState (Some (input_vector left right up down action cancel)) w
        = (Normal tt, w') /\
      tas w' = tas w /\ store w' = store w /\
      (forall k, Ob (Jc (host w')) !! k = Some true <->
                 k ∈ keys_pressed (host w) left right up down action cancel) /\
      (key_map_separates (host w) ->
       forall d, (d < 6)%N ->
         flag (host w') d = flag_of left right up down action cancel d).

Definition applying_twice_is_applying_once
    (setInputState : option json -> M unit) : Prop :=
  forall (w : World) (left right up down action cancel : bool),
    let v := Some (input_vector left right up down action cancel) in
    exists w1 w2,
      setInputState v w = (Normal tt, w1) /\
      setInputState v w1 = (Normal tt, w2) /\
      host w2 = host w1.

(** a call that, without a keyboard handler, only writes to the console *)
Definition warns_only (m : M unit) : Prop :=
  forall w, _keyboardHandler (tas w) = false ->
    exists w', m w = (Normal tt, w') /\ tas w' = tas w /\ host w' = host w.

(** *** Texts that the codec restores *)

(** a code unit that [JSON.stringify] writes as it is *)
Definition plain_char (c : N) : bool :=
  (32 <=? c)%N && (c <? 55296)%N && negb (c =? 34)%N && negb (c =? 92)%N.

(** a key made of such code units that is not an array index *)
Definition plain_key (k : jstring) : bool :=
  forallb plain_char k &&
  match JSON.array_index k with Some _ => false | None => true end.

(** [null], a boolean or an integer *)
Definition scalar (j : json) : bool :=
  match j with
  | JNull | JBool _ | JNum _ O => true
  | _ => false
  end.

(** an object with distinct plain keys and scalar values *)
Definition flat_record (j : json) : Prop :=
  match j with
  | JObj f =>
      NoDup f.*1 /\
      Forall (fun kv : jstring * json => plain_key kv.1 = true /\ scalar kv.2 = true) f
  | _ => False
  end.

(** the text goes on with a comma or a closing bracket *)
Definition delimited (rest : jstring) : Prop :=
  exists c r, rest = c :: r /\ (c = 44 \/ c = 93 \/ c = 125)%N.

(** *** Sample inputs *)

(** frame 0 with [left] held *)
Definition left_frame : json := held DIRECTION.LEFT 0.

(** the game is ready and the caller holds the one-frame sequence
    [[left_frame]] at address 1 *)
Definition one_frame_world : World :=
  with_sequence bound_session quiet_host [left_frame].

(** the same, with that sequence as the stored recording *)
Definition stored_world : World :=
  with_sequence (set_recording (VArr 1) bound_session) quiet_host [left_frame].

(** a host whose Left key (37) is down *)
Definition left_down_host : Host :=
  without_listeners
    {| Dk := {| tb := Some ∅; ha := None |};
       Jc := {| Ob := {[ 37%N := true ]}; Ea := None |};
       Vv_tick := true |}.

(** a host whose key map gives Space (32) alone to the action slot *)
Definition space_only_host : Host :=
  without_listeners
    {| Dk := {| tb := Some ∅; ha := None |};
       Jc := {| Ob := ∅; Ea := Some {[ 4%N := [32%N] ]} |};
       Vv_tick := true |}.

Definition no_input : json := input_vector false false false false false false.

Definition frame_keys : list jstring :=
  jstr <$> ["frame"; "left"; "right"; "up"; "down"; "action"; "cancel"]%string.

(** *** The parser and its bound *)

(** a parser that consumes at least one code unit *)
Definition shrinks {A} (pv : jstring -> option (A * jstring)) : Prop :=
  forall s v r, pv s = Some (v, r) -> length r < length s.

(** two parsers that agree on the texts of length at most [L] *)
Definition agree {A} (L : nat) (pv1 pv2 : jstring -> option (A * jstring)) : Prop :=
  forall s, length s <= L -> pv1 s = pv2 s.

(** *** Playback by hand *)

(** the results of [n] calls of [m], one after the other *)
Fixpoint calls {A} (m : M A) (n : nat) : M (list A) :=
  match n with
  | O => mret []
  | S n' => a ← m; r ← calls m n'; mret (a :: r)
  end.

(** the key map of the host has no direction with an empty array of keys *)
Definition no_empty_mapping (h : Host) : Prop :=
  forall keyMappings direction,
    Ea (Jc h) = Some keyMappings -> keyMappings !! direction <> Some [].

(** after [startPlayback(S)], [playbackFrame()] returns [true] once for
    every frame of [S] and [false] from then on; the session stops
    playing with the first [false] *)
Definition plays_by_hand (startPlayback : value -> M unit) (playbackFrame : M bool)
    (fit : World -> Prop) : Prop :=
  forall (w : World) (l : loc) (xs : list json) (n : nat),
    store w !! l = Some xs -> xs <> [] -> Forall playable xs -> fit w ->
    exists w',
      (startPlayback (VArr l);; calls playbackFrame n) w
        = (Normal (replicate (n `min` length xs) true ++
                   replicate (n - length xs) false), w') /\
      _isPlaying (tas w') = bool_decide (n <= length xs) /\
      _playbackIndex (tas w') = (if bool_decide (n <= length xs) then n else 0).

(** a call that returns without touching the TAS object, the store or the
    key map, on a host whose key map has no empty entry *)
Definition keeps_key_map (m : M unit) : Prop :=
  forall w, no_empty_mapping (host w) ->
    exists w',
      m w = (Normal tt, w') /\ tas w' = tas w /\ store w' = store w /\
      Ea (Jc (host w')) = Ea (Jc (host w)).

(** *** A frame that is [null] *)

(** a [null] under the cursor makes [playbackFrame] throw and leaves the
    cursor where it is, so that the next call throws as well *)
Definition null_frame_throws (playbackFrame : M bool) : Prop :=
  forall (w : World) (l : loc) (xs : list json),
    _isPlaying (tas w) = true -> _recording (tas w) = VArr l ->
    store w !! l = Some xs -> xs !! _playbackIndex (tas w) = Some JNull ->
    exists w',
      playbackFrame w = (Abrupt TypeError, w') /\
      tas w' = tas w /\ store w' = store w /\
      exists w'',
        playbackFrame w' = (Abrupt TypeError, w'') /\ tas w'' = tas w.

(** a session that plays the one-frame sequence [[null]] *)
Definition null_frame_world : World :=
  with_sequence
    (set_isPlaying true (set_recording (VArr 1) bound_session)) quiet_host [JNull].

(** *** Recording while playing *)

(** [startRecording()] in a session that is playing turns recording on
    and leaves playback on; the stored sequence is a new empty array, and
    when the cursor had left 0 the next tick ends the playback *)
Definition recording_takes_over (startRecording : M unit)
    (tick : (Host -> Host) -> M unit) : Prop :=
  forall (w : World),
    _isPlaying (tas w) = true ->
    exists w0,
      startRecording w = (Normal tt, w0) /\
      _isPlaying (tas w0) = true /\ _isRecording (tas w0) = true /\
      _playbackIndex (tas w0) = _playbackIndex (tas w) /\
      _recording (tas w0) = VArr (length (store w)) /\
      store w0 = store w ++ [[]] /\
      (0 < _playbackIndex (tas w) ->
       forall f : Host -> Host,
         exists w1,
           tick f w0 = (Normal tt, w1) /\
           _isPlaying (tas w1) = false /\ _isRecording (tas w1) = true /\
           _playbackIndex (tas w1) = 0).

(** a session that has played the first frame of a two-frame sequence *)
Definition mid_playback_world : World :=
  with_sequence
    (set_playbackIndex 1 (set_isPlaying true (set_recording (VArr 1) bound_session)))
    quiet_host [left_frame; waited 1].

(** *** What was recorded is restored *)

(** while recording into the array at [l], whose records are flat *)
Definition recording_flat (l : loc) (w : World) : Prop :=
  _isRecording (tas w) = true /\ _inputManager (tas w) = true /\
  _recording (tas w) = VArr l /\
  exists xs, store w !! l = Some xs /\ Forall flat_record xs.

(** one [recordFrame] with the input manager bound appends a flat record *)
Definition record_step_flat (recordFrame : M unit) : Prop :=
  forall (w : World) (l : loc) (xs : list json),
    _isRecording (tas w) = true -> _inputManager (tas w) = true ->
    _recording (tas w) = VArr l -> store w !! l = Some xs ->
    exists w' j,
      recordFrame w = (Normal tt, w') /\
      store w' = <[l := xs ++ [j]]> (store w) /\
      tas w' = set_frameCount (S (_frameCount (tas w))) (tas w) /\
      flat_record j.

(** the export of a recorded session, imported anywhere, gives the
    records back *)
Definition recorded_session_is_restored
    (startRecording : M unit) (tick : (Host -> Host) -> M unit)
    (exportRecording : M value) (importRecording : value -> M bool) : Prop :=
  forall (w : World) (fs : list (Host -> Host)),
    _inputManager (tas w) = true ->
    exists text w1 l xs,
      (startRecording;; observe tick fs;; exportRecording) w
        = (Normal (VStr text), w1) /\
      _recording (tas w1) = VArr l /\ store w1 !! l = Some xs /\
      length xs = length fs /\
      forall w2 : World,
        exists l' w3,
          importRecording (VStr text) w2 = (Normal true, w3) /\
          _recording (tas w3) = VArr l' /\
          store w3 !! l' = Some xs.

(** *** Playing a text *)

(** [startPlayback] of a text that decodes to the non-empty array [xs]
    plays a new array that holds [xs] *)
Definition plays_the_decoded_array (startPlayback : value -> M unit) : Prop :=
  forall (w : World) (text : jstring) (xs : list json),
    JSON.parse text = Some (JArr xs) -> xs <> [] ->
    exists w0,
      startPlayback (VStr text) w = (Normal tt, w0) /\
      _recording (tas w0) = VArr (length (store w)) /\
      store w0 = store w ++ [xs] /\
      _isPlaying (tas w0) = true /\ _isRecording (tas w0) = false /\
      _playbackIndex (tas w0) = 0.

(** [startPlayback(exportRecording())] plays a copy of the recording *)
Definition plays_the_export (exportRecording : M value)
    (startPlayback : value -> M unit) : Prop :=
  forall (w : World) (l : loc) (xs : list json),
    Forall flat_record xs -> xs <> [] ->
    _recording (tas w) = VArr l -> store w !! l = Some xs ->
    exists w0,
      (text ← exportRecording; startPlayback text) w = (Normal tt, w0) /\
      _recording (tas w0) = VArr (length (store w)) /\
      store w0 = store w ++ [xs] /\
      _isPlaying (tas w0) = true /\ _isRecording (tas w0) = false /\
      _playbackIndex (tas w0) = 0.

(** *** Copies of the recording *)

(** [getRecording()] returns a new array: a frame recorded after the
    call goes to the stored recording and not to the array returned *)
Definition returns_a_snapshot (getRecording : M value) (recordFrame : M unit)
  : Prop :=
  forall (w : World) (l : loc) (xs : list json),
    _isRecording (tas w) = true -> _inputManager (tas w) = true ->
    _recording (tas w) = VArr l -> store w !! l = Some xs ->
    exists l' w1 w2 j,
      getRecording w = (Normal (VArr l'), w1) /\
      l' <> l /\ store w1 !! l' = Some xs /\
      recordFrame w1 = (Normal tt, w2) /\
      store w2 !! l' = Some xs /\ store w2 !! l = Some (xs ++ [j]).

(** *** Releasing a direction *)

(** the keys [ks] released, one after the other *)
Definition release (ks : list N) (ob : gmap N bool) : gmap N bool :=
  foldl (fun m k => <[k := false]> m) ob ks.

(** a host whose Left arrow and A key are down, with the game's key map *)
Definition both_left_keys_host : Host :=
  without_listeners
    {| Dk := {| tb := Some ∅; ha := None |};
       Jc := {| Ob := {[ 37%N := true; 65%N := true ]};
                Ea := Some {[ 0%N := [37%N; 65%N] ]} |};
       Vv_tick := true |}.

(** *** The events of a frame *)

(** the key codes for which [setInputState] of [tas.js] dispatches a
    [keydown], in order *)
Definition keys_dispatched (j : json) : list N :=
  (if reads j "left" then [Dispatch.KEYS.LEFT] else []) ++
  (if reads j "right" then [Dispatch.KEYS.RIGHT] else []) ++
  (if reads j "up" then [Dispatch.KEYS.UP] else []) ++
  (if reads j "down" then [Dispatch.KEYS.DOWN] else []) ++
  (if reads j "action" then [Dispatch.KEYS.ENTER] else []) ++
  (if reads j "cancel" then [Dispatch.KEYS.BACKSPACE] else []).

(** the host after the events [es] went to [document.dispatchEvent], one
    after the other *)
Definition delivered (es : list KeyEvent) (h : Host) : Host :=
  foldl (fun h e => dispatchEvent e h) h es.

(** the world after [es] went to [document.dispatchEvent] *)
Definition with_events (es : list KeyEvent) (w : World) : World :=
  set_host (delivered es (host w)) w.

(** a key listener that keeps the pressed-key map: [keydown] sets the
    entry of the key, [keyup] clears it *)
Definition key_listener (e : KeyEvent) (g : Game) : Game :=
  {| Dk := Dk g;
     Jc := {| Ob := match e with
                    | keydown k => <[k := true]> (Ob (Jc g))
                    | keyup k => <[k := false]> (Ob (Jc g))
                    end;
              Ea := Ea (Jc g) |};
     Vv_tick := Vv_tick g |}.

(** a page with that listener, nothing pressed and nothing dispatched *)
Definition listening_host : Host :=
  {| game := quiet_host; listeners := key_listener; dispatched := [] |}.

(** a frame whose flags are not booleans *)
Definition loose_frame : json :=
  JObj [(jstr "left", JInt 1); (jstr "right", JStr []);
        (jstr "action", JStr (jstr "yes")); (jstr "cancel", JNull)].

(** *** Chains of builder calls *)

(** [builder.m1(..).m2(..)...]: every method returns the builder *)
Fixpoint chain (cs : list BuilderCall) (b : Builder.t) : M Builder.t :=
  match cs with
  | [] => mret b
  | c :: cs => b' ← call c b; chain cs b'
  end.

(** the frames a chain appends, from frame number [start] *)
Fixpoint chained (cs : list BuilderCall) (start : nat) : list json :=
  match cs with
  | [] => []
  | c :: cs => appended c start ++ chained cs (start + length (appended c start))
  end.

(** *** The earlier copy of [tas.js] *)

(** the record that [recordFrame] of the earlier copy makes of the slots *)
Definition raw_record (frame : nat) (slots : gmap N json) : json :=
  JObj [(jstr "frame", JInt (Z.of_nat frame));
        (jstr "left", Legacy.or_false (slots !! 0%N));
        (jstr "right", Legacy.or_false (slots !! 1%N));
        (jstr "up", Legacy.or_false (slots !! 2%N));
        (jstr "down", Legacy.or_false (slots !! 3%N));
        (jstr "action", Legacy.or_false (slots !! 4%N));
        (jstr "cancel", Legacy.or_false (slots !! 5%N))].

(** a host whose left slot holds the number 1, and one without slots *)
Definition numeric_slot_host : Host :=
  without_listeners
    {| Dk := {| tb := Some {[ 0%N := JInt 1 ]}; ha := None |};
       Jc := {| Ob := ∅; Ea := None |};
       Vv_tick := true |}.

Definition no_slots_host : Host :=
  without_listeners
    {| Dk := {| tb := None; ha := None |};
       Jc := {| Ob := ∅; Ea := None |};
       Vv_tick := true |}.

(** *** Initialisation *)

(** the timers of the page fire one after the other; [pages] tells what
    the page is like at each firing *)
Fixpoint fire (timer : option Pending) (pages : list Page) : M (option Pending) :=
  match timer, pages with
  | Some (pending _ callback), page :: pages =>
      timer ← callback page; fire timer pages
  | _, _ => mret timer
  end.

(** whether [init] of [part_000], and of [tas.js], finds the game *)
Definition Direct_finds (page : Page) : bool :=
  Wv page || match xh_yp page with Some (Normal true) => true | _ => false end.

Definition Dispatch_finds (page : Page) : bool := Wv page.

(** the lines [l] adds to the console *)
Definition said (l : Level) (n : nat) (w w' : World) : Prop :=
  exists lines,
    console w' = console w ++ lines /\ length lines = n /\
    Forall (fun e => level e = l) lines.

(** the script tries [init] when its timer fires, at most 11 times, 500 ms
    apart: it gives up, for good, when the game is missing at each of the
    11, with [warnings] warnings for each; and it stops at the first
    firing that finds the game, with the two references bound and the tick
    hooked where the game has one *)
Definition initialises_itself (on_load : Pending) (tryInit : nat -> Page -> M (option Pending))
    (finds : Page -> bool) (warnings : nat) : Prop :=
  on_load = pending 500 (tryInit 10) /\
  (forall (w : World) (pages : list Page),
     11 <= length pages -> Forall (fun page => finds page = false) (take 11 pages) ->
     exists w',
       fire (Some on_load) pages w = (Normal None, w') /\
       tas w' = tas w /\ store w' = store w /\ host w' = host w /\
       said warn (11 * warnings) w w') /\
  (forall (w : World) (missing : list Page) (page : Page) (later : list Page),
     length missing <= 10 -> Forall (fun page => finds page = false) missing ->
     finds page = true ->
     exists w',
       fire (Some on_load) (missing ++ page :: later) w = (Normal None, w') /\
       _inputManager (tas w') = true /\ _keyboardHandler (tas w') = true /\
       _tickHooked (tas w') = (_tickHooked (tas w) || Vv_tick (host w)) /\
       store w' = store w /\ host w' = host w).

(** a page without the game, and one with it *)
Definition page_without_game : Page := {| Wv := false; xh_yp := None |}.
Definition page_with_game : Page := {| Wv := true; xh_yp := None |}.

(** *** The frame counter *)

(** while recording into the array at [l], [n] ticks in, bound or not *)
Definition counting_at (l : loc) (n : nat) (w : World) : Prop :=
  _isRecording (tas w) = true /\ _recording (tas w) = VArr l /\
  _frameCount (tas w) = n /\
  exists xs, store w !! l = Some xs /\ Forall playable xs.

(** [getFrameCount()] after [startRecording()] and some ticks returns the
    number of these ticks *)
Definition counts_the_ticks (startRecording : M unit)
    (tick : (Host -> Host) -> M unit) (getFrameCount : M nat) : Prop :=
  forall (w : World) (fs : list (Host -> Host)),
    exists w',
      (startRecording;; observe tick fs;; getFrameCount) w
        = (Normal (length fs), w').

(** *** Importing something else than a sequence *)

(** a value that is neither an array nor a string *)
Definition neither_array_nor_string (data : value) : Prop :=
  match data with VArr _ | VStr _ => False | _ => True end.

(** *** The service worker *)


(** a page whose URLs are paths already *)
Definition icon_key : ServiceWorker.Request :=
  {| ServiceWorker.method := jstr "GET"; ServiceWorker.url := jstr "/silica/icon.png" |}.

Definition favicon_request : ServiceWorker.Request :=
  {| ServiceWorker.method := jstr "GET"; ServiceWorker.url := jstr "/other/favicon.png" |}.

Definition root_request : ServiceWorker.Request :=
  {| ServiceWorker.method := jstr "GET"; ServiceWorker.url := jstr "/" |}.

Definition cannon_key : ServiceWorker.Request :=
  {| ServiceWorker.method := jstr "GET";
     ServiceWorker.url := jstr "/kitsune/gstatic/externally_hosted/cannonjs/cannon.min.js" |}.

Definition cannon_request : ServiceWorker.Request :=
  {| ServiceWorker.method := jstr "GET";
     ServiceWorker.url :=
       jstr "https://www.gstatic.com/external_hosted/cannonjs/cannon.min.js" |}.

Definition no_response : ServiceWorker.Request -> option ServiceWorker.Response :=
  fun _ => None.

(** the cache answers every key with the same page *)
Definition a_page : ServiceWorker.Response :=
  {| ServiceWorker.status := 200; ServiceWorker.statusText := jstr "OK";
     ServiceWorker.body := jstr "<html></html>" |}.

Definition page_for_all : ServiceWorker.Request -> option ServiceWorker.Response :=
  fun _ => Some a_page.

(** *** The hook when nothing runs *)

(** the game's own ticks, one after the other *)
Definition game_ticks (fs : list (Host -> Host)) (h : Host) : Host :=
  foldl (fun h f => f h) h fs.

(** in a session that neither records nor plays, the hooked tick does
    what the game's tick does and nothing else *)
Definition transparent_when_idle (tick : (Host -> Host) -> M unit) : Prop :=
  forall (w : World) (fs : list (Host -> Host)),
    idle (tas w) ->
    observe tick fs w = (Normal tt, set_host (game_ticks fs (host w)) w).

(** *** What the recorder stores *)

(** the records of the ticks [fs] from frame [n] on, each made of the
    slots as the game's tick of that frame left them *)
Fixpoint recorded
    (record : Z -> bool -> bool -> bool -> bool -> bool -> bool -> json)
    (n : nat) (fs : list (Host -> Host)) (h : Host) : list json :=
  match fs with
  | [] => []
  | f :: fs =>
      record (Z.of_nat n) (slot (f h) 0) (slot (f h) 1) (slot (f h) 2)
        (slot (f h) 3) (slot (f h) 4) (slot (f h) 5)
        :: recorded record (S n) fs (f h)
  end.

(** a recording made while nothing is played holds these records, and
    leaves the host to the game *)
Definition records_the_slots (startRecording : M unit)
    (tick : (Host -> Host) -> M unit) (stopRecording : M value)
    (record : Z -> bool -> bool -> bool -> bool -> bool -> bool -> json) : Prop :=
  forall (w : World) (fs : list (Host -> Host)),
    _inputManager (tas w) = true -> _isPlaying (tas w) = false ->
    exists l w',
      (startRecording;; observe tick fs;; stopRecording) w = (Normal (VArr l), w') /\
      store w' !! l = Some (recorded record 0 fs (host w)) /\
      host w' = game_ticks fs (host w).

(** the game sets the left slot on its first tick and clears it on its
    second *)
Definition hold_left (h : Host) : Host :=
  set_game {| Dk := {| tb := Some {[ 0%N := JBool true ]}; ha := ha (Dk h) |};
              Jc := Jc h; Vv_tick := Vv_tick h |} h.

Definition let_go (h : Host) : Host :=
  set_game {| Dk := {| tb := Some ∅; ha := ha (Dk h) |};
              Jc := Jc h; Vv_tick := Vv_tick h |} h.

(** one tick of a session that records and does not play, with the
    input manager bound *)
Definition tick_stores_a_record (tick : (Host -> Host) -> M unit)
    (record : Z -> bool -> bool -> bool -> bool -> bool -> bool -> json) : Prop :=
  forall f w l xs,
    _isRecording (tas w) = true -> _isPlaying (tas w) = false ->
    _inputManager (tas w) = true ->
    _recording (tas w) = VArr l -> store w !! l = Some xs ->
    tick f w =
      (Normal tt,
       {| tas := set_frameCount (S (_frameCount (tas w))) (tas w);
          store := <[l := xs ++ [record (Z.of_nat (_frameCount (tas w)))
                                   (slot (f (host w)) 0) (slot (f (host w)) 1)
                                   (slot (f (host w)) 2) (slot (f (host w)) 3)
                                   (slot (f (host w)) 4) (slot (f (host w)) 5)]]>
                     (store w);
          host := f (host w); console := console w |}).

(** *** What a tick of a playback does to the game *)

(** the host after [setInputState(frame)] of the copy: every key of the
    pressed-key map up, then the keys of the frame's truthy flags down *)
Definition Direct_frame_applied (j : json) (h : Host) : Host :=
  set_Ob (applied (keys_pressed h (reads j "left") (reads j "right")
                     (reads j "up") (reads j "down") (reads j "action")
                     (reads j "cancel")))
    h.

(** the host after [setInputState(frame)] of [tas.js]: the events of the
    frame dispatched to the page's listeners *)
Definition Dispatch_frame_applied (j : json) (h : Host) : Host :=
  delivered ((keyup <$> Dispatch.KEYS.all) ++ (keydown <$> keys_dispatched j)) h.

(** after [startPlayback(xs)] and the ticks [fs], the next tick runs the
    game's own tick [f] and then applies frame [length fs] to what the
    game left *)
Definition tick_applies_its_frame (startPlayback : value -> M unit)
    (tick : (Host -> Host) -> M unit) (bound : Session -> Prop)
    (frame_applied : json -> Host -> Host) : Prop :=
  forall (w : World) (l : loc) (xs : list json) (fs : list (Host -> Host))
         (f : Host -> Host) (j : json),
    store w !! l = Some xs -> Forall playable xs -> bound (tas w) ->
    xs !! length fs = Some j ->
    exists w0 w1 w',
      startPlayback (VArr l) w = (Normal tt, w0) /\
      observe tick fs w0 = (Normal tt, w1) /\
      tick f w1 = (Normal tt, w') /\
      host w' = frame_applied j (f (host w1)).

Definition handler_bound (s : Session) : Prop := _keyboardHandler s = true.
Definition any_session (s : Session) : Prop := True.

(** what playing [xs] to its end looks like: each of the first
    [length xs] ticks runs the game's tick and applies the next frame to
    what the game left, and leaves the session playing with the cursor at
    the number of ticks seen; the tick after them leaves it idle with the
    cursor at 0 and the keys released *)
Definition exhausts_after_one_more_tick
    (startPlayback : value -> M unit) (tick : (Host -> Host) -> M unit)
    (bound : Session -> Prop) (frame_applied : json -> Host -> Host)
    (released : World -> Host -> Prop) : Prop :=
  forall (w : World) (l : loc) (xs : list json),
    store w !! l = Some xs -> xs <> [] -> Forall playable xs ->
    exists w0,
      startPlayback (VArr l) w = (Normal tt, w0) /\
      forall fs : list (Host -> Host),
        length fs <= S (length xs) ->
        exists w',
          observe tick fs w0 = (Normal tt, w') /\
          (length fs <= length xs ->
             _isPlaying (tas w') = true /\ _playbackIndex (tas w') = length fs) /\
          (forall fs' f,
             fs = fs' ++ [f] -> length fs <= length xs -> bound (tas w) ->
             exists w1 j,
               observe tick fs' w0 = (Normal tt, w1) /\
               xs !! length fs' = Some j /\
               host w' = frame_applied j (f (host w1))) /\
          (length fs = S (length xs) ->
             idle (tas w') /\ _playbackIndex (tas w') = 0 /\ released w (host w')).

(** *** Recording started before the first tick of a playback *)

(** [startRecording()] with the cursor still on 0: every tick records a
    frame and plays it at once, and the playback does not end *)
Definition echoes_without_end (startRecording : M unit)
    (tick : (Host -> Host) -> M unit) : Prop :=
  forall (w : World) (fs : list (Host -> Host)),
    _isPlaying (tas w) = true -> _playbackIndex (tas w) = 0 ->
    _inputManager (tas w) = true ->
    exists w' xs,
      (startRecording;; observe tick fs) w = (Normal tt, w') /\
      _isPlaying (tas w') = true /\ _isRecording (tas w') = true /\
      _playbackIndex (tas w') = length fs /\
      _recording (tas w') = VArr (length (store w)) /\
      store w' !! length (store w) = Some xs /\ length xs = length fs.

(** the session records and plays the array at [l], which has [n]
    elements, with the cursor behind the last one *)
Definition echoing_at (l : loc) (n : nat) (w : World) : Prop :=
  _isRecording (tas w) = true /\ _isPlaying (tas w) = true /\
  _inputManager (tas w) = true /\ _recording (tas w) = VArr l /\
  _frameCount (tas w) = n /\ _playbackIndex (tas w) = n /\
  exists xs, store w !! l = Some xs /\ length xs = n /\ Forall playable xs.

(** a session that has just started to play a two-frame sequence *)
Definition fresh_playback_world : World :=
  with_sequence
    (set_isPlaying true (set_recording (VArr 1) bound_session))
    quiet_host [left_frame; waited 1].

(** * Properties *)

(** ** The call monad *)

Lemma bind_normal {A B} (m : M A) (k : A -> M B) w a w' :
  m w = (Normal a, w') -> (m ≫= k) w = k a w'.
Proof. intros H. unfold mbind, M_bind, bind. by rewrite H. Qed.

Lemma bind_abrupt {A B} (m : M A) (k : A -> M B) w e w' :
  m w = (Abrupt e, w') -> (m ≫= k) w = (Abrupt e, w').
Proof. intros H. unfold mbind, M_bind, bind. by rewrite H. Qed.

(** ** Symbolic execution *)

Ltac run :=
  cbv [mbind M_bind bind mret M_ret ret this update update_host say when throw
       try_catch the_host alloc]; cbn.

Arguments length_of : simpl never.
Arguments slice : simpl never.
Arguments push : simpl never.
Arguments index : simpl never.
Arguments positive : simpl never.
Arguments is_zero : simpl never.
Arguments counter_ge : simpl never.
Arguments Direct.setInputState : simpl never.
Arguments Dispatch.setInputState : simpl never.

Lemma positive_length (n : nat) : positive (Some (JInt (Z.of_nat n))) = negb (n =? 0).
Proof. unfold positive, JInt. destruct n; [done|]. apply Z.ltb_lt. lia. Qed.

Lemma is_zero_length (n : nat) : is_zero (Some (JInt (Z.of_nat n))) = (n =? 0).
Proof. unfold is_zero, JInt. destruct n; [done|]. apply Z.eqb_neq. lia. Qed.

Lemma length_of_array w l xs :
  store w !! l = Some xs ->
  length_of (VArr l) w = (Normal (Some (JInt (Z.of_nat (length xs)))), w).
Proof. intros H. unfold length_of, elements. by rewrite H. Qed.

Lemma slice_array w l xs :
  store w !! l = Some xs ->
  slice (VArr l) w =
    (Normal (VArr (length (store w))),
     {| tas := tas w; store := store w ++ [xs]; host := host w;
        console := console w |}).
Proof. intros H. unfold slice, elements, alloc. by rewrite H. Qed.

Lemma push_at w l x xs :
  store w !! l = Some xs ->
  push (VArr l) x w =
    (Normal tt, {| tas := tas w; store := <[l := xs ++ [x]]> (store w);
                   host := host w; console := console w |}).
Proof. intros H. unfold push, elements. by rewrite H. Qed.

Lemma lookup_alloc (σ : list (list json)) (xs : list json) :
  (σ ++ [xs]) !! length σ = Some xs.
Proof. by rewrite lookup_app_r, Nat.sub_diag by lia. Qed.

(** ** Starting playback of an array *)

Lemma Direct_startPlayback_array w l xs :
  store w !! l = Some xs -> xs <> [] ->
  exists w0, Direct.startPlayback (VArr l) w = (Normal tt, w0) /\ playing_from w l w0.
Proof.
  intros Hl Hne. destruct xs as [|x xs]; [done|].
  unfold Direct.startPlayback, Direct._hookGameTick. run.
  rewrite (length_of_array _ _ _ Hl), positive_length. cbn.
  erewrite length_of_array by (cbn; eassumption). rewrite is_zero_length. cbn.
  destruct (_tickHooked (tas w)) eqn:Hh; cbn; rewrite ?Hh; cbn;
    [|destruct (Vv_tick (host w)) eqn:Hv; cbn];
    (erewrite length_of_array by (cbn; eassumption)); cbn;
    eexists; (split; [reflexivity|]); by repeat split.
Qed.

Lemma Dispatch_startPlayback_array w l xs :
  store w !! l = Some xs -> xs <> [] ->
  exists w0, Dispatch.startPlayback (VArr l) w = (Normal tt, w0) /\ playing_from w l w0.
Proof.
  intros Hl Hne. destruct xs as [|x xs]; [done|].
  unfold Dispatch.startPlayback, Dispatch._hookGameTick. run.
  rewrite (length_of_array _ _ _ Hl), positive_length. cbn.
  erewrite length_of_array by (cbn; eassumption). rewrite is_zero_length. cbn.
  destruct (_tickHooked (tas w)) eqn:Hh; cbn; rewrite ?Hh; cbn;
    [|destruct (Vv_tick (host w)) eqn:Hv; cbn];
    (erewrite length_of_array by (cbn; eassumption)); cbn;
    eexists; (split; [reflexivity|]); by repeat split.
Qed.

Lemma Direct_playback_stops_recording : playback_stops_recording Direct.startPlayback.
Proof.
  intros w l xs _ Hl Hne.
  destruct (Direct_startPlayback_array w l xs Hl Hne) as (w0 & -> & H).
  exists w0. unfold playing_from in H. tauto.
Qed.

Lemma Dispatch_playback_stops_recording : playback_stops_recording Dispatch.startPlayback.
Proof.
  intros w l xs _ Hl Hne.
  destruct (Dispatch_startPlayback_array w l xs Hl Hne) as (w0 & -> & H).
  exists w0. unfold playing_from in H. tauto.
Qed.

Lemma Legacy_startPlayback_array w l xs :
  store w !! l = Some xs -> xs <> [] ->
  Legacy.startPlayback (VArr l) w =
    (Normal tt,
     {| tas := set_isPlaying true (set_playbackIndex 0 (set_recording (VArr l) (tas w)));
        store := store w; host := host w;
        console := console w ++
          [{| level := log; text := "[TAS] Playback started. _ frames to play.";
              args := [Some (JInt (Z.of_nat (length xs)))] |}] |}).
Proof.
  intros Hl Hne. destruct xs as [|x xs]; [done|].
  unfold Legacy.startPlayback. run.
  rewrite (length_of_array _ _ _ Hl), is_zero_length. cbn.
  by erewrite length_of_array by (cbn; eassumption).
Qed.

(** ** Empty playback *)






(** ** Decoding failures *)

Lemma Direct_syntax_errors :
  syntax_errors_leave_state Direct.startPlayback Direct.importRecording.
Proof.
  intros w text H. split.
  - unfold Direct.startPlayback, JSON_parse. rewrite H. run.
    eexists. split; [reflexivity|]. split; [done|]. by eexists _, _.
  - unfold Direct.importRecording, JSON_parse. rewrite H. run.
    eexists. split; [reflexivity|]. split; [done|]. by eexists _, _.
Qed.

Lemma Dispatch_syntax_errors :
  syntax_errors_leave_state Dispatch.startPlayback Dispatch.importRecording.
Proof.
  intros w text H. split.
  - unfold Dispatch.startPlayback, JSON_parse. rewrite H. run.
    eexists. split; [reflexivity|]. split; [done|]. by eexists _, _.
  - unfold Dispatch.importRecording, JSON_parse. rewrite H. run.
    eexists. split; [reflexivity|]. split; [done|]. by eexists _, _.
Qed.

(** ** Reading the recording back *)

Lemma getRecording_array (getRecording : M value) w l xs :
  getRecording = (s ← this; slice (_recording s)) ->
  _recording (tas w) = VArr l -> store w !! l = Some xs ->
  exists l' w1, getRecording w = (Normal (VArr l'), w1) /\ store w1 !! l' = Some xs.
Proof.
  intros -> Hr Hl. run. rewrite Hr, (slice_array _ _ _ Hl).
  eexists _, _. split; [reflexivity|]. cbn. apply lookup_alloc.
Qed.

Lemma exportRecording_array (exportRecording : M value) w l xs :
  exportRecording = (s ← this; JSON_stringify (_recording s)) ->
  _recording (tas w) = VArr l -> store w !! l = Some xs ->
  exportRecording w = (Normal (VStr (JSON.stringify (JArr xs))), w).
Proof.
  intros -> Hr Hl. run. unfold JSON_stringify. rewrite Hr. cbn.
  unfold elements. by rewrite Hl.
Qed.

Lemma Direct_playback_replaces :
  playback_replaces_recording Direct.startPlayback Direct.getRecording
    Direct.exportRecording.
Proof.
  intros w l xs Hl Hne.
  destruct (Direct_startPlayback_array w l xs Hl Hne) as (w0 & -> & H).
  destruct H as (Hr & _ & _ & _ & _ & _ & _ & Hs & _).
  exists w0. split; [done|]. split; [done|]. split; [done|].
  rewrite <- Hs in Hl. split.
  - by eapply getRecording_array.
  - by eapply exportRecording_array.
Qed.

Lemma Dispatch_playback_replaces :
  playback_replaces_recording Dispatch.startPlayback Dispatch.getRecording
    Dispatch.exportRecording.
Proof.
  intros w l xs Hl Hne.
  destruct (Dispatch_startPlayback_array w l xs Hl Hne) as (w0 & -> & H).
  destruct H as (Hr & _ & _ & _ & _ & _ & _ & Hs & _).
  exists w0. split; [done|]. split; [done|]. split; [done|].
  rewrite <- Hs in Hl. split.
  - by eapply getRecording_array.
  - by eapply exportRecording_array.
Qed.

Lemma Legacy_playback_replaces :
  playback_replaces_recording Legacy.startPlayback Legacy.getRecording
    Legacy.exportRecording.
Proof.
  intros w l xs Hl Hne.
  rewrite (Legacy_startPlayback_array w l xs Hl Hne).
  eexists. split; [reflexivity|]. cbn. split; [done|]. split; [done|]. split.
  - by eapply getRecording_array.
  - by eapply exportRecording_array.
Qed.

(** ** The sequence builder *)

Lemma hold_loop_appends d n : forall b w l xs,
  Builder.seq b = VArr l -> store w !! l = Some xs ->
  Builder.hold_loop d n b w =
    (Normal {| Builder.seq := VArr l;
               Builder.currentFrame := Builder.currentFrame b + n |},
     {| tas := tas w;
        store := <[l := xs ++ (held d <$> seq (Builder.currentFrame b) n)]> (store w);
        host := host w; console := console w |}).
Proof.
  induction n as [|n IH]; intros b w l xs Hb Hl.
  - cbn. rewrite app_nil_r, list_insert_id, Nat.add_0_r by done.
    destruct b, w; cbn in *; by subst.
  - cbn [Builder.hold_loop]. rewrite Hb.
    erewrite bind_normal by (by apply push_at).
    erewrite IH; [|done|].
    2: { cbn. apply list_lookup_insert_eq. by eapply lookup_lt_Some. }
    cbn. rewrite list_insert_insert_eq, <- app_assoc. cbn.
    do 3 f_equal. lia.
Qed.

Lemma wait_loop_appends n : forall b w l xs,
  Builder.seq b = VArr l -> store w !! l = Some xs ->
  Builder.wait_loop n b w =
    (Normal {| Builder.seq := VArr l;
               Builder.currentFrame := Builder.currentFrame b + n |},
     {| tas := tas w;
        store := <[l := xs ++ (waited <$> seq (Builder.currentFrame b) n)]> (store w);
        host := host w; console := console w |}).
Proof.
  induction n as [|n IH]; intros b w l xs Hb Hl.
  - cbn. rewrite app_nil_r, list_insert_id, Nat.add_0_r by done.
    destruct b, w; cbn in *; by subst.
  - cbn [Builder.wait_loop]. rewrite Hb.
    erewrite bind_normal by (by apply push_at).
    erewrite IH; [|done|].
    2: { cbn. apply list_lookup_insert_eq. by eapply lookup_lt_Some. }
    cbn. rewrite list_insert_insert_eq, <- app_assoc. cbn.
    do 3 f_equal. lia.
Qed.

Lemma call_appends c b w l xs :
  Builder.seq b = VArr l -> store w !! l = Some xs ->
  exists b' w',
    call c b w = (Normal b', w') /\
    Builder.seq b' = VArr l /\
    Builder.currentFrame b' = Builder.currentFrame b + length (appended c (Builder.currentFrame b)) /\
    store w' !! l = Some (xs ++ appended c (Builder.currentFrame b)).
Proof.
  intros Hb Hl.
  assert (Hlt : l < length (store w)) by (by eapply lookup_lt_Some).
  destruct c; cbn [call appended];
    unfold Builder.left, Builder.right, Builder.up, Builder.down,
      Builder.action, Builder.cancel, Builder.hold, Builder.wait;
    first [ rewrite (hold_loop_appends _ _ b w l xs Hb Hl)
          | rewrite (wait_loop_appends _ b w l xs Hb Hl) ];
    eexists _, _; (split; [reflexivity|]); cbn;
    rewrite length_fmap, length_seq, list_lookup_insert_eq by done; done.
Qed.

(** C8 (as amended). [build()] returns the builder's own array, not a copy:
    at the time of the call it holds the frames accumulated so far, and
    every later builder call ([hold], [wait] or a direction method) appends
    its frames to that same array, so the sequence returned earlier grows
    by them; its earlier contents stay in place as a prefix. *)
Theorem build_returns_the_live_sequence :
  forall (b : Builder.t) (w : World) (l : loc) (xs : list json) (c : BuilderCall),
    Builder.seq b = VArr l -> store w !! l = Some xs ->
    Builder.build b w = (Normal (VArr l), w) /\
    exists b' w',
      call c b w = (Normal b', w') /\
      Builder.seq b' = VArr l /\
      store w' !! l = Some (xs ++ appended c (Builder.currentFrame b)).
Proof.
  intros b w l xs c Hb Hl. split.
  - unfold Builder.build. run. by rewrite Hb.
  - destruct (call_appends c b w l xs Hb Hl) as (b' & w' & ? & ? & ? & ?).
    by exists b', w'.
Qed.

Lemma build_returns_the_live_sequence_witness :
  let b := {| Builder.seq := VArr 1; Builder.currentFrame := 0 |} in
  let w := with_sequence fresh_session quiet_host [] in
  Builder.build b w = (Normal (VArr 1), w) /\
  exists b' w',
    call (call_left None) b w = (Normal b', w') /\
    Builder.seq b' = VArr 1 /\
    store w' !! 1 = Some ([] ++ appended (call_left None) 0).
Proof.
  apply (build_returns_the_live_sequence
           {| Builder.seq := VArr 1; Builder.currentFrame := 0 |}
           (with_sequence fresh_session quiet_host []) 1 [] (call_left None));
    reflexivity.
Defined.

(** C8 (as stated) fails: the sequence that [sequence().build()] returned
    is empty, and has one frame after a later [left()] on the builder. *)
Lemma build_is_not_a_copy :
  exists b r w1 b' w2,
    (b ← Builder.sequence; r ← Builder.build b; mret (b, r)) (page_load quiet_host)
      = (Normal (b, VArr r), w1) /\
    store w1 !! r = Some [] /\
    Builder.left None b w1 = (Normal b', w2) /\
    store w2 !! r = Some [held DIRECTION.LEFT 0].
Proof.
  eexists _, _, _, _, _. split; [reflexivity|]. split; [reflexivity|].
  split; reflexivity.
Qed.

(** ** The input adapter of [part_000] *)

Lemma touches_host_only_bind (m k : M unit) :
  touches_host_only m -> touches_host_only k -> touches_host_only (m;; k).
Proof.
  intros Hm Hk w. destruct (Hm w) as (w1 & E1 & T1 & S1).
  destruct (Hk w1) as (w2 & E2 & T2 & S2).
  exists w2. rewrite (bind_normal _ _ _ _ _ E1). split; [done|]. split; congruence.
Qed.

Lemma touches_host_only_when b (m : M unit) :
  touches_host_only m -> touches_host_only (when b m).
Proof. intros Hm. destruct b; [done|]. intros w. by exists w. Qed.

Lemma touches_host_only_say l t a : touches_host_only (say l t a).
Proof. intros w. by eexists. Qed.

Lemma touches_host_only_update_host f : touches_host_only (update_host f).
Proof. intros w. by eexists. Qed.

Lemma touches_host_only_for_each {A} (l : list A) (body : A -> M unit) :
  (forall x, touches_host_only (body x)) -> touches_host_only (for_each l body).
Proof.
  intros H. induction l as [|x l IH]; cbn.
  - intros w. by exists w.
  - by apply touches_host_only_bind.
Qed.

Lemma Direct_pressKey_host k : touches_host_only (Direct.pressKey k).
Proof.
  intros w. unfold Direct.pressKey. run.
  destruct (_keyboardHandler (tas w)); cbn; by eexists.
Qed.

Lemma Direct_releaseAllKeys_host : touches_host_only Direct.releaseAllKeys.
Proof.
  intros w. unfold Direct.releaseAllKeys. run.
  destruct (_keyboardHandler (tas w)); cbn; by eexists.
Qed.

Lemma Direct_pressDirection_host d : touches_host_only (Direct.pressDirection d).
Proof.
  intros w. unfold Direct.pressDirection.
  cbv [mbind M_bind bind this the_host]. cbn.
  destruct (_keyboardHandler (tas w)) eqn:Hk; cbn; [|by eexists].
  match goal with
  | |- context [match ?x with Some _ => _ | None => _ end] =>
      destruct x as [[|k ks]|]
  end;
    try apply Direct_pressKey_host;
    (destruct (Direct.fallbackKey d); [apply Direct_pressKey_host | by exists w]).
Qed.

Lemma Direct_setInputState_reads (j : json) :
  j <> JNull ->
  Direct.setInputState (Some j) =
    (Direct.releaseAllKeys;;
     when (reads j "left") Direct.left;;
     when (reads j "right") Direct.right;;
     when (reads j "up") Direct.up;;
     when (reads j "down") Direct.down;;
     when (reads j "action") Direct.action;;
     when (reads j "cancel") Direct.cancel).
Proof. intros H. by destruct j. Qed.

Lemma Direct_setInputState_host j :
  j <> JNull -> touches_host_only (Direct.setInputState (Some j)).
Proof.
  intros H. rewrite (Direct_setInputState_reads j H).
  apply touches_host_only_bind; [apply Direct_releaseAllKeys_host|].
  repeat (apply touches_host_only_bind || apply touches_host_only_when);
    first [ apply Direct_pressDirection_host | apply Direct_pressKey_host ].
Qed.

(** ** One frame of playback *)

Lemma counter_ge_length i n w :
  counter_ge i (Some (JInt (Z.of_nat n))) w = (Normal (n <=? i), w).
Proof.
  unfold counter_ge, JInt, JSON.pow10. run. do 2 f_equal.
  rewrite Z.mul_1_r. apply eq_true_iff_eq.
  rewrite Z.leb_le, Nat.leb_le. lia.
Qed.

Lemma index_array w l xs i :
  store w !! l = Some xs -> index (VArr l) i w = (Normal (xs !! i), w).
Proof. intros H. unfold index, elements. by rewrite H. Qed.

Lemma all_released_fmap (h : Host) :
  all_released (set_Ob (fmap (fun _ => false)) h).
Proof.
  intros k b. cbn. rewrite lookup_fmap.
  destruct (Ob (Jc h) !! k); cbn; congruence.
Qed.

Lemma Direct_playbackFrame_array w l xs :
  _recording (tas w) = VArr l -> store w !! l = Some xs -> Forall playable xs ->
  exists b w',
    Direct.playbackFrame w = (Normal b, w') /\
    playback_step Direct_released xs w b w'.
Proof.
  intros Hr Hl Hp. unfold Direct.playbackFrame, playback_step. run.
  destruct (_isPlaying (tas w)) eqn:Hplay; cbn; [|by eexists _, _].
  rewrite Hr, (length_of_array _ _ _ Hl). cbn. rewrite counter_ge_length. cbn.
  destruct (length xs <=? _playbackIndex (tas w)) eqn:Hend; cbn.
  - apply Nat.leb_le in Hend.
    unfold Direct.stopPlayback, Direct.releaseAllKeys. run.
    destruct (_keyboardHandler (tas w)) eqn:Hk; cbn;
      eexists _, _; (split; [reflexivity|]); cbn; rewrite ?Hr;
      repeat split; try done.
    + intros _. apply all_released_fmap.
    + intros ?. congruence.
  - apply Nat.leb_gt in Hend.
    rewrite (index_array _ _ _ _ Hl). cbn.
    destruct (lookup_lt_is_Some_2 xs _ Hend) as [j Hj]. rewrite Hj.
    assert (Hnn : j <> JNull).
    { eapply (Forall_lookup_1 playable); eauto. }
    destruct (Direct_setInputState_host j Hnn w) as (w1 & E1 & T1 & S1).
    rewrite E1. cbn.
    eexists _, _. split; [reflexivity|]. cbn. rewrite T1, Hplay.
    by repeat split.
Qed.

(** ** Observed ticks *)

Lemma observe_app tick (a b : list (Host -> Host)) w w1 :
  observe tick a w = (Normal tt, w1) ->
  observe tick (a ++ b) w = observe tick b w1.
Proof.
  revert w. induction a as [|f a IH]; intros w H; cbn in *.
  - by inversion H.
  - unfold mbind, M_bind, bind in *.
    destruct (tick f w) as [[[]|e] w2]; [|done]. by apply IH.
Qed.

Section Playback.
Variable tick : (Host -> Host) -> M unit.
Variable playbackFrame : M bool.
Variable startPlayback : value -> M unit.
Variable released : World -> Host -> Prop.

Hypothesis tick_not_recording : forall f w,
  _isRecording (tas w) = false ->
  tick f w =
    (when (_isPlaying (tas w)) (playbackFrame;; mret tt))
      (set_host (f (host w)) w).

Hypothesis playbackFrame_array : forall w l xs,
  _recording (tas w) = VArr l -> store w !! l = Some xs -> Forall playable xs ->
  exists b w',
    playbackFrame w = (Normal b, w') /\ playback_step released xs w b w'.

Hypothesis released_ext : forall w w' h,
  _keyboardHandler (tas w') = _keyboardHandler (tas w) ->
  released w' h -> released w h.

Hypothesis startPlayback_array : forall w l xs,
  store w !! l = Some xs -> xs <> [] ->
  exists w0, startPlayback (VArr l) w = (Normal tt, w0) /\ playing_from w l w0.

Context (l : loc) (xs : list json) (w0 : World).
Hypothesis stored : store w0 !! l = Some xs.
Hypothesis playable_xs : Forall playable xs.

Lemma tick_plays_a_frame f i w :
  playing_at l w0 i w -> i < length xs ->
  exists w', tick f w = (Normal tt, w') /\ playing_at l w0 (S i) w'.
Proof using tick_not_recording playbackFrame_array stored playable_xs.
  intros (Hs & Hr & Hrec & Hplay & Hi & Hk) Hlt.
  rewrite tick_not_recording, Hplay by done. cbn [when].
  destruct (playbackFrame_array (set_host (f (host w)) w) l xs)
    as (b & w' & E & Hs' & Hsame & Hstep); [done|cbn; congruence|done|].
  cbn in Hstep. rewrite Hplay, Hi in Hstep.
  rewrite (proj2 (Nat.leb_gt _ _) Hlt) in Hstep.
  destruct Hstep as (-> & Hp' & Hi').
  destruct Hsame as (_ & Hk' & Hr' & Hrec' & _).
  exists w'. rewrite (bind_normal _ _ _ _ _ E). split; [done|].
  cbn in *. unfold playing_at. repeat split; congruence.
Qed.

Lemma tick_stops_at_the_end f i w :
  playing_at l w0 i w -> length xs <= i ->
  exists w',
    tick f w = (Normal tt, w') /\
    idle (tas w') /\ _playbackIndex (tas w') = 0 /\ released w0 (host w').
Proof using tick_not_recording playbackFrame_array released_ext stored playable_xs.
  intros (Hs & Hr & Hrec & Hplay & Hi & Hk) Hge.
  rewrite tick_not_recording, Hplay by done. cbn [when].
  destruct (playbackFrame_array (set_host (f (host w)) w) l xs)
    as (b & w' & E & Hs' & Hsame & Hstep); [done|cbn; congruence|done|].
  cbn in Hstep. rewrite Hplay, Hi in Hstep.
  rewrite (proj2 (Nat.leb_le _ _) Hge) in Hstep.
  destruct Hstep as (-> & Hp' & Hi' & Hrel).
  destruct Hsame as (_ & Hk' & Hr' & Hrec' & _).
  exists w'. rewrite (bind_normal _ _ _ _ _ E). split; [done|].
  cbn in *. split; [split; congruence|]. split; [done|].
  eapply released_ext; [|exact Hrel]. cbn. congruence.
Qed.

Lemma observe_plays fs : forall i w,
  playing_at l w0 i w -> i + length fs <= length xs ->
  exists w',
    observe tick fs w = (Normal tt, w') /\ playing_at l w0 (i + length fs) w'.
Proof using tick_not_recording playbackFrame_array stored playable_xs.
  induction fs as [|f fs IH]; intros i w Hinv Hle; cbn in *.
  - exists w. by rewrite Nat.add_0_r.
  - destruct (tick_plays_a_frame f i w Hinv) as (w1 & E1 & Hinv1); [lia|].
    destruct (IH (S i) w1 Hinv1) as (w' & E & Hinv'); [lia|].
    exists w'. rewrite (bind_normal _ _ _ _ _ E1).
    split; [done|]. by replace (i + S (length fs)) with (S i + length fs) by lia.
Qed.
End Playback.

Lemma exhaustion tick playbackFrame startPlayback released :
  (forall f w, _isRecording (tas w) = false ->
     tick f w =
       (when (_isPlaying (tas w)) (playbackFrame;; mret tt)) (set_host (f (host w)) w)) ->
  (forall w l xs,
     _recording (tas w) = VArr l -> store w !! l = Some xs -> Forall playable xs ->
     exists b w', playbackFrame w = (Normal b, w') /\ playback_step released xs w b w') ->
  (forall w w' h,
     _keyboardHandler (tas w') = _keyboardHandler (tas w) ->
     released w' h -> released w h) ->
  (forall w l xs, store w !! l = Some xs -> xs <> [] ->
     exists w0, startPlayback (VArr l) w = (Normal tt, w0) /\ playing_from w l w0) ->
  ends_after_one_more_tick startPlayback tick released.
Proof.
  intros Htick Hframe Hext Hstart w l xs Hl Hne Hp.
  destruct (Hstart w l xs Hl Hne) as (w0 & E0 & Hfrom).
  exists w0. split; [done|].
  destruct Hfrom as (Hr & Hplay & Hrec & Hi & _ & Hk & _ & Hs & _).
  assert (Hl0 : store w0 !! l = Some xs) by (by rewrite Hs).
  assert (Hinv : playing_at l w0 0 w0) by (by repeat split).
  intros fs Hlen.
  destruct (decide (length fs <= length xs)) as [Hle|Hgt].
  - destruct (observe_plays tick playbackFrame released Htick Hframe l xs w0 Hl0 Hp
                fs 0 w0 Hinv) as (w' & E & Hinv'); [lia|].
    exists w'. split; [done|]. split; [|intros ?; lia].
    intros _. destruct Hinv' as (_ & _ & _ & ? & ? & _). by split.
  - destruct fs as [|f fs _] using rev_ind; [cbn in *; lia|].
    rewrite length_app in Hlen, Hgt. cbn in *.
    destruct (observe_plays tick playbackFrame released Htick Hframe l xs w0 Hl0 Hp
                fs 0 w0 Hinv) as (w1 & E1 & Hinv1); [lia|].
    destruct (tick_stops_at_the_end tick playbackFrame released Htick Hframe Hext
                l xs w0 Hl0 Hp f _ w1 Hinv1) as (w' & E & Hidle & Hi' & Hrel); [lia|].
    exists w'. rewrite (observe_app _ _ _ _ _ E1). cbn.
    rewrite (bind_normal _ _ _ _ _ E). split; [done|].
    rewrite length_app. cbn. split; [intros ?; lia|].
    intros _. repeat split; try apply Hidle; try done.
    eapply Hext; [|exact Hrel]. done.
Qed.

Lemma Direct_tick_not_recording f w :
  _isRecording (tas w) = false ->
  Direct.tick f w =
    (when (_isPlaying (tas w)) (Direct.playbackFrame;; mret tt))
      (set_host (f (host w)) w).
Proof. intros H. unfold Direct.tick. run. by rewrite H. Qed.

Lemma Direct_exhausts :
  ends_after_one_more_tick Direct.startPlayback Direct.tick Direct_released.
Proof.
  apply (exhaustion _ Direct.playbackFrame).
  - apply Direct_tick_not_recording.
  - apply Direct_playbackFrame_array.
  - intros w w' h Hk Hrel Hb. apply Hrel. congruence.
  - apply Direct_startPlayback_array.
Qed.

(** ** The input adapter of [tas.js] *)

Lemma delivered_app a b h : delivered (a ++ b) h = delivered b (delivered a h).
Proof. apply foldl_app. Qed.

Lemma dispatched_delivered es : forall h,
  dispatched (delivered es h) = dispatched h ++ es.
Proof.
  induction es as [|e es IH]; intros h; cbn.
  - by rewrite app_nil_r.
  - change (dispatched (delivered es (dispatchEvent e h)) = dispatched h ++ e :: es).
    rewrite IH. cbn. by rewrite <- app_assoc.
Qed.

Lemma with_events_nil w : with_events [] w = w.
Proof. by destruct w. Qed.

Lemma with_events_app a b w :
  with_events b (with_events a w) = with_events (a ++ b) w.
Proof. unfold with_events, set_host. cbn. by rewrite delivered_app. Qed.

Lemma Dispatch_when_pressKey b k w :
  when b (Dispatch.pressKey k) w
    = (Normal tt, with_events (keydown <$> (if b then [k] else [])) w).
Proof. destruct b; [done|]. cbn. by rewrite with_events_nil. Qed.

Lemma Dispatch_releaseKeys_events ks : forall w,
  for_each ks Dispatch.releaseKey w = (Normal tt, with_events (keyup <$> ks) w).
Proof.
  induction ks as [|k ks IH]; intros w; cbn [for_each fmap list_fmap].
  - by rewrite with_events_nil.
  - assert (E : Dispatch.releaseKey k w = (Normal tt, with_events [keyup k] w)) by done.
    rewrite (bind_normal _ _ _ _ _ E), IH, with_events_app. done.
Qed.

Lemma Dispatch_releaseAllKeys_events w :
  Dispatch.releaseAllKeys w
    = (Normal tt, with_events (keyup <$> Dispatch.KEYS.all) w).
Proof. apply Dispatch_releaseKeys_events. Qed.

Lemma touches_host_only_with_events (m : M unit) :
  (forall w, exists es, m w = (Normal tt, with_events es w)) ->
  touches_host_only m.
Proof. intros H w. destruct (H w) as [es ->]. by eexists. Qed.

Lemma Dispatch_pressKey_host k : touches_host_only (Dispatch.pressKey k).
Proof. intros w. by eexists. Qed.

Lemma Dispatch_releaseAllKeys_host : touches_host_only Dispatch.releaseAllKeys.
Proof.
  apply touches_host_only_with_events. intros w. eexists.
  apply Dispatch_releaseAllKeys_events.
Qed.

Lemma Dispatch_setInputState_reads (j : json) :
  j <> JNull ->
  Dispatch.setInputState (Some j) =
    (Dispatch.releaseAllKeys;;
     when (reads j "left") Dispatch.left;;
     when (reads j "right") Dispatch.right;;
     when (reads j "up") Dispatch.up;;
     when (reads j "down") Dispatch.down;;
     when (reads j "action") (Dispatch.pressKey Dispatch.KEYS.ENTER);;
     when (reads j "cancel") (Dispatch.pressKey Dispatch.KEYS.BACKSPACE)).
Proof. intros H. by destruct j. Qed.

Lemma Dispatch_setInputState_events j w :
  j <> JNull ->
  Dispatch.setInputState (Some j) w =
    (Normal tt,
     with_events ((keyup <$> Dispatch.KEYS.all) ++ (keydown <$> keys_dispatched j)) w).
Proof.
  intros Hj. rewrite (Dispatch_setInputState_reads j Hj).
  unfold Dispatch.left, Dispatch.right, Dispatch.up, Dispatch.down.
  rewrite (bind_normal _ _ _ _ _ (Dispatch_releaseAllKeys_events w)).
  do 5 (erewrite bind_normal by apply Dispatch_when_pressKey).
  rewrite Dispatch_when_pressKey, !with_events_app.
  unfold keys_dispatched. by rewrite !fmap_app, <- ?app_assoc.
Qed.

Lemma Dispatch_setInputState_host j :
  j <> JNull -> touches_host_only (Dispatch.setInputState (Some j)).
Proof.
  intros H. apply touches_host_only_with_events. intros w. eexists.
  by apply Dispatch_setInputState_events.
Qed.

Lemma Dispatch_stopPlayback_events w :
  Dispatch.stopPlayback w =
    (Normal tt,
     {| tas := set_playbackIndex 0 (set_isPlaying false (tas w));
        store := store w;
        host := delivered (keyup <$> Dispatch.KEYS.all) (host w);
        console := console w ++
          [{| level := log; text := "[TAS] Playback stopped"; args := [] |}] |}).
Proof.
  unfold Dispatch.stopPlayback.
  cbv [mbind M_bind bind update say]. cbv beta iota.
  by rewrite Dispatch_releaseAllKeys_events.
Qed.

Lemma Dispatch_playbackFrame_array w l xs :
  _recording (tas w) = VArr l -> store w !! l = Some xs -> Forall playable xs ->
  exists b w',
    Dispatch.playbackFrame w = (Normal b, w') /\
    playback_step Dispatch_released xs w b w'.
Proof.
  intros Hr Hl Hp. unfold Dispatch.playbackFrame, playback_step.
  cbv [mbind M_bind bind mret M_ret ret this]. cbv beta iota.
  destruct (_isPlaying (tas w)) eqn:Hplay; cbn [negb]; [|by eexists _, _].
  rewrite Hr, (length_of_array _ _ _ Hl). cbv beta iota.
  rewrite counter_ge_length. cbv beta iota.
  destruct (length xs <=? _playbackIndex (tas w)) eqn:Hend.
  - rewrite Dispatch_stopPlayback_events.
    eexists _, _. split; [reflexivity|]. cbn [tas store host].
    repeat split; try done.
    exists (dispatched (host w)). apply dispatched_delivered.
  - apply Nat.leb_gt in Hend.
    rewrite (index_array _ _ _ _ Hl). cbv beta iota.
    destruct (lookup_lt_is_Some_2 xs _ Hend) as [j Hj]. rewrite Hj.
    assert (Hnn : j <> JNull).
    { eapply (Forall_lookup_1 playable); eauto. }
    rewrite (Dispatch_setInputState_events j w Hnn).
    eexists _, _. split; [reflexivity|]. cbn. rewrite Hplay.
    by repeat split.
Qed.

Lemma Dispatch_tick_not_recording f w :
  _isRecording (tas w) = false ->
  Dispatch.tick f w =
    (when (_isPlaying (tas w)) (Dispatch.playbackFrame;; mret tt))
      (set_host (f (host w)) w).
Proof. intros H. unfold Dispatch.tick. run. by rewrite H. Qed.

Lemma Dispatch_exhausts :
  ends_after_one_more_tick Dispatch.startPlayback Dispatch.tick Dispatch_released.
Proof.
  apply (exhaustion _ Dispatch.playbackFrame).
  - apply Dispatch_tick_not_recording.
  - apply Dispatch_playbackFrame_array.
  - by intros w w' h Hk Hrel.
  - apply Dispatch_startPlayback_array.
Qed.

(** ** Recording *)

Lemma Direct_recordFrame_bound w l xs :
  _isRecording (tas w) = true -> _inputManager (tas w) = true ->
  _recording (tas w) = VArr l -> store w !! l = Some xs ->
  Direct.recordFrame w =
    (Normal tt,
     {| tas := set_frameCount (S (_frameCount (tas w))) (tas w);
        store := <[l := xs ++ [flagged_record (Z.of_nat (_frameCount (tas w)))
                                 (slot (host w) 0) (slot (host w) 1)
                                 (slot (host w) 2) (slot (host w) 3)
                                 (slot (host w) 4) (slot (host w) 5)]]> (store w);
        host := host w; console := console w |}).
Proof.
  intros Hrec Him Hr Hl.
  unfold Direct.recordFrame, Direct.getInputState. run.
  rewrite Hrec. cbn. rewrite Him. cbn. rewrite Hr, (push_at _ _ _ _ Hl). by cbn.
Qed.

Lemma Dispatch_recordFrame_bound w l xs :
  _isRecording (tas w) = true -> _inputManager (tas w) = true ->
  _recording (tas w) = VArr l -> store w !! l = Some xs ->
  Dispatch.recordFrame w =
    (Normal tt,
     {| tas := set_frameCount (S (_frameCount (tas w))) (tas w);
        store := <[l := xs ++ [frame_record (Z.of_nat (_frameCount (tas w)))
                                 (slot (host w) 0) (slot (host w) 1)
                                 (slot (host w) 2) (slot (host w) 3)
                                 (slot (host w) 4) (slot (host w) 5)]]> (store w);
        host := host w; console := console w |}).
Proof.
  intros Hrec Him Hr Hl.
  unfold Dispatch.recordFrame, Dispatch.getInputState. run.
  rewrite Hrec. cbn. rewrite Him. cbn. rewrite Hr, (push_at _ _ _ _ Hl). by cbn.
Qed.

Lemma Direct_record_step : record_step Direct.recordFrame.
Proof.
  intros w l xs Hrec Him Hr Hl.
  rewrite (Direct_recordFrame_bound w l xs) by done.
  by eexists _, _.
Qed.

Lemma Dispatch_record_step : record_step Dispatch.recordFrame.
Proof.
  intros w l xs Hrec Him Hr Hl.
  rewrite (Dispatch_recordFrame_bound w l xs) by done.
  by eexists _, _.
Qed.

Lemma frames_count_up_snoc xs fields :
  frames_count_up xs ->
  assoc (jstr "frame") fields = Some (JInt (Z.of_nat (length xs))) ->
  frames_count_up (xs ++ [JObj fields]).
Proof.
  intros H Hf i Hi. rewrite length_app in Hi. cbn in Hi.
  destruct (decide (i < length xs)) as [Hlt|Hge].
  - destruct (H i Hlt) as (f & E & F). exists f. by rewrite lookup_app_l.
  - assert (i = length xs) as -> by lia.
    exists fields. by rewrite lookup_app_r, Nat.sub_diag by lia.
Qed.

Section Recording.
Variable tick : (Host -> Host) -> M unit.
Variable recordFrame : M unit.
Variable playbackFrame : M bool.
Variable released : World -> Host -> Prop.

Hypothesis tick_recording : forall f w,
  _isRecording (tas w) = true ->
  tick f w =
    (recordFrame;; s ← this; when (_isPlaying s) (playbackFrame;; mret tt))
      (set_host (f (host w)) w).

Hypothesis recordFrame_step : record_step recordFrame.

Hypothesis playbackFrame_array : forall w l xs,
  _recording (tas w) = VArr l -> store w !! l = Some xs -> Forall playable xs ->
  exists b w',
    playbackFrame w = (Normal b, w') /\ playback_step released xs w b w'.

Lemma tick_records_a_frame f l n w :
  recording_at l n w ->
  exists w', tick f w = (Normal tt, w') /\ recording_at l (S n) w'.
Proof using tick_recording recordFrame_step playbackFrame_array.
  intros (Hrec & Him & Hr & Hn & xs & Hl & Hlen & Hup & Hp).
  rewrite tick_recording by done.
  destruct (recordFrame_step (set_host (f (host w)) w) l xs)
    as (w1 & fields & E1 & S1 & T1 & F1); [done..|].
  rewrite (bind_normal _ _ _ _ _ E1). cbn in S1, T1, F1.
  assert (Hl1 : store w1 !! l = Some (xs ++ [JObj fields])).
  { rewrite S1. apply list_lookup_insert_eq. by eapply lookup_lt_Some. }
  assert (Hp1 : Forall playable (xs ++ [JObj fields])).
  { apply Forall_app. split; [done|]. by constructor. }
  assert (Hup1 : frames_count_up (xs ++ [JObj fields])).
  { apply frames_count_up_snoc; [done|]. by rewrite Hlen, <- Hn. }
  assert (Hinv1 : recording_at l (S n) w1).
  { unfold recording_at. rewrite T1. cbn. rewrite Hn.
    repeat split; try done.
    exists (xs ++ [JObj fields]). rewrite length_app. cbn.
    repeat split; try done. lia. }
  cbv [mbind M_bind bind this]. cbn.
  destruct (_isPlaying (tas w1)) eqn:Hplay; cbn; [|by exists w1].
  destruct (playbackFrame_array w1 l _ (proj1 (proj2 (proj2 Hinv1))) Hl1 Hp1)
    as (b & w' & E & Hs' & Hsame & _).
  rewrite E. exists w'. split; [done|].
  destruct Hinv1 as (? & ? & ? & ? & _).
  destruct Hsame as (? & ? & ? & ? & ? & ?).
  unfold recording_at. repeat split; try congruence.
  exists (xs ++ [JObj fields]). rewrite Hs'. rewrite length_app. cbn.
  repeat split; try done. lia.
Qed.

Lemma observe_records fs : forall l n w,
  recording_at l n w ->
  exists w',
    observe tick fs w = (Normal tt, w') /\ recording_at l (n + length fs) w'.
Proof using tick_recording recordFrame_step playbackFrame_array.
  induction fs as [|f fs IH]; intros l n w Hinv; cbn.
  - exists w. by rewrite Nat.add_0_r.
  - destruct (tick_records_a_frame f l n w Hinv) as (w1 & E1 & Hinv1).
    destruct (IH l (S n) w1 Hinv1) as (w' & E & Hinv').
    exists w'. rewrite (bind_normal _ _ _ _ _ E1). split; [done|].
    by replace (n + S (length fs)) with (S n + length fs) by lia.
Qed.
End Recording.

Lemma Direct_startRecording_bound w :
  _inputManager (tas w) = true ->
  exists w0,
    Direct.startRecording w = (Normal tt, w0) /\
    recording_at (length (store w)) 0 w0.
Proof.
  intros Him. unfold Direct.startRecording, Direct._hookGameTick. run.
  destruct (_tickHooked (tas w)) eqn:Hh; cbn; rewrite ?Hh; cbn;
    [|destruct (Vv_tick (host w)) eqn:Hv; cbn];
    eexists; (split; [reflexivity|]); unfold recording_at; cbn;
    (repeat split; try done); exists []; rewrite lookup_alloc;
    repeat split; try done; intros i Hi; cbn in Hi; lia.
Qed.

Lemma Dispatch_startRecording_bound w :
  _inputManager (tas w) = true ->
  exists w0,
    Dispatch.startRecording w = (Normal tt, w0) /\
    recording_at (length (store w)) 0 w0.
Proof.
  intros Him. unfold Dispatch.startRecording, Dispatch._hookGameTick. run.
  destruct (_tickHooked (tas w)) eqn:Hh; cbn; rewrite ?Hh; cbn;
    [|destruct (Vv_tick (host w)) eqn:Hv; cbn];
    eexists; (split; [reflexivity|]); unfold recording_at; cbn;
    (repeat split; try done); exists []; rewrite lookup_alloc;
    repeat split; try done; intros i Hi; cbn in Hi; lia.
Qed.

Lemma stopRecording_array (stopRecording : M value) t w l xs :
  stopRecording =
    (update (set_isRecording false);;
     s ← this;
     n ← length_of (_recording s);
     say log t [n];;
     slice (_recording s)) ->
  _recording (tas w) = VArr l -> store w !! l = Some xs ->
  exists l' w',
    stopRecording w = (Normal (VArr l'), w') /\
    store w' !! l' = Some xs /\ _isRecording (tas w') = false.
Proof.
  intros -> Hr Hl. run. rewrite Hr.
  erewrite length_of_array by (cbn; eassumption). cbn.
  erewrite slice_array by (cbn; eassumption). cbn.
  eexists _, _. split; [reflexivity|]. cbn. by rewrite lookup_alloc.
Qed.

Lemma Direct_tick_recording f w :
  _isRecording (tas w) = true ->
  Direct.tick f w =
    (Direct.recordFrame;;
     s ← this; when (_isPlaying s) (Direct.playbackFrame;; mret tt))
      (set_host (f (host w)) w).
Proof. intros H. unfold Direct.tick. run. by rewrite H. Qed.

Lemma Dispatch_tick_recording f w :
  _isRecording (tas w) = true ->
  Dispatch.tick f w =
    (Dispatch.recordFrame;;
     s ← this; when (_isPlaying s) (Dispatch.playbackFrame;; mret tt))
      (set_host (f (host w)) w).
Proof. intros H. unfold Dispatch.tick. run. by rewrite H. Qed.

Lemma Direct_records_every_tick :
  records_every_tick Direct.startRecording Direct.tick Direct.stopRecording.
Proof.
  intros w fs Him.
  destruct (Direct_startRecording_bound w Him) as (w0 & E0 & Hinv0).
  destruct (observe_records Direct.tick Direct.recordFrame Direct.playbackFrame
              Direct_released Direct_tick_recording Direct_record_step
              Direct_playbackFrame_array fs _ 0 w0 Hinv0) as (w1 & E1 & Hinv1).
  destruct Hinv1 as (_ & _ & Hr & _ & xs & Hl & Hlen & Hup & _).
  destruct (stopRecording_array Direct.stopRecording _ w1 _ xs eq_refl Hr Hl)
    as (l' & w' & E & Hl' & _).
  exists l', w', xs.
  rewrite (bind_normal _ _ _ _ _ E0), (bind_normal _ _ _ _ _ E1).
  by repeat split.
Qed.

Lemma Dispatch_records_every_tick :
  records_every_tick Dispatch.startRecording Dispatch.tick Dispatch.stopRecording.
Proof.
  intros w fs Him.
  destruct (Dispatch_startRecording_bound w Him) as (w0 & E0 & Hinv0).
  destruct (observe_records Dispatch.tick Dispatch.recordFrame Dispatch.playbackFrame
              Dispatch_released Dispatch_tick_recording Dispatch_record_step
              Dispatch_playbackFrame_array fs _ 0 w0 Hinv0) as (w1 & E1 & Hinv1).
  destruct Hinv1 as (_ & _ & Hr & _ & xs & Hl & Hlen & Hup & _).
  destruct (stopRecording_array Dispatch.stopRecording _ w1 _ xs eq_refl Hr Hl)
    as (l' & w' & E & Hl' & _).
  exists l', w', xs.
  rewrite (bind_normal _ _ _ _ _ E0), (bind_normal _ _ _ _ _ E1).
  by repeat split.
Qed.

(** ** Mutual exclusion *)

Lemma observe_keeps_not_recording tick playbackFrame released :
  (forall f w, _isRecording (tas w) = false ->
     tick f w =
       (when (_isPlaying (tas w)) (playbackFrame;; mret tt)) (set_host (f (host w)) w)) ->
  (forall w l xs,
     _recording (tas w) = VArr l -> store w !! l = Some xs -> Forall playable xs ->
     exists b w', playbackFrame w = (Normal b, w') /\ playback_step released xs w b w') ->
  forall fs w l xs,
    _isRecording (tas w) = false -> _recording (tas w) = VArr l ->
    store w !! l = Some xs -> Forall playable xs ->
    exists w', observe tick fs w = (Normal tt, w') /\ _isRecording (tas w') = false.
Proof.
  intros Htick Hframe fs.
  induction fs as [|f fs IH]; intros w l xs Hrec Hr Hl Hp; cbn [observe].
  - by exists w.
  - unfold mbind at 1, M_bind at 1, bind at 1. rewrite Htick by done.
    assert (exists w2, when (_isPlaying (tas w)) (playbackFrame;; mret tt)
                         (set_host (f (host w)) w) = (Normal tt, w2) /\
                       _isRecording (tas w2) = false /\
                       _recording (tas w2) = VArr l /\ store w2 !! l = Some xs)
      as (w2 & E2 & Hrec2 & Hr2 & Hl2).
    { destruct (_isPlaying (tas w)) eqn:Hplay; cbn; [|by eexists].
      destruct (Hframe (set_host (f (host w)) w) l xs)
        as (b & w2 & E & Hs2 & Hsame & _); [done..|].
      exists w2. rewrite (bind_normal _ _ _ _ _ E).
      destruct Hsame as (_ & _ & ? & ? & _). cbn in *.
      repeat split; congruence. }
    destruct (IH w2 l xs Hrec2 Hr2 Hl2 Hp) as (w' & E & H').
    exists w'. by rewrite E2.
Qed.

Lemma exclusion tick playbackFrame startPlayback released :
  (forall f w, _isRecording (tas w) = false ->
     tick f w =
       (when (_isPlaying (tas w)) (playbackFrame;; mret tt)) (set_host (f (host w)) w)) ->
  (forall w l xs,
     _recording (tas w) = VArr l -> store w !! l = Some xs -> Forall playable xs ->
     exists b w', playbackFrame w = (Normal b, w') /\ playback_step released xs w b w') ->
  (forall w l xs, store w !! l = Some xs -> xs <> [] ->
     exists w0, startPlayback (VArr l) w = (Normal tt, w0) /\ playing_from w l w0) ->
  playback_excludes_recording startPlayback tick.
Proof.
  intros Htick Hframe Hstart w l xs fs Hl Hne Hp.
  destruct (Hstart w l xs Hl Hne) as (w0 & E0 & Hfrom).
  destruct Hfrom as (Hr & Hplay & Hrec & Hi & _ & Hk & _ & Hs & _).
  assert (Hl0 : store w0 !! l = Some xs) by (by rewrite Hs).
  destruct (observe_keeps_not_recording tick playbackFrame released Htick Hframe
              fs w0 l xs Hrec Hr Hl0 Hp) as (w' & E & H').
  by exists w0, w'.
Qed.

Lemma Direct_excludes :
  playback_excludes_recording Direct.startPlayback Direct.tick.
Proof.
  apply (exclusion _ Direct.playbackFrame _ Direct_released).
  - apply Direct_tick_not_recording.
  - apply Direct_playbackFrame_array.
  - apply Direct_startPlayback_array.
Qed.

Lemma Dispatch_excludes :
  playback_excludes_recording Dispatch.startPlayback Dispatch.tick.
Proof.
  apply (exclusion _ Dispatch.playbackFrame _ Dispatch_released).
  - apply Dispatch_tick_not_recording.
  - apply Dispatch_playbackFrame_array.
  - apply Dispatch_startPlayback_array.
Qed.

(** ** The fields of a recorded frame *)

Lemma Direct_recordFrame_pushes : recordFrame_pushes Direct.recordFrame flagged_record.
Proof.
  intros w l xs Hrec Him Hr Hl.
  rewrite (Direct_recordFrame_bound w l xs) by done.
  eexists _, _, _, _, _, _, _. split; [reflexivity|]. cbn.
  apply list_lookup_insert_eq. by eapply lookup_lt_Some.
Qed.

Lemma Dispatch_recordFrame_pushes : recordFrame_pushes Dispatch.recordFrame frame_record.
Proof.
  intros w l xs Hrec Him Hr Hl.
  rewrite (Dispatch_recordFrame_bound w l xs) by done.
  eexists _, _, _, _, _, _, _. split; [reflexivity|]. cbn.
  apply list_lookup_insert_eq. by eapply lookup_lt_Some.
Qed.

(** ** Applying an input vector *)

Lemma press_app a b m : press (a ++ b) m = press b (press a m).
Proof. apply foldl_app. Qed.

Lemma lookup_press ks : forall (m : gmap N bool) k,
  press ks m !! k = if decide (k ∈ ks) then Some true else m !! k.
Proof.
  induction ks as [|k0 ks IH]; intros m k; cbn.
  - rewrite decide_False; [done|]. apply not_elem_of_nil.
  - fold (press ks (<[k0:=true]> m)). rewrite IH.
    destruct (decide (k ∈ ks)) as [Hin|Hnin].
    + rewrite decide_True; [done|]. by right.
    + destruct (decide (k = k0)) as [->|Hne].
      * rewrite lookup_insert_eq, decide_True; [done|]. by left.
      * rewrite lookup_insert_ne by done.
        rewrite decide_False; [done|]. by intros [?|?]%elem_of_cons.
Qed.

Lemma lookup_applied ks (ob : gmap N bool) k :
  applied ks ob !! k = Some true <-> k ∈ ks.
Proof.
  unfold applied. rewrite lookup_press, lookup_fmap.
  destruct (decide (k ∈ ks)); [done|].
  destruct (ob !! k); cbn; split; done.
Qed.

Lemma applied_applied ks (ob : gmap N bool) :
  applied ks (applied ks ob) = applied ks ob.
Proof.
  apply map_eq. intros k. unfold applied.
  rewrite !lookup_press, !lookup_fmap, lookup_press, lookup_fmap.
  destruct (decide (k ∈ ks)); [done|]. by destruct (ob !! k).
Qed.

Lemma set_host_same w : set_host (set_Ob (fun ob => ob) (host w)) w = w.
Proof. by destruct w as [t s [[dk [ob ea] v] ls ev] c]. Qed.

Lemma Direct_pressKey_bound k w :
  _keyboardHandler (tas w) = true ->
  Direct.pressKey k w = (Normal tt, set_host (set_Ob (press [k]) (host w)) w).
Proof. intros Hk. unfold Direct.pressKey. run. by rewrite Hk. Qed.

Lemma Direct_pressDirection_bound d w :
  _keyboardHandler (tas w) = true ->
  Direct.pressDirection d w =
    (Normal tt, set_host (set_Ob (press (key_pressed_for (host w) d)) (host w)) w).
Proof.
  intros Hk. unfold Direct.pressDirection, key_pressed_for.
  cbv [mbind M_bind bind this the_host]. cbn. rewrite Hk. cbn.
  match goal with
  | |- context [match ?x with Some _ => _ | None => _ end] =>
      destruct x as [[|k ks]|]
  end;
    try (by apply Direct_pressKey_bound);
    (destruct (Direct.fallbackKey d);
     [by apply Direct_pressKey_bound | cbn; by rewrite set_host_same]).
Qed.

Lemma Direct_releaseAllKeys_bound w :
  _keyboardHandler (tas w) = true ->
  Direct.releaseAllKeys w =
    (Normal tt, set_host (set_Ob (fmap (fun _ => false)) (host w)) w).
Proof. intros Hk. unfold Direct.releaseAllKeys. run. by rewrite Hk. Qed.

Lemma when_press (m : M unit) b ks w :
  m w = (Normal tt, set_host (set_Ob (press ks) (host w)) w) ->
  when b m w =
    (Normal tt, set_host (set_Ob (press (if b then ks else [])) (host w)) w).
Proof. intros H. destruct b; [done|]. cbn. by rewrite set_host_same. Qed.

Lemma set_Ob_twice f g w :
  set_host (set_Ob g (host (set_host (set_Ob f (host w)) w)))
    (set_host (set_Ob f (host w)) w)
  = set_host (set_Ob (fun ob => g (f ob)) (host w)) w.
Proof. done. Qed.

Lemma key_pressed_for_set_Ob f (h : Host) d :
  key_pressed_for (set_Ob f h) d = key_pressed_for h d.
Proof. done. Qed.

Lemma set_Ob_ext f g (h : Host) :
  f (Ob (Jc h)) = g (Ob (Jc h)) -> set_Ob f h = set_Ob g h.
Proof. intros H. unfold set_Ob. by rewrite H. Qed.

Lemma Direct_setInputState_bound j w :
  _keyboardHandler (tas w) = true -> j <> JNull ->
  Direct.setInputState (Some j) w =
    (Normal tt,
     set_host
       (set_Ob (applied (keys_pressed (host w) (reads j "left") (reads j "right")
                           (reads j "up") (reads j "down") (reads j "action")
                           (reads j "cancel")))
               (host w)) w).
Proof.
  intros Hk Hj. rewrite (Direct_setInputState_reads j Hj).
  unfold Direct.left, Direct.right, Direct.up, Direct.down, Direct.action,
    Direct.cancel.
  erewrite bind_normal by (by apply Direct_releaseAllKeys_bound).
  do 4 (erewrite bind_normal
          by (apply when_press; by apply Direct_pressDirection_bound);
        rewrite set_Ob_twice; cbn [host set_host]; rewrite key_pressed_for_set_Ob).
  erewrite bind_normal by (apply when_press; by apply Direct_pressKey_bound).
  rewrite set_Ob_twice.
  erewrite when_press by (by apply Direct_pressDirection_bound).
  rewrite set_Ob_twice. cbn [host set_host]. rewrite key_pressed_for_set_Ob.
  do 2 f_equal. apply set_Ob_ext.
  unfold keys_pressed, applied. by rewrite !press_app.
Qed.

Lemma reads_input_vector l r u d a c :
  reads (input_vector l r u d a c) "left" = l /\
  reads (input_vector l r u d a c) "right" = r /\
  reads (input_vector l r u d a c) "up" = u /\
  reads (input_vector l r u d a c) "down" = d /\
  reads (input_vector l r u d a c) "action" = a /\
  reads (input_vector l r u d a c) "cancel" = c.
Proof. by repeat split. Qed.

Lemma Direct_applies_vector w l r u d a c :
  _keyboardHandler (tas w) = true ->
  Direct.setInputState (Some (input_vector l r u d a c)) w =
    (Normal tt,
     set_host (set_Ob (applied (keys_pressed (host w) l r u d a c)) (host w)) w).
Proof. intros Hk. by rewrite Direct_setInputState_bound. Qed.

(** the key [setInputState] presses for a direction *)
Lemma elem_of_keys_pressed h l r u d a c k :
  k ∈ keys_pressed h l r u d a c <->
  exists dir, (dir < 6)%N /\ flag_of l r u d a c dir = true /\
    k ∈ (if (dir =? 4)%N then [13%N] else key_pressed_for h dir).
Proof.
  unfold keys_pressed. rewrite !elem_of_app. split.
  - intros [H|[H|[H|[H|[H|H]]]]].
    + exists 0%N. destruct l; [done|]. by apply elem_of_nil in H.
    + exists 1%N. destruct r; [done|]. by apply elem_of_nil in H.
    + exists 2%N. destruct u; [done|]. by apply elem_of_nil in H.
    + exists 3%N. destruct d; [done|]. by apply elem_of_nil in H.
    + exists 4%N. destruct a; [done|]. by apply elem_of_nil in H.
    + exists 5%N. destruct c; [done|]. by apply elem_of_nil in H.
  - intros (dir & Hlt & Hf & Hk).
    assert (dir = 0 \/ dir = 1 \/ dir = 2 \/ dir = 3 \/ dir = 4 \/ dir = 5)%N
      as [-> | [-> | [-> | [-> | [-> | ->]]]]] by lia;
      cbn in Hf, Hk; subst; tauto.
Qed.

Lemma fallbackKey_fallbackKeys dir k :
  Direct.fallbackKey dir = Some k -> k ∈ default [] (Direct.fallbackKeys dir).
Proof.
  unfold Direct.fallbackKey, Direct.fallbackKeys.
  intros H. repeat case_match; simplify_eq; cbn; by left.
Qed.

Lemma key_pressed_for_keys_of h dir k :
  k ∈ key_pressed_for h dir -> k ∈ keys_of h dir.
Proof.
  unfold key_pressed_for, keys_of.
  destruct (Ea (Jc h) ≫= _) as [[|k0 ks]|].
  - destruct (Direct.fallbackKey dir) eqn:E; [|by intros ?%elem_of_nil].
    intros ->%list_elem_of_singleton. by apply fallbackKey_fallbackKeys.
  - intros ->%list_elem_of_singleton. by left.
  - destruct (Direct.fallbackKey dir) eqn:E; [|by intros ?%elem_of_nil].
    intros ->%list_elem_of_singleton. by apply fallbackKey_fallbackKeys.
Qed.

Lemma key_pressed_for_nonempty h dir :
  (dir < 6)%N -> exists k, k ∈ key_pressed_for h dir.
Proof.
  intros Hlt. unfold key_pressed_for.
  destruct (Ea (Jc h) ≫= _) as [[|k0 ks]|].
  - assert (dir = 0 \/ dir = 1 \/ dir = 2 \/ dir = 3 \/ dir = 4 \/ dir = 5)%N
      as [-> | [-> | [-> | [-> | [-> | ->]]]]] by lia; cbn; eexists; by left.
  - exists k0. by left.
  - assert (dir = 0 \/ dir = 1 \/ dir = 2 \/ dir = 3 \/ dir = 4 \/ dir = 5)%N
      as [-> | [-> | [-> | [-> | [-> | ->]]]]] by lia; cbn; eexists; by left.
Qed.

Lemma flag_applied h ks dir :
  flag (set_Ob (applied ks) h) dir = true <->
  exists k, k ∈ keys_of h dir /\ k ∈ ks.
Proof.
  unfold flag. rewrite existsb_exists. cbn.
  change (keys_of (set_Ob (applied ks) h) dir) with (keys_of h dir).
  split.
  - intros (k & Hin & Hb). apply bool_decide_eq_true in Hb.
    apply lookup_applied in Hb. exists k. split; [|done].
    by apply list_elem_of_In.
  - intros (k & Hin & Hks). exists k. split; [by apply list_elem_of_In|].
    apply bool_decide_eq_true. by apply lookup_applied.
Qed.

Lemma Direct_applies_exactly : applies_exactly Direct.setInputState.
Proof.
  intros w l r u d a c Hk.
  rewrite (Direct_applies_vector w l r u d a c Hk).
  eexists. split; [reflexivity|]. cbn. split; [done|]. split; [done|]. split.
  - intros k. apply lookup_applied.
  - intros [H13 Hsep] dir Hdir.
    apply eq_true_iff_eq. rewrite flag_applied. split.
    + intros (k & Hin & Hks).
      apply elem_of_keys_pressed in Hks as (dir' & Hlt' & Hf & Hk').
      assert (k ∈ keys_of (host w) dir') as Hin'.
      { destruct (dir' =? 4)%N eqn:E4.
        - apply N.eqb_eq in E4 as ->.
          by apply list_elem_of_singleton in Hk' as ->.
        - by apply key_pressed_for_keys_of. }
      by rewrite (Hsep dir dir' k Hdir Hlt' Hin Hin').
    + intros Hf.
      destruct (dir =? 4)%N eqn:E4.
      * apply N.eqb_eq in E4 as ->. exists 13%N. split; [done|].
        apply elem_of_keys_pressed. exists 4%N. repeat split; [done|]. by left.
      * destruct (key_pressed_for_nonempty (host w) dir Hdir) as [k Hkp].
        exists k. split; [by apply key_pressed_for_keys_of|].
        apply elem_of_keys_pressed. exists dir. by rewrite E4.
Qed.

Lemma warns_only_bind (m k : M unit) :
  warns_only m -> warns_only k -> warns_only (m;; k).
Proof.
  intros Hm Hk w Hu. destruct (Hm w Hu) as (w1 & E1 & T1 & H1).
  destruct (Hk w1) as (w2 & E2 & T2 & H2); [congruence|].
  exists w2. rewrite (bind_normal _ _ _ _ _ E1). split; [done|]. split; congruence.
Qed.

Lemma warns_only_when b (m : M unit) : warns_only m -> warns_only (when b m).
Proof. intros Hm. destruct b; [done|]. intros w _. by exists w. Qed.

Lemma Direct_pressKey_unbound k : warns_only (Direct.pressKey k).
Proof. intros w Hu. unfold Direct.pressKey. run. rewrite Hu. by eexists. Qed.

Lemma Direct_pressDirection_unbound d : warns_only (Direct.pressDirection d).
Proof. intros w Hu. unfold Direct.pressDirection. run. rewrite Hu. by eexists. Qed.

Lemma Direct_releaseAllKeys_unbound : warns_only Direct.releaseAllKeys.
Proof. intros w Hu. unfold Direct.releaseAllKeys. run. rewrite Hu. by eexists. Qed.

Lemma Direct_setInputState_unbound j :
  j <> JNull -> warns_only (Direct.setInputState (Some j)).
Proof.
  intros H. rewrite (Direct_setInputState_reads j H).
  apply warns_only_bind; [apply Direct_releaseAllKeys_unbound|].
  repeat (apply warns_only_bind || apply warns_only_when);
    first [ apply Direct_pressDirection_unbound | apply Direct_pressKey_unbound ].
Qed.

Lemma Direct_applying_twice :
  applying_twice_is_applying_once Direct.setInputState.
Proof.
  intros w l r u d a c v.
  destruct (_keyboardHandler (tas w)) eqn:Hk.
  - subst v. rewrite (Direct_applies_vector w l r u d a c Hk).
    eexists _, _. split; [reflexivity|].
    rewrite Direct_applies_vector by done. split; [reflexivity|].
    cbn. unfold set_Ob, set_game. cbn. do 3 f_equal.
    change (keys_pressed _ l r u d a c) with (keys_pressed (host w) l r u d a c).
    apply applied_applied.
  - destruct (Direct_setInputState_unbound (input_vector l r u d a c)
                ltac:(done) w Hk) as (w1 & E1 & T1 & H1).
    destruct (Direct_setInputState_unbound (input_vector l r u d a c)
                ltac:(done) w1) as (w2 & E2 & T2 & H2); [congruence|].
    by exists w1, w2.
Qed.

Lemma fallback_separates (h : Host) : Ea (Jc h) = None -> key_map_separates h.
Proof.
  intros HEa. unfold key_map_separates, keys_of. rewrite HEa. cbn. split.
  - apply elem_of_cons. right. by left.
  - intros d d' k Hd Hd'.
    assert (d = 0 \/ d = 1 \/ d = 2 \/ d = 3 \/ d = 4 \/ d = 5)%N
      as [-> | [-> | [-> | [-> | [-> | ->]]]]] by lia;
    assert (d' = 0 \/ d' = 1 \/ d' = 2 \/ d' = 3 \/ d' = 4 \/ d' = 5)%N
      as [-> | [-> | [-> | [-> | [-> | ->]]]]] by lia;
    cbn; rewrite ?elem_of_cons, ?elem_of_nil; intros H1 H2; try done;
    exfalso; intuition congruence.
Qed.

(** ** The codec *)

Lemma stringify_array l :
  JSON.stringify (JArr l) = [91%N] ++ JSON.elements_text l ++ [93%N].
Proof. reflexivity. Qed.

Lemma stringify_object f :
  JSON.stringify (JObj f) = [123%N] ++ JSON.members_text f ++ [125%N].
Proof. reflexivity. Qed.

(** *** Numerals *)

Lemma read_uint_codes u rest :
  delimited rest -> JSON.read_uint (JSON.uint_codes u ++ rest) = (u, rest).
Proof.
  intros (c & r & -> & Hc).
  induction u; cbn; rewrite ?IHu; try done.
  by destruct Hc as [-> | [-> | ->]].
Qed.

Lemma to_uint_normal (a : N) :
  N.to_uint a <> Decimal.Nil /\
  forall u, N.to_uint a = Decimal.D0 u -> u = Decimal.Nil.
Proof.
  pose proof (DecimalN.Unsigned.to_of (N.to_uint a)) as H.
  rewrite DecimalN.Unsigned.of_to in H. rewrite H. split.
  - apply DecimalFacts.unorm_nonnil.
  - intros u Hu. unfold Decimal.unorm in Hu.
    destruct (Decimal.nzhead (N.to_uint a)) eqn:E; try done.
    + by inversion Hu.
    + by apply DecimalFacts.nzhead_nonzero in E.
Qed.

Lemma parse_number_integer (m : Z) rest :
  delimited rest ->
  JSON.parse_number (JSON.number_to_string m 0 ++ rest) = Some (JNum m 0, rest).
Proof.
  intros Hd. unfold JSON.number_to_string.
  set (a := Z.to_N (Z.abs m)).
  destruct (to_uint_normal a) as [Hnil Hzero].
  assert (Hval : forall neg : bool, neg = (m <? 0)%Z ->
            JSON.mk_num neg (Decimal.app (N.to_uint a) Decimal.Nil) (0 - Z.of_nat 0)
            = JNum m 0).
  { intros neg ->. unfold JSON.mk_num.
    rewrite DecimalFacts.app_nil_r, DecimalN.Unsigned.of_to. cbn.
    rewrite Z.mul_1_r. f_equal. subst a.
    destruct (m <? 0)%Z eqn:E; [apply Z.ltb_lt in E|apply Z.ltb_ge in E]; lia. }
  assert (Hrest : JSON.parse_fraction rest = Some (Decimal.Nil, rest) /\
                  JSON.parse_exponent rest = Some (0%Z, rest)).
  { destruct Hd as (c & r & -> & [-> | [-> | ->]]); by split. }
  destruct Hrest as [Hfrac Hexp].
  assert (Hbody : forall neg : bool, neg = (m <? 0)%Z ->
    (let (ip, s2) := JSON.read_uint (JSON.uint_codes (N.to_uint a) ++ rest) in
     match ip with
     | Decimal.Nil => None
     | Decimal.D0 (Decimal.D0 _ | Decimal.D1 _ | Decimal.D2 _ | Decimal.D3 _
                  | Decimal.D4 _ | Decimal.D5 _ | Decimal.D6 _ | Decimal.D7 _
                  | Decimal.D8 _ | Decimal.D9 _) => None
     | _ =>
         match JSON.parse_fraction s2 with
         | None => None
         | Some (fp, s3) =>
             match JSON.parse_exponent s3 with
             | None => None
             | Some (e, s4) =>
                 Some (JSON.mk_num neg (Decimal.app ip fp)
                         (e - Z.of_nat (Decimal.nb_digits fp)), s4)
             end
         end
     end) = Some (JNum m 0, rest)).
  { intros neg Hneg. rewrite (read_uint_codes _ _ Hd).
    destruct (N.to_uint a) as [|u|u|u|u|u|u|u|u|u|u] eqn:Eu; try done;
      try (rewrite Hfrac, Hexp; cbn [Decimal.nb_digits]; by rewrite Hval).
    assert (u = Decimal.Nil) as -> by (by apply Hzero).
    rewrite Hfrac, Hexp. cbn [Decimal.nb_digits]. by rewrite Hval. }
  unfold JSON.parse_number.
  destruct (m <? 0)%Z eqn:Hneg.
  - cbn [app]. change (45 =? 45)%N with true. cbv iota. by apply Hbody.
  - cbn [app].
    destruct (N.to_uint a) as [|u|u|u|u|u|u|u|u|u|u] eqn:Eu; try done;
      cbn [JSON.uint_codes app];
      match goal with
      | |- context [(?c =? 45)%N] => change (c =? 45)%N with false
      end; cbv iota;
      specialize (Hbody false eq_refl);
      cbn [JSON.uint_codes app] in Hbody; exact Hbody.
Qed.

(** *** Scalars *)

Lemma skip_ws_delimited rest : delimited rest -> JSON.skip_ws rest = rest.
Proof. by intros (c & r & -> & [-> | [-> | ->]]). Qed.

Lemma parse_value_scalar n v rest :
  scalar v = true -> delimited rest ->
  JSON.parse_value (S n) (JSON.stringify v ++ rest) = Some (v, rest).
Proof.
  intros Hv Hd. destruct v as [|[]|m [|k]| | |]; try done.
  - (* a number *)
    pose proof (parse_number_integer m rest Hd) as Hnum.
    cbn [JSON.stringify]. unfold JSON.number_to_string in *.
    destruct (to_uint_normal (Z.to_N (Z.abs m))) as [Hnil _].
    destruct (m <? 0)%Z; [exact Hnum|].
    destruct (N.to_uint (Z.to_N (Z.abs m))); try done; exact Hnum.
Qed.

(** *** Keys *)

Lemma plain_char_escape c : plain_char c = true -> JSON.escape c = [c].
Proof.
  unfold plain_char, JSON.escape, JSON.is_low_surrogate.
  rewrite !andb_true_iff, !negb_true_iff.
  intros [[[H32 Hsur] H34] H92].
  apply N.leb_le in H32. apply N.ltb_lt in Hsur.
  apply N.eqb_neq in H34. apply N.eqb_neq in H92.
  repeat match goal with
         | |- context [(c =? ?k)%N] =>
             rewrite (proj2 (N.eqb_neq c k)) by lia
         end.
  rewrite (proj2 (N.ltb_ge c 32)) by lia.
  by rewrite (proj2 (N.leb_gt 56320 c)) by lia.
Qed.

Lemma quote_chars_plain k :
  forallb plain_char k = true -> JSON.quote_chars k = k.
Proof.
  induction k as [|c k IH]; [done|]. cbn [forallb JSON.quote_chars].
  intros [Hc Hk]%andb_true_iff.
  assert (JSON.is_high_surrogate c = false) as ->.
  { unfold plain_char in Hc. unfold JSON.is_high_surrogate.
    rewrite !andb_true_iff in Hc. destruct Hc as [[[_ Hsur] _] _].
    apply N.ltb_lt in Hsur. by rewrite (proj2 (N.leb_gt 55296 c)) by lia. }
  by rewrite plain_char_escape, IH.
Qed.

Lemma parse_chars_plain k rest :
  forallb plain_char k = true ->
  JSON.parse_chars (k ++ 34%N :: rest) = Some (k, rest).
Proof.
  induction k as [|c k IH]; [done|]. cbn [forallb app JSON.parse_chars].
  intros [Hc Hk]%andb_true_iff. rewrite (IH Hk).
  unfold plain_char in Hc. rewrite !andb_true_iff, !negb_true_iff in Hc.
  destruct Hc as [[[H32 _] -> ] ->].
  apply N.leb_le in H32. by rewrite (proj2 (N.ltb_ge c 32)) by lia.
Qed.

(** *** Objects *)

Lemma define_new k v f :
  JSON.array_index k = None -> k ∉ f.*1 -> JSON.define k v f = f ++ [(k, v)].
Proof.
  intros Hi. induction f as [|[k' v'] f IH]; [done|]. cbn.
  intros Hnin. rewrite not_elem_of_cons in Hnin. destruct Hnin as [Hne Hnin].
  rewrite decide_False by done. rewrite Hi. by rewrite IH.
Qed.

Lemma object_of_flat f : flat_record (JObj f) -> JSON.object_of f = JObj f.
Proof.
  intros [Hnd Hall]. unfold JSON.object_of. f_equal.
  cut (forall acc, NoDup (acc.*1 ++ f.*1) ->
         fold_left (fun g kv => JSON.define kv.1 kv.2 g) f acc = acc ++ f).
  { intros H. by apply (H []). }
  clear Hnd. induction f as [|[k v] f IH]; intros acc Hnd; cbn.
  - by rewrite app_nil_r.
  - inversion Hall as [|? ? [Hk _] Hall']; subst. cbn in *.
    rewrite define_new.
    + rewrite IH; [by rewrite <- app_assoc|done|].
      rewrite fmap_app, <- app_assoc. done.
    + unfold plain_key in Hk. apply andb_true_iff in Hk as [_ Hk].
      by destruct (JSON.array_index k).
    + apply NoDup_app in Hnd as (_ & Hd & _). intros Hin.
      apply (Hd k Hin). by left.
Qed.

Lemma members_text_cons k v f :
  f <> [] ->
  JSON.members_text ((k, v) :: f) =
    JSON.quote k ++ [58%N] ++ JSON.stringify v ++ [44%N] ++ JSON.members_text f.
Proof. by destruct f. Qed.

Lemma parse_members_member pv n k v c tail :
  forallb plain_char k = true ->
  pv (JSON.stringify v ++ c :: tail) = Some (v, c :: tail) ->
  JSON.is_ws c = false ->
  JSON.parse_members pv (S n)
    (JSON.quote k ++ [58%N] ++ JSON.stringify v ++ c :: tail) =
    if (c =? 44)%N then
      match JSON.parse_members pv n tail with
      | Some (ms, r) => Some ((k, v) :: ms, r)
      | None => None
      end
    else if (c =? 125)%N then Some ([(k, v)], tail) else None.
Proof.
  intros Hk Hv Hc. unfold JSON.quote. rewrite (quote_chars_plain k Hk).
  replace ((34%N :: k ++ [34%N]) ++ [58%N] ++ JSON.stringify v ++ c :: tail)
    with (34%N :: k ++ 34%N :: 58%N :: JSON.stringify v ++ c :: tail)
    by (cbn; by rewrite <- app_assoc).
  cbn [JSON.parse_members JSON.skip_ws].
  change (JSON.is_ws 34) with false. cbv iota.
  change (34 =? 34)%N with true. cbv iota.
  rewrite (parse_chars_plain k _ Hk). cbn [JSON.skip_ws].
  change (JSON.is_ws 58) with false. cbv iota.
  change (58 =? 58)%N with true. cbv iota.
  rewrite Hv. cbn [JSON.skip_ws]. by rewrite Hc.
Qed.

Lemma parse_members_flat m f : forall n rest,
  f <> [] ->
  Forall (fun kv : jstring * json => plain_key kv.1 = true /\ scalar kv.2 = true) f ->
  length f <= n ->
  JSON.parse_members (JSON.parse_value (S m)) n
    (JSON.members_text f ++ 125%N :: rest) = Some (f, rest).
Proof.
  induction f as [|[k v] f IH]; intros n rest Hne Hall Hlen; [done|].
  inversion Hall as [|? ? [Hk Hv] Hall']; subst. cbn in Hk, Hv, Hlen.
  apply andb_true_iff in Hk as [Hk _].
  destruct n as [|n]; [lia|].
  destruct f as [|kv f].
  - cbn [JSON.members_text]. rewrite <- !app_assoc.
    rewrite parse_members_member; [done|done| |done].
    apply parse_value_scalar; [done|]. eexists _, _; eauto.
  - rewrite members_text_cons by done. rewrite <- !app_assoc.
    match goal with
    | |- context [[44%N] ++ ?t] => change ([44%N] ++ t) with (44%N :: t)
    end.
    rewrite parse_members_member; [|done| |done].
    + change (44 =? 44)%N with true. cbv iota.
      rewrite (IH n rest); [done|done|done|cbn in *; lia].
    + apply parse_value_scalar; [done|]. eexists _, _; eauto.
Qed.

Lemma parse_value_object n r :
  JSON.parse_value (S n) (123%N :: r) =
    match JSON.closing 125 (JSON.skip_ws r) with
    | Some r' => Some (JObj [], r')
    | None =>
        match JSON.parse_members (JSON.parse_value n) n r with
        | Some (ms, r') => Some (JSON.object_of ms, r')
        | None => None
        end
    end.
Proof. reflexivity. Qed.

Lemma parse_value_array n r :
  JSON.parse_value (S n) (91%N :: r) =
    match JSON.closing 93 (JSON.skip_ws r) with
    | Some r' => Some (JArr [], r')
    | None =>
        match JSON.parse_elements (JSON.parse_value n) n r with
        | Some (vs, r') => Some (JArr vs, r')
        | None => None
        end
    end.
Proof. reflexivity. Qed.

Lemma members_text_start f rest :
  f <> [] ->
  JSON.skip_ws (JSON.members_text f ++ rest) = JSON.members_text f ++ rest /\
  JSON.closing 125 (JSON.members_text f ++ rest) = None.
Proof. by destruct f as [|[k v] [|kv f]]. Qed.

Lemma parse_value_record f n rest :
  flat_record (JObj f) -> length f <= n ->
  JSON.parse_value (S (S n)) (JSON.stringify (JObj f) ++ rest) = Some (JObj f, rest).
Proof.
  intros Hflat Hlen. rewrite stringify_object, <- !app_assoc.
  change ([123%N] ++ ?t) with (123%N :: t). rewrite parse_value_object.
  destruct f as [|kv f]; [done|].
  destruct (members_text_start (kv :: f) ([125%N] ++ rest)) as [-> ->]; [done|].
  change ([125%N] ++ rest) with (125%N :: rest).
  rewrite parse_members_flat; [|done|apply Hflat|cbn in *; lia].
  by rewrite object_of_flat.
Qed.

(** *** Arrays of records *)

Lemma elements_text_cons x xs :
  xs <> [] ->
  JSON.elements_text (x :: xs) = JSON.stringify x ++ [44%N] ++ JSON.elements_text xs.
Proof. by destruct xs. Qed.

Lemma parse_elements_flat m xs : forall n rest,
  xs <> [] ->
  Forall flat_record xs ->
  Forall (fun x => match x with JObj f => length f <= m | _ => True end) xs ->
  length xs <= n ->
  JSON.parse_elements (JSON.parse_value (S (S m))) n
    (JSON.elements_text xs ++ 93%N :: rest) = Some (xs, rest).
Proof.
  induction xs as [|x xs IH]; intros n rest Hne Hflat Hsize Hlen; [done|].
  inversion Hflat as [|? ? Hx Hflat']; subst.
  inversion Hsize as [|? ? Hm Hsize']; subst.
  destruct x as [| | | | |f]; try done.
  destruct n as [|n]; [cbn in Hlen; lia|]. cbn [JSON.parse_elements].
  destruct xs as [|x' xs].
  - cbn [JSON.elements_text]. rewrite parse_value_record by done.
    by cbn.
  - rewrite elements_text_cons by done. rewrite <- !app_assoc.
    rewrite parse_value_record by done.
    cbn [app JSON.skip_ws]. change (JSON.is_ws 44) with false. cbv iota.
    change (44 =? 44)%N with true. cbv iota.
    rewrite (IH n rest); [done|done|done|done|cbn in *; lia].
Qed.

Lemma elements_text_start xs rest :
  xs <> [] -> Forall flat_record xs ->
  JSON.skip_ws (JSON.elements_text xs ++ rest) = JSON.elements_text xs ++ rest /\
  JSON.closing 93 (JSON.elements_text xs ++ rest) = None.
Proof.
  intros Hne Hflat. destruct xs as [|x xs]; [done|].
  inversion Hflat as [|? ? Hx _]; subst. destruct x; try done.
  by destruct xs.
Qed.

Lemma parse_value_records m xs n rest :
  Forall flat_record xs ->
  Forall (fun x => match x with JObj f => length f <= m | _ => True end) xs ->
  length xs <= n -> S m < n ->
  JSON.parse_value (S n) (JSON.stringify (JArr xs) ++ rest) = Some (JArr xs, rest).
Proof.
  intros Hflat Hsize Hlen Hm. rewrite stringify_array, <- !app_assoc.
  change ([91%N] ++ ?t) with (91%N :: t). rewrite parse_value_array.
  destruct xs as [|x xs]; [done|].
  destruct (elements_text_start (x :: xs) ([93%N] ++ rest)) as [-> ->]; [done..|].
  change ([93%N] ++ rest) with (93%N :: rest).
  destruct n as [|[|n]]; [lia..|].
  rewrite (parse_elements_flat n); [done|done|done| |done].
  eapply Forall_impl; [exact Hsize|]. intros [] ?; try done. lia.
Qed.

(** *** The fuel [JSON.parse] gives is enough *)

Lemma members_text_length f : length f <= length (JSON.members_text f).
Proof.
  induction f as [|[k v] f IH]; [done|].
  destruct f as [|kv f].
  - cbn [JSON.members_text]. unfold JSON.quote. cbn. lia.
  - rewrite members_text_cons by done. unfold JSON.quote.
    rewrite !length_app. cbn [length] in *. lia.
Qed.

Lemma elements_text_bound xs :
  Forall flat_record xs ->
  length xs <= length (JSON.elements_text xs) /\
  Forall (fun x => match x with
                   | JObj f => length f <= length (JSON.elements_text xs)
                   | _ => True
                   end) xs.
Proof.
  induction xs as [|x xs IH]; intros Hflat; [by split|].
  inversion Hflat as [|? ? Hx Hflat']; subst.
  destruct (IH Hflat') as [Hlen Hall].
  destruct x as [| | | | |f]; try done.
  pose proof (members_text_length f) as Hf.
  assert (Hx' : length (JSON.stringify (JObj f)) = 2 + length (JSON.members_text f)).
  { rewrite stringify_object, !length_app. cbn. lia. }
  destruct xs as [|x' xs].
  - cbn [JSON.elements_text]. rewrite Hx'. cbn [length]. split; [lia|].
    constructor; [lia|done].
  - rewrite elements_text_cons by done. rewrite !length_app, Hx'.
    cbn [length] in *. split; [lia|].
    constructor; [lia|].
    eapply Forall_impl; [exact Hall|]. intros [] ?; try done. cbn in *. lia.
Qed.

Lemma parse_stringify_records xs :
  Forall flat_record xs ->
  JSON.parse (JSON.stringify (JArr xs)) = Some (JArr xs).
Proof.
  intros Hflat. unfold JSON.parse.
  destruct (elements_text_bound xs Hflat) as [Hlen Hall].
  pose proof (parse_value_records (length (JSON.elements_text xs)) xs
                (length (JSON.stringify (JArr xs))) [] Hflat Hall) as H.
  rewrite app_nil_r in H. rewrite H; [done| |].
  - rewrite stringify_array, !length_app. cbn. lia.
  - rewrite stringify_array, !length_app. cbn. lia.
Qed.

Lemma frame_record_flat j : is_frame_record j -> flat_record j.
Proof.
  intros (n & l & r & u & d & a & c & ->). split.
  - cbn. apply (bool_decide_unpack _). by vm_compute.
  - repeat constructor.
Qed.

Lemma flagged_record_flat n l r u d a c : flat_record (flagged_record n l r u d a c).
Proof.
  split.
  - cbn. apply (bool_decide_unpack _). by vm_compute.
  - repeat constructor.
Qed.

(** *** The bound of the parser is never reached *)

Lemma skip_ws_length s : length (JSON.skip_ws s) <= length s.
Proof.
  induction s as [|c s IH]; [done|]. cbn [JSON.skip_ws].
  destruct (JSON.is_ws c); cbn [length]; lia.
Qed.

Lemma parse_chars_shrinks : shrinks JSON.parse_chars.
Proof.
  intros s. induction s as [s IH] using (induction_ltof1 _ (@length N)).
  unfold ltof in IH. intros k r H.
  destruct s as [|c s]; [done|]. cbn [JSON.parse_chars] in H.
  destruct (c =? 34)%N; [simplify_eq; cbn; lia|].
  destruct (c =? 92)%N.
  - destruct s as [|e s]; [done|].
    destruct (e =? 117)%N.
    + destruct s as [|h1 [|h2 [|h3 [|h4 s]]]]; try done.
      repeat case_match; simplify_eq.
      match goal with
      | E : JSON.parse_chars _ = Some _ |- _ => apply IH in E; cbn in *; lia
      end.
    + repeat case_match; simplify_eq.
      match goal with
      | E : JSON.parse_chars _ = Some _ |- _ => apply IH in E; cbn in *; lia
      end.
  - destruct (c <? 32)%N; [done|].
    repeat case_match; simplify_eq.
    match goal with
    | E : JSON.parse_chars _ = Some _ |- _ => apply IH in E; cbn in *; lia
    end.
Qed.

Lemma read_uint_length s u r :
  JSON.read_uint s = (u, r) ->
  length r <= length s /\ (u <> Decimal.Nil -> length r < length s).
Proof.
  revert u r. induction s as [|c s IH]; intros u r H; cbn in H.
  - by simplify_eq.
  - destruct (JSON.digit_cons c) as [d|] eqn:Ed.
    + destruct (JSON.read_uint s) as [u' r'] eqn:E. simplify_eq.
      destruct (IH u' r eq_refl) as [Hle _]. cbn. split; intros; lia.
    + by simplify_eq.
Qed.

Lemma parse_number_shrinks : shrinks JSON.parse_number.
Proof.
  intros s v r H. unfold JSON.parse_number in H.
  set (p := match s with
            | c :: r0 => if (c =? 45)%N then (true, r0) else (false, s)
            | [] => (false, s)
            end) in H.
  assert (Hp : length p.2 <= length s).
  { subst p. destruct s as [|c s]; [done|]. destruct (c =? 45)%N; cbn; lia. }
  destruct p as [neg s1]. cbn in Hp.
  destruct (JSON.read_uint s1) as [ip s2] eqn:E1.
  destruct (read_uint_length _ _ _ E1) as [_ Hlt].
  assert (Htail : forall fp s3 e s4,
            JSON.parse_fraction s2 = Some (fp, s3) ->
            JSON.parse_exponent s3 = Some (e, s4) -> length s4 <= length s2).
  { intros fp s3 e s4 Hf He.
    assert (length s3 <= length s2).
    { unfold JSON.parse_fraction in Hf. destruct s2 as [|c s2]; [by simplify_eq|].
      destruct (c =? 46)%N; [|by simplify_eq].
      destruct (JSON.read_uint s2) as [fp' r'] eqn:E.
      destruct (read_uint_length _ _ _ E) as [Hle _].
      destruct fp'; simplify_eq; cbn; lia. }
    assert (length s4 <= length s3); [|lia].
    unfold JSON.parse_exponent, JSON.parse_exp_digits in He.
    destruct s3 as [|c s3]; [by simplify_eq|].
    destruct ((c =? 101)%N || (c =? 69)%N); [|by simplify_eq].
    destruct s3 as [|c' s3]; [done|].
    repeat case_match; simplify_eq;
      match goal with
      | E : JSON.read_uint _ = _ |- _ =>
          apply read_uint_length in E as [? _]; cbn in *; lia
      end. }
  destruct ip; try done;
    repeat case_match; simplify_eq;
    (assert (length r <= length s2)
       by (eapply Htail; [first [reflexivity | eassumption] | eassumption]));
    specialize (Hlt ltac:(done)); lia.
Qed.

Lemma strip_prefix_length p : forall s r,
  JSON.strip_prefix p s = Some r -> length r <= length s.
Proof.
  induction p as [|a p IH]; intros s r H; cbn in H.
  - by simplify_eq.
  - destruct s as [|b s]; [done|]. destruct (a =? b)%N; [|done].
    apply IH in H. cbn. lia.
Qed.

Lemma closing_length b s r : JSON.closing b s = Some r -> length r < length s.
Proof.
  destruct s as [|c s]; [done|]. cbn. destruct (c =? b)%N; [|done].
  intros. simplify_eq. lia.
Qed.

Lemma skip_ws_cons s c r :
  JSON.skip_ws s = c :: r -> length r < length s.
Proof. intros H. pose proof (skip_ws_length s) as Hs. rewrite H in Hs. cbn in Hs. lia. Qed.

Lemma parse_elements_shrinks pv n :
  shrinks pv -> shrinks (JSON.parse_elements pv n).
Proof.
  intros Hpv. induction n as [|n IH]; intros s vs r H; [done|].
  cbn [JSON.parse_elements] in H.
  destruct (pv s) as [[v r1]|] eqn:E1; [|done]. apply Hpv in E1.
  destruct (JSON.skip_ws r1) as [|c r2] eqn:E2; [done|]. apply skip_ws_cons in E2.
  destruct (c =? 44)%N.
  - destruct (JSON.parse_elements pv n r2) as [[vs' r3]|] eqn:E3; [|done].
    apply IH in E3. simplify_eq. lia.
  - destruct (c =? 93)%N; [|done]. simplify_eq. lia.
Qed.

Lemma parse_members_shrinks pv n :
  shrinks pv -> shrinks (JSON.parse_members pv n).
Proof.
  intros Hpv. induction n as [|n IH]; intros s ms r H; [done|].
  cbn [JSON.parse_members] in H.
  destruct (JSON.skip_ws s) as [|c r0] eqn:E0; [done|]. apply skip_ws_cons in E0.
  destruct (c =? 34)%N; [|done].
  destruct (JSON.parse_chars r0) as [[k r1]|] eqn:E1; [|done].
  apply parse_chars_shrinks in E1.
  destruct (JSON.skip_ws r1) as [|c1 r2] eqn:E2; [done|]. apply skip_ws_cons in E2.
  destruct (c1 =? 58)%N; [|done].
  destruct (pv r2) as [[v r3]|] eqn:E3; [|done]. apply Hpv in E3.
  destruct (JSON.skip_ws r3) as [|c3 r4] eqn:E4; [done|]. apply skip_ws_cons in E4.
  destruct (c3 =? 44)%N.
  - destruct (JSON.parse_members pv n r4) as [[ms' r5]|] eqn:E5; [|done].
    apply IH in E5. simplify_eq. lia.
  - destruct (c3 =? 125)%N; [|done]. simplify_eq. lia.
Qed.

Lemma parse_value_shrinks n : shrinks (JSON.parse_value n).
Proof.
  induction n as [|n IH]; intros s v r H; [done|].
  cbn [JSON.parse_value] in H.
  destruct (JSON.skip_ws s) as [|c r0] eqn:E0; [done|].
  pose proof (skip_ws_length s) as Hs. rewrite E0 in Hs. cbn in Hs.
  destruct (c =? 91)%N.
  { pose proof (skip_ws_length r0).
    destruct (JSON.closing 93 (JSON.skip_ws r0)) as [r'|] eqn:Ec.
    - apply closing_length in Ec. simplify_eq. lia.
    - destruct (JSON.parse_elements (JSON.parse_value n) n r0) as [[vs r']|] eqn:E;
        [|done].
      apply (parse_elements_shrinks _ _ IH) in E. simplify_eq. lia. }
  destruct (c =? 123)%N.
  { pose proof (skip_ws_length r0).
    destruct (JSON.closing 125 (JSON.skip_ws r0)) as [r'|] eqn:Ec.
    - apply closing_length in Ec. simplify_eq. lia.
    - destruct (JSON.parse_members (JSON.parse_value n) n r0) as [[ms r']|] eqn:E;
        [|done].
      apply (parse_members_shrinks _ _ IH) in E. simplify_eq. lia. }
  destruct (c =? 34)%N.
  { destruct (JSON.parse_chars r0) as [[str r']|] eqn:E; [|done].
    apply parse_chars_shrinks in E. simplify_eq. lia. }
  destruct ((c =? 45)%N || JSON.is_digit c).
  { apply parse_number_shrinks in H. cbn in H. lia. }
  repeat case_match; simplify_eq;
    match goal with
    | E : JSON.strip_prefix _ _ = Some _ |- _ =>
        apply strip_prefix_length in E; lia
    end.
Qed.

Lemma agree_le {A} L L' (pv1 pv2 : jstring -> option (A * jstring)) :
  L' <= L -> agree L pv1 pv2 -> agree L' pv1 pv2.
Proof. intros Hle H s Hs. apply H. lia. Qed.

Lemma parse_elements_bound pv1 pv2 n1 : forall n2 s,
  shrinks pv1 -> agree (length s) pv1 pv2 ->
  length s < n1 -> length s < n2 ->
  JSON.parse_elements pv1 n1 s = JSON.parse_elements pv2 n2 s.
Proof.
  induction n1 as [|n1 IH]; intros n2 s Hpv Hag H1 H2; [lia|].
  destruct n2 as [|n2]; [lia|]. cbn [JSON.parse_elements].
  rewrite <- (Hag s) by done.
  destruct (pv1 s) as [[v r1]|] eqn:E1; [|done]. apply Hpv in E1.
  destruct (JSON.skip_ws r1) as [|c r2] eqn:E2; [done|]. apply skip_ws_cons in E2.
  destruct (c =? 44)%N; [|done].
  rewrite (IH n2 r2); [done|done| |lia|lia].
  eapply agree_le; [|exact Hag]. lia.
Qed.

Lemma parse_members_bound pv1 pv2 n1 : forall n2 s,
  shrinks pv1 -> agree (length s) pv1 pv2 ->
  length s < n1 -> length s < n2 ->
  JSON.parse_members pv1 n1 s = JSON.parse_members pv2 n2 s.
Proof.
  induction n1 as [|n1 IH]; intros n2 s Hpv Hag H1 H2; [lia|].
  destruct n2 as [|n2]; [lia|]. cbn [JSON.parse_members].
  destruct (JSON.skip_ws s) as [|c r0] eqn:E0; [done|]. apply skip_ws_cons in E0.
  destruct (c =? 34)%N; [|done].
  destruct (JSON.parse_chars r0) as [[k r1]|] eqn:E1; [|done].
  apply parse_chars_shrinks in E1.
  destruct (JSON.skip_ws r1) as [|c1 r2] eqn:E2; [done|]. apply skip_ws_cons in E2.
  destruct (c1 =? 58)%N; [|done].
  rewrite <- (Hag r2) by lia.
  destruct (pv1 r2) as [[v r3]|] eqn:E3; [|done]. apply Hpv in E3.
  destruct (JSON.skip_ws r3) as [|c3 r4] eqn:E4; [done|]. apply skip_ws_cons in E4.
  destruct (c3 =? 44)%N; [|done].
  rewrite (IH n2 r4); [done|done| |lia|lia].
  eapply agree_le; [|exact Hag]. lia.
Qed.

(** Any two bounds above the length of the text give the same result:
    a [None] of [JSON.parse] is a syntax error, never a bound reached. *)
Lemma parse_value_bound n1 : forall n2 s,
  length s < n1 -> length s < n2 ->
  JSON.parse_value n1 s = JSON.parse_value n2 s.
Proof.
  induction n1 as [|n1 IH]; intros n2 s H1 H2; [lia|].
  destruct n2 as [|n2]; [lia|]. cbn [JSON.parse_value].
  destruct (JSON.skip_ws s) as [|c r0] eqn:E0; [done|]. apply skip_ws_cons in E0.
  assert (Hag : agree (length r0) (JSON.parse_value n1) (JSON.parse_value n2)).
  { intros s' Hs'. apply IH; lia. }
  rewrite (parse_elements_bound _ (JSON.parse_value n2) n1 n2 r0);
    [|apply parse_value_shrinks|done|lia|lia].
  rewrite (parse_members_bound _ (JSON.parse_value n2) n1 n2 r0);
    [|apply parse_value_shrinks|done|lia|lia].
  done.
Qed.

Lemma parse_any_bound n s :
  length s < n ->
  JSON.parse s =
    match JSON.parse_value n s with
    | Some (v, r) => match JSON.skip_ws r with [] => Some v | _ :: _ => None end
    | None => None
    end.
Proof.
  intros H. unfold JSON.parse. by rewrite (parse_value_bound (S (length s)) n s) by lia.
Qed.

(** ** Export, then import *)

Lemma Direct_import_array_text w text xs :
  JSON.parse text = Some (JArr xs) ->
  exists w',
    Direct.importRecording (VStr text) w = (Normal true, w') /\
    _recording (tas w') = VArr (length (store w)) /\
    store w' = store w ++ [xs].
Proof.
  intros Hp. unfold Direct.importRecording, JSON_parse. rewrite Hp. run.
  erewrite length_of_array by (cbn; apply lookup_alloc). cbn.
  by eexists.
Qed.

Lemma Dispatch_import_array_text w text xs :
  JSON.parse text = Some (JArr xs) ->
  exists w',
    Dispatch.importRecording (VStr text) w = (Normal true, w') /\
    _recording (tas w') = VArr (length (store w)) /\
    store w' = store w ++ [xs].
Proof.
  intros Hp. unfold Dispatch.importRecording, JSON_parse. rewrite Hp. run.
  erewrite length_of_array by (cbn; apply lookup_alloc). cbn.
  by eexists.
Qed.

Lemma Direct_export_import :
  export_import_restores Direct.exportRecording Direct.importRecording.
Proof.
  intros w l xs Hrec Hr Hl.
  assert (Hflat : Forall flat_record xs).
  { eapply Forall_impl; [exact Hrec|]. apply frame_record_flat. }
  exists (JSON.stringify (JArr xs)).
  split; [by eapply exportRecording_array|].
  split; [by apply parse_stringify_records|].
  intros w1.
  destruct (Direct_import_array_text w1 _ xs (parse_stringify_records xs Hflat))
    as (w2 & E & Hr2 & Hs2).
  exists (length (store w1)), w2. split; [done|]. split; [done|].
  rewrite Hs2. apply lookup_alloc.
Qed.

Lemma Dispatch_export_import :
  export_import_restores Dispatch.exportRecording Dispatch.importRecording.
Proof.
  intros w l xs Hrec Hr Hl.
  assert (Hflat : Forall flat_record xs).
  { eapply Forall_impl; [exact Hrec|]. apply frame_record_flat. }
  exists (JSON.stringify (JArr xs)).
  split; [by eapply exportRecording_array|].
  split; [by apply parse_stringify_records|].
  intros w1.
  destruct (Dispatch_import_array_text w1 _ xs (parse_stringify_records xs Hflat))
    as (w2 & E & Hr2 & Hs2).
  exists (length (store w1)), w2. split; [done|]. split; [done|].
  rewrite Hs2. apply lookup_alloc.
Qed.

(** ** What a tick of a playback does to the game *)

Lemma Direct_playbackFrame_frame w l xs j :
  _isPlaying (tas w) = true -> _recording (tas w) = VArr l ->
  store w !! l = Some xs -> xs !! _playbackIndex (tas w) = Some j ->
  j <> JNull -> _keyboardHandler (tas w) = true ->
  exists w',
    Direct.playbackFrame w = (Normal true, w') /\
    host w' = Direct_frame_applied j (host w).
Proof.
  intros Hplay Hr Hl Hj Hnn Hk. unfold Direct.playbackFrame. run.
  rewrite Hplay. cbn.
  rewrite Hr, (length_of_array _ _ _ Hl). cbn. rewrite counter_ge_length. cbn.
  rewrite (proj2 (Nat.leb_gt _ _) (lookup_lt_Some _ _ _ Hj)). cbn.
  rewrite (index_array _ _ _ _ Hl). cbn. rewrite Hj.
  rewrite (Direct_setInputState_bound j w Hk Hnn). cbn.
  by eexists.
Qed.

Lemma Dispatch_playbackFrame_frame w l xs j :
  _isPlaying (tas w) = true -> _recording (tas w) = VArr l ->
  store w !! l = Some xs -> xs !! _playbackIndex (tas w) = Some j ->
  j <> JNull ->
  exists w',
    Dispatch.playbackFrame w = (Normal true, w') /\
    host w' = Dispatch_frame_applied j (host w).
Proof.
  intros Hplay Hr Hl Hj Hnn. unfold Dispatch.playbackFrame. run.
  rewrite Hplay. cbn.
  rewrite Hr, (length_of_array _ _ _ Hl). cbn. rewrite counter_ge_length. cbn.
  rewrite (proj2 (Nat.leb_gt _ _) (lookup_lt_Some _ _ _ Hj)). cbn.
  rewrite (index_array _ _ _ _ Hl). cbn. rewrite Hj.
  rewrite (Dispatch_setInputState_events j w Hnn). cbn.
  by eexists.
Qed.

Lemma frame_applied_by_tick startPlayback tick playbackFrame released
    (bound : Session -> Prop) frame_applied :
  (forall f w, _isRecording (tas w) = false ->
     tick f w =
       (when (_isPlaying (tas w)) (playbackFrame;; mret tt)) (set_host (f (host w)) w)) ->
  (forall w l xs,
     _recording (tas w) = VArr l -> store w !! l = Some xs -> Forall playable xs ->
     exists b w', playbackFrame w = (Normal b, w') /\ playback_step released xs w b w') ->
  (forall w l xs, store w !! l = Some xs -> xs <> [] ->
     exists w0, startPlayback (VArr l) w = (Normal tt, w0) /\ playing_from w l w0) ->
  (forall s s', _keyboardHandler s' = _keyboardHandler s -> bound s -> bound s') ->
  (forall w l xs j,
     _isPlaying (tas w) = true -> _recording (tas w) = VArr l ->
     store w !! l = Some xs -> xs !! _playbackIndex (tas w) = Some j ->
     j <> JNull -> bound (tas w) ->
     exists w', playbackFrame w = (Normal true, w') /\
                host w' = frame_applied j (host w)) ->
  tick_applies_its_frame startPlayback tick bound frame_applied.
Proof.
  intros Htick Hframe Hstart Hbound Happly w l xs fs f j Hl Hp Hb Hj.
  assert (Hne : xs <> []) by (by intros ->).
  destruct (Hstart w l xs Hl Hne) as (w0 & E0 & Hfrom).
  destruct Hfrom as (Hr & Hplay & Hrec & Hi & _ & Hk & _ & Hs & _).
  assert (Hl0 : store w0 !! l = Some xs) by (by rewrite Hs).
  assert (Hinv : playing_at l w0 0 w0) by (by repeat split).
  destruct (observe_plays tick playbackFrame released Htick Hframe l xs w0 Hl0 Hp
              fs 0 w0 Hinv) as (w1 & E1 & Hinv1).
  { apply lookup_lt_Some in Hj. cbn. lia. }
  destruct Hinv1 as (Hs1 & Hr1 & Hrec1 & Hplay1 & Hi1 & Hk1).
  destruct (Happly (set_host (f (host w1)) w1) l xs j) as (w' & E & Hh);
    cbn; try done.
  - congruence.
  - by rewrite Hi1.
  - eapply (Forall_lookup_1 playable); eauto.
  - eapply Hbound; [|exact Hb]. congruence.
  - exists w0, w1, w'. split; [done|]. split; [done|].
    rewrite (Htick f w1 Hrec1), Hplay1. cbn [when].
    by rewrite (bind_normal _ _ _ _ _ E).
Qed.

Lemma Direct_applies_its_frame :
  tick_applies_its_frame Direct.startPlayback Direct.tick handler_bound
    Direct_frame_applied.
Proof.
  apply (frame_applied_by_tick _ _ Direct.playbackFrame Direct_released).
  - apply Direct_tick_not_recording.
  - apply Direct_playbackFrame_array.
  - apply Direct_startPlayback_array.
  - unfold handler_bound. congruence.
  - intros. by eapply Direct_playbackFrame_frame.
Qed.

Lemma Dispatch_applies_its_frame :
  tick_applies_its_frame Dispatch.startPlayback Dispatch.tick any_session
    Dispatch_frame_applied.
Proof.
  apply (frame_applied_by_tick _ _ Dispatch.playbackFrame Dispatch_released).
  - apply Dispatch_tick_not_recording.
  - apply Dispatch_playbackFrame_array.
  - apply Dispatch_startPlayback_array.
  - done.
  - intros. by eapply Dispatch_playbackFrame_frame.
Qed.

Lemma exhaustion_with_frames startPlayback tick bound frame_applied released :
  ends_after_one_more_tick startPlayback tick released ->
  tick_applies_its_frame startPlayback tick bound frame_applied ->
  exhausts_after_one_more_tick startPlayback tick bound frame_applied released.
Proof.
  intros Hend Happly w l xs Hl Hne Hp.
  destruct (Hend w l xs Hl Hne Hp) as (w0 & E0 & Hfs).
  exists w0. split; [done|]. intros fs Hlen.
  destruct (Hfs fs Hlen) as (w' & E & Hplay & Hidle).
  exists w'. split; [done|]. split; [done|]. split; [|done].
  intros fs' f -> Hle Hb.
  rewrite length_app in Hle. cbn in Hle.
  destruct (lookup_lt_is_Some_2 xs (length fs')) as [j Hj]; [lia|].
  destruct (Happly w l xs fs' f j Hl Hp Hb Hj)
    as (w0' & w1 & w2 & E0' & E1 & Et & Hh).
  rewrite E0 in E0'. injection E0' as <-.
  exists w1, j. split; [done|]. split; [done|].
  rewrite (observe_app _ _ _ _ _ E1) in E. cbn in E.
  rewrite (bind_normal _ _ _ _ _ Et) in E. by injection E as <-.
Qed.

(** * The claims *)

(** C1 (as amended). After [startPlayback(S)] for a non-empty sequence [S]
    of frame records, every observed tick up to the [length S]-th runs the
    game's tick, applies the next frame of [S] to what the game left, and
    leaves the session playing with the cursor at the number of ticks
    seen; so [length S - 1] ticks leave the cursor at [length S - 1] and
    [length S] ticks leave it at [length S], still playing, with the last
    frame applied.  Applying a frame is, in [part_000] with the keyboard
    handler bound: every key of the pressed-key map up, then the keys of
    the frame's truthy flags down; in [tas.js]: a [keyup] for every key of
    [KEYS] and then a [keydown] for every truthy flag of the frame, each
    dispatched to the page's listeners.  The tick after the [length S]-th
    finds the sequence exhausted: it leaves the session idle with the
    cursor at 0 and the keys released (in [part_000]: every key of the
    host's pressed-key map is up, when the keyboard handler is bound; in
    [tas.js]: a [keyup] was dispatched for every key of [KEYS]). *)
Theorem playback_exhaustion :
  exhausts_after_one_more_tick Direct.startPlayback Direct.tick
    handler_bound Direct_frame_applied Direct_released /\
  exhausts_after_one_more_tick Dispatch.startPlayback Dispatch.tick
    any_session Dispatch_frame_applied Dispatch_released.
Proof.
  split.
  - apply exhaustion_with_frames;
      [apply Direct_exhausts | apply Direct_applies_its_frame].
  - apply exhaustion_with_frames;
      [apply Dispatch_exhausts | apply Dispatch_applies_its_frame].
Qed.

Lemma playback_exhaustion_witness :
  store one_frame_world !! 1 = Some [left_frame] /\
  [left_frame] <> [] /\ Forall playable [left_frame] /\
  exists w0,
    Direct.startPlayback (VArr 1) one_frame_world = (Normal tt, w0) /\
    forall fs : list (Host -> Host),
      length fs <= 2 ->
      exists w',
        observe Direct.tick fs w0 = (Normal tt, w') /\
        (length fs <= 1 ->
           _isPlaying (tas w') = true /\ _playbackIndex (tas w') = length fs) /\
        (forall fs' f,
           fs = fs' ++ [f] -> length fs <= 1 ->
           handler_bound (tas one_frame_world) ->
           exists w1 j,
             observe Direct.tick fs' w0 = (Normal tt, w1) /\
             [left_frame] !! length fs' = Some j /\
             host w' = Direct_frame_applied j (f (host w1))) /\
        (length fs = 2 ->
           idle (tas w') /\ _playbackIndex (tas w') = 0 /\
           Direct_released one_frame_world (host w')).
Proof.
  assert (H1 : store one_frame_world !! 1 = Some [left_frame]) by reflexivity.
  assert (H2 : [left_frame] <> []) by discriminate.
  assert (H3 : Forall playable [left_frame])
    by (repeat constructor; discriminate).
  split; [exact H1|]. split; [exact H2|]. split; [exact H3|].
  exact (proj1 playback_exhaustion one_frame_world 1 [left_frame] H1 H2 H3).
Defined.

(** C1 (as stated) fails: after [startPlayback] of a one-frame sequence
    and exactly one tick the session is still playing, the cursor is 1 and
    the frame's key is down (in [tas.js]: the last event is its
    [keydown]). *)
Lemma playback_still_running_after_last_frame :
  let direct :=
    (Direct.startPlayback (VArr 1);; observe Direct.tick [fun h => h])
      one_frame_world in
  let dispatch :=
    (Dispatch.startPlayback (VArr 1);; observe Dispatch.tick [fun h => h])
      one_frame_world in
  (direct.1 = Normal tt /\
   _isPlaying (tas direct.2) = true /\ _playbackIndex (tas direct.2) = 1 /\
   Ob (Jc (host direct.2)) !! 37%N = Some true) /\
  (dispatch.1 = Normal tt /\
   _isPlaying (tas dispatch.2) = true /\ _playbackIndex (tas dispatch.2) = 1 /\
   last (dispatched (host dispatch.2)) = Some (keydown 37)).
Proof. by vm_compute. Qed.

(** C2, the earlier copy in [tas.js] (lines 805-815): its [startPlayback]
    does not assign [_isRecording], so called while recording it leaves
    the session both recording and playing. *)
Theorem Legacy_startPlayback_leaves_recording_on :
  forall (w : World) (l : loc) (xs : list json),
    _isRecording (tas w) = true ->
    store w !! l = Some xs -> xs <> [] ->
    exists w0,
      Legacy.startPlayback (VArr l) w = (Normal tt, w0) /\
      _isPlaying (tas w0) = true /\ _isRecording (tas w0) = true.
Proof.
  intros w l xs Hrec Hl Hne.
  rewrite (Legacy_startPlayback_array w l xs Hl Hne).
  eexists. split; [reflexivity|]. by split.
Qed.

Lemma Legacy_startPlayback_leaves_recording_on_witness :
  let w := (Legacy.startRecording one_frame_world).2 in
  _isRecording (tas w) = true /\ store w !! 1 = Some [left_frame] /\
  [left_frame] <> [] /\
  exists w0,
    Legacy.startPlayback (VArr 1) w = (Normal tt, w0) /\
    _isPlaying (tas w0) = true /\ _isRecording (tas w0) = true.
Proof.
  assert (H1 : _isRecording (tas (Legacy.startRecording one_frame_world).2) = true)
    by reflexivity.
  assert (H2 : store (Legacy.startRecording one_frame_world).2 !! 1
               = Some [left_frame]) by reflexivity.
  assert (H3 : [left_frame] <> []) by discriminate.
  split; [exact H1|]. split; [exact H2|]. split; [exact H3|].
  exact (Legacy_startPlayback_leaves_recording_on _ 1 [left_frame] H1 H2 H3).
Defined.

(** The two copies with a tick hook do keep the modes apart: their
    [startPlayback] ends recording, and no later tick turns it on. *)
Lemma playback_ends_recording :
  playback_stops_recording Direct.startPlayback /\
  playback_stops_recording Dispatch.startPlayback /\
  playback_excludes_recording Direct.startPlayback Direct.tick /\
  playback_excludes_recording Dispatch.startPlayback Dispatch.tick.
Proof.
  repeat split;
    [ apply Direct_playback_stops_recording
    | apply Dispatch_playback_stops_recording
    | apply Direct_excludes | apply Dispatch_excludes ].
Qed.

(** C3 (as amended). When the input manager is bound, [startRecording()]
    followed by exactly N observed ticks and [stopRecording()] returns a
    sequence of exactly N records whose [frame] fields are 0, 1, ..., N-1
    in order. *)
Theorem recording_counts_ticks :
  records_every_tick Direct.startRecording Direct.tick Direct.stopRecording /\
  records_every_tick Dispatch.startRecording Dispatch.tick Dispatch.stopRecording.
Proof.
  split; [apply Direct_records_every_tick | apply Dispatch_records_every_tick].
Qed.

Lemma recording_counts_ticks_witness :
  _inputManager (tas (game_ready quiet_host)) = true /\
  exists l w' xs,
    (Direct.startRecording;;
     observe Direct.tick [fun h => h; fun h => h];;
     Direct.stopRecording) (game_ready quiet_host) = (Normal (VArr l), w') /\
    store w' !! l = Some xs /\
    length xs = 2 /\
    frames_count_up xs.
Proof.
  assert (H : _inputManager (tas (game_ready quiet_host)) = true) by reflexivity.
  split; [exact H|].
  exact (proj1 recording_counts_ticks (game_ready quiet_host)
           [fun h => h; fun h => h] H).
Defined.

(** C3 (as stated) fails: before the input manager is bound, a tick
    observed while recording adds no record, and the frame counter still
    goes up. *)
Lemma unbound_recording_skips_the_frame :
  let direct :=
    (Direct.startRecording;; observe Direct.tick [fun h => h];;
     Direct.stopRecording) (page_load quiet_host) in
  let dispatch :=
    (Dispatch.startRecording;; observe Dispatch.tick [fun h => h];;
     Dispatch.stopRecording) (page_load quiet_host) in
  (direct.1 = Normal (VArr 2) /\ store direct.2 !! 2 = Some [] /\
   _frameCount (tas direct.2) = 1) /\
  (dispatch.1 = Normal (VArr 2) /\ store dispatch.2 !! 2 = Some [] /\
   _frameCount (tas dispatch.2) = 1).
Proof. by vm_compute. Qed.

(** C4. For every sequence of frame records held as the recording,
    [exportRecording()] returns a text that [JSON.parse] decodes to the
    same sequence, and [importRecording] of that text stores a sequence
    equal to it, record for record and field for field. *)
Theorem export_then_import_restores :
  export_import_restores Direct.exportRecording Direct.importRecording /\
  export_import_restores Dispatch.exportRecording Dispatch.importRecording.
Proof. split; [apply Direct_export_import | apply Dispatch_export_import]. Qed.

Lemma export_then_import_restores_witness :
  Forall is_frame_record [left_frame] /\
  _recording (tas stored_world) = VArr 1 /\
  store stored_world !! 1 = Some [left_frame] /\
  exists text,
    Direct.exportRecording stored_world = (Normal (VStr text), stored_world) /\
    JSON.parse text = Some (JArr [left_frame]) /\
    forall w1 : World,
      exists l' w2,
        Direct.importRecording (VStr text) w1 = (Normal true, w2) /\
        _recording (tas w2) = VArr l' /\
        store w2 !! l' = Some [left_frame].
Proof.
  assert (H1 : Forall is_frame_record [left_frame]).
  { repeat constructor. by eexists _, _, _, _, _, _, _. }
  assert (H2 : _recording (tas stored_world) = VArr 1) by reflexivity.
  assert (H3 : store stored_world !! 1 = Some [left_frame]) by reflexivity.
  split; [exact H1|]. split; [exact H2|]. split; [exact H3|].
  exact (proj1 export_then_import_restores stored_world 1 [left_frame] H1 H2 H3).
Defined.




(** C6 (as amended). For every string on which [JSON.parse] throws,
    [startPlayback] returns after one [console.error] and
    [importRecording] returns [false] after one [console.error]; neither
    throws, and both leave the session, the store and the host as they
    were. *)
Theorem syntax_error_leaves_state :
  syntax_errors_leave_state Direct.startPlayback Direct.importRecording /\
  syntax_errors_leave_state Dispatch.startPlayback Dispatch.importRecording.
Proof. split; [apply Direct_syntax_errors | apply Dispatch_syntax_errors]. Qed.

Lemma syntax_error_leaves_state_witness :
  JSON.parse (jstr "[") = None /\
  (exists w',
     Direct.startPlayback (VStr (jstr "[")) stored_world = (Normal tt, w') /\
     same_state stored_world w' /\ reported error stored_world w') /\
  (exists w',
     Direct.importRecording (VStr (jstr "[")) stored_world = (Normal false, w') /\
     same_state stored_world w' /\ reported error stored_world w').
Proof.
  assert (H : JSON.parse (jstr "[") = None) by reflexivity.
  split; [exact H|].
  exact (proj1 syntax_error_leaves_state stored_world (jstr "[") H).
Defined.

(** C6 (as stated) fails on a text that is JSON but not the JSON of a
    sequence: [importRecording("null")] reports a failure and has already
    replaced the stored sequence by [null]; [startPlayback("null")] reports
    nothing and starts playing the stored sequence. *)
Lemma null_text_changes_the_session :
  let imported := Direct.importRecording (VStr (jstr "null")) stored_world in
  let started := Dispatch.startPlayback (VStr (jstr "null")) stored_world in
  ~ decodes_as_sequence (jstr "null") /\
  (imported.1 = Normal false /\
   _recording (tas stored_world) = VArr 1 /\
   _recording (tas imported.2) = VNull) /\
  (started.1 = Normal tt /\
   _isPlaying (tas stored_world) = false /\
   _isPlaying (tas started.2) = true /\
   Forall (fun e => level e = log) (console started.2)).
Proof.
  split.
  - intros [xs H]. vm_compute in H. discriminate.
  - vm_compute. repeat split; repeat constructor.
Qed.

(** C7 (as amended). With the keyboard handler bound, [setInputState(v)]
    leaves the host's pressed-key map with exactly the keys it presses for
    [v] down (for each direction set in [v] the first key mapped to it, and
    Enter (13) for [action]) and every other key up, whatever was down
    before; when the key map gives distinct directions disjoint keys and
    maps Enter to the action slot, as the fallback tables do, the six
    flags read off the map are exactly those of [v].  In every state,
    applying [v] twice leaves the host as applying it once does. *)
Theorem setInputState_applies_the_vector :
  applies_exactly Direct.setInputState /\
  applying_twice_is_applying_once Direct.setInputState.
Proof. split; [apply Direct_applies_exactly | apply Direct_applying_twice]. Qed.

Lemma setInputState_applies_the_vector_witness :
  let w := game_ready left_down_host in
  _keyboardHandler (tas w) = true /\ key_map_separates (host w) /\
  exists w',
    Direct.setInputState (Some (input_vector false true false false true false)) w
      = (Normal tt, w') /\
    tas w' = tas w /\ store w' = store w /\
    (forall k, Ob (Jc (host w')) !! k = Some true <->
               k ∈ keys_pressed (host w) false true false false true false) /\
    (key_map_separates (host w) ->
     forall d, (d < 6)%N ->
       flag (host w') d = flag_of false true false false true false d).
Proof.
  assert (H : _keyboardHandler (tas (game_ready left_down_host)) = true)
    by reflexivity.
  split; [exact H|]. split; [by apply fallback_separates|].
  exact (proj1 setInputState_applies_the_vector (game_ready left_down_host)
           false true false false true false H).
Defined.

(** C7 (as stated) fails: before the keyboard handler is bound,
    [setInputState] of the all-released vector leaves a key that is down
    down; and with a key map that gives Space alone to the action slot,
    the vector with [action] set leaves the action flag down. *)
Lemma setInputState_can_miss_the_vector :
  let unbound := Direct.setInputState (Some no_input) (page_load left_down_host) in
  let remapped :=
    Direct.setInputState (Some (input_vector false false false false true false))
      (game_ready space_only_host) in
  (unbound.1 = Normal tt /\
   flag (host unbound.2) DIRECTION.LEFT = true /\
   flag_of false false false false false false DIRECTION.LEFT = false) /\
  (remapped.1 = Normal tt /\
   flag (host remapped.2) DIRECTION.ACTION = false /\
   flag_of false false false false true false DIRECTION.ACTION = true).
Proof. by vm_compute. Qed.

(** C9 (as amended). Every record [recordFrame] appends holds the frame
    index and the six boolean input fields [left], [right], [up], [down],
    [action], [cancel]; in [tas.js] these seven keys are all, in
    [part_000] the record carries an eighth, the boolean [hasInput], true
    when one of the six is.  Playback does not check the records it is
    given: [setInputState] returns for any value but [null], leaving the
    TAS object and the store as they are, and reads the six input fields
    by truth value, a missing field, and every field of a value that is
    not an object, counting as released.  The flags so read decide what it
    does: in [part_000], with the keyboard handler bound, every key of the
    pressed-key map is set up and the keys of the flags read as true are
    set down; in [tas.js] a [keyup] is dispatched for every key of [KEYS]
    and then a [keydown] for every flag read as true. *)
Theorem recorded_frame_fields :
  recordFrame_pushes Dispatch.recordFrame frame_record /\
  recordFrame_pushes Direct.recordFrame flagged_record /\
  (forall frame left right up down action cancel,
     keys (frame_record frame left right up down action cancel) = frame_keys /\
     keys (flagged_record frame left right up down action cancel)
       = frame_keys ++ [jstr "hasInput"]) /\
  (forall j, playable j ->
     touches_host_only (Direct.setInputState (Some j)) /\
     touches_host_only (Dispatch.setInputState (Some j))) /\
  (forall (j : json) (k : string),
     reads j k =
       match j with
       | JObj fields =>
           match assoc (jstr k) fields with
           | Some v => truthy v
           | None => false
           end
       | _ => false
       end) /\
  (forall j w, playable j ->
     (_keyboardHandler (tas w) = true ->
      Direct.setInputState (Some j) w =
        (Normal tt,
         set_host
           (set_Ob (applied (keys_pressed (host w) (reads j "left")
                               (reads j "right") (reads j "up") (reads j "down")
                               (reads j "action") (reads j "cancel")))
              (host w)) w)) /\
     Dispatch.setInputState (Some j) w =
       (Normal tt,
        set_host
          (delivered ((keyup <$> Dispatch.KEYS.all) ++
                      (keydown <$> keys_dispatched j)) (host w)) w)).
Proof.
  split; [apply Dispatch_recordFrame_pushes|].
  split; [apply Direct_recordFrame_pushes|].
  split; [done|].
  split.
  { intros j Hj. split;
      [by apply Direct_setInputState_host | by apply Dispatch_setInputState_host]. }
  split.
  { intros j k. by destruct j. }
  intros j w Hj. split.
  - intros Hk. by apply Direct_setInputState_bound.
  - by apply Dispatch_setInputState_events.
Qed.

Lemma recorded_frame_fields_witness :
  let w := (Direct.startRecording (game_ready quiet_host)).2 in
  _isRecording (tas w) = true /\ _inputManager (tas w) = true /\
  _recording (tas w) = VArr 1 /\ store w !! 1 = Some [] /\
  exists w' left right up down action cancel,
    Direct.recordFrame w = (Normal tt, w') /\
    store w' !! 1 =
      Some ([] ++ [flagged_record (Z.of_nat (_frameCount (tas w)))
                     left right up down action cancel]).
Proof.
  set (w := (Direct.startRecording (game_ready quiet_host)).2).
  assert (H1 : _isRecording (tas w) = true) by reflexivity.
  assert (H2 : _inputManager (tas w) = true) by reflexivity.
  assert (H3 : _recording (tas w) = VArr 1) by reflexivity.
  assert (H4 : store w !! 1 = Some []) by reflexivity.
  split; [exact H1|]. split; [exact H2|]. split; [exact H3|]. split; [exact H4|].
  exact (proj1 (proj2 recorded_frame_fields) w 1 [] H1 H2 H3 H4).
Defined.

(** C9 (as stated) fails: the record that [recordFrame] of [part_000]
    appends has an eighth key, [hasInput]; and playback takes a record
    that has none of the six fields. *)
Lemma recorded_frame_has_hasInput :
  let recorded :=
    (Direct.startRecording;; Direct.tick (fun h => h)) (game_ready quiet_host) in
  let played :=
    Direct.setInputState (Some (JObj [])) (game_ready quiet_host) in
  (recorded.1 = Normal tt /\
   fmap (M := list) keys <$> (store recorded.2 !! 1)
     = Some [frame_keys ++ [jstr "hasInput"]]) /\
  played.1 = Normal tt.
Proof. by vm_compute. Qed.

(** C10. A successful [startPlayback(S)] for a non-empty sequence [S]
    makes [S] itself the stored recording, whatever was stored before:
    right after it [getRecording()] returns a sequence with the contents
    of [S] and [exportRecording()] returns the JSON text of [S]. *)
Theorem startPlayback_replaces_the_recording :
  playback_replaces_recording Direct.startPlayback Direct.getRecording
    Direct.exportRecording /\
  playback_replaces_recording Dispatch.startPlayback Dispatch.getRecording
    Dispatch.exportRecording /\
  playback_replaces_recording Legacy.startPlayback Legacy.getRecording
    Legacy.exportRecording.
Proof.
  split; [apply Direct_playback_replaces|].
  split; [apply Dispatch_playback_replaces | apply Legacy_playback_replaces].
Qed.

Lemma startPlayback_replaces_the_recording_witness :
  store one_frame_world !! 1 = Some [left_frame] /\ [left_frame] <> [] /\
  exists w0,
    Direct.startPlayback (VArr 1) one_frame_world = (Normal tt, w0) /\
    _recording (tas w0) = VArr 1 /\ store w0 = store one_frame_world /\
    (exists l' w1,
       Direct.getRecording w0 = (Normal (VArr l'), w1) /\
       store w1 !! l' = Some [left_frame]) /\
    Direct.exportRecording w0
      = (Normal (VStr (JSON.stringify (JArr [left_frame]))), w0).
Proof.
  assert (H1 : store one_frame_world !! 1 = Some [left_frame]) by reflexivity.
  assert (H2 : [left_frame] <> []) by discriminate.
  split; [exact H1|]. split; [exact H2|].
  exact (proj1 startPlayback_replaces_the_recording one_frame_world 1
           [left_frame] H1 H2).
Defined.

(** * Further properties *)

(** ** Playback by hand *)

Section ByHand.
Variable playbackFrame : M bool.
Variable released : World -> Host -> Prop.
Variable fit : World -> Prop.

Hypothesis playbackFrame_array : forall w l xs,
  fit w ->
  _recording (tas w) = VArr l -> store w !! l = Some xs -> Forall playable xs ->
  exists b w',
    playbackFrame w = (Normal b, w') /\ playback_step released xs w b w' /\ fit w'.

Context (l : loc) (xs : list json).
Hypothesis playable_xs : Forall playable xs.

Lemma calls_when_stopped n : forall w,
  fit w -> _recording (tas w) = VArr l -> store w !! l = Some xs ->
  _isPlaying (tas w) = false ->
  calls playbackFrame n w = (Normal (replicate n false), w).
Proof using playbackFrame_array playable_xs.
  induction n as [|n IH]; intros w Hfit Hr Hl Hp; [done|].
  cbn [calls].
  destruct (playbackFrame_array w l xs Hfit Hr Hl playable_xs)
    as (b & w' & E & (_ & _ & Hstep) & _).
  rewrite Hp in Hstep. destruct Hstep as [-> ->].
  rewrite (bind_normal _ _ _ _ _ E), (bind_normal _ _ _ _ _ (IH w Hfit Hr Hl Hp)).
  done.
Qed.

Lemma calls_while_playing n : forall i w,
  fit w -> _recording (tas w) = VArr l -> store w !! l = Some xs ->
  _isPlaying (tas w) = true -> _playbackIndex (tas w) = i -> i <= length xs ->
  exists w',
    calls playbackFrame n w
      = (Normal (replicate (n `min` (length xs - i)) true ++
                 replicate (n - (length xs - i)) false), w') /\
    _isPlaying (tas w') = bool_decide (i + n <= length xs) /\
    _playbackIndex (tas w') = (if bool_decide (i + n <= length xs) then i + n else 0).
Proof using playbackFrame_array playable_xs.
  induction n as [|n IH]; intros i w Hfit Hr Hl Hp Hi Hle.
  - exists w. cbn. rewrite Nat.add_0_r.
    rewrite bool_decide_eq_true_2 by done. by rewrite Hp.
  - cbn [calls].
    destruct (playbackFrame_array w l xs Hfit Hr Hl playable_xs)
      as (b & w1 & E & (Hs & Hsame & Hstep) & Hfit1).
    rewrite Hp, Hi in Hstep. rewrite (bind_normal _ _ _ _ _ E).
    destruct Hsame as (_ & _ & Hr1 & _).
    assert (Hl1 : store w1 !! l = Some xs) by congruence.
    assert (Hr1' : _recording (tas w1) = VArr l) by congruence.
    destruct (length xs <=? i) eqn:Hend.
    + apply Nat.leb_le in Hend. assert (i = length xs) as -> by lia.
      destruct Hstep as (-> & Hp1 & Hi1 & _).
      rewrite (bind_normal _ _ _ _ _
                 (calls_when_stopped n w1 Hfit1 Hr1' Hl1 Hp1)).
      exists w1. rewrite Nat.sub_diag, Nat.min_0_r, Nat.sub_0_r. cbn.
      rewrite bool_decide_eq_false_2 by lia. done.
    + apply Nat.leb_gt in Hend. destruct Hstep as (-> & Hp1 & Hi1).
      destruct (IH (S i) w1 Hfit1 Hr1' Hl1 Hp1 Hi1) as (w' & E' & Hp' & Hi');
        [lia|].
      rewrite (bind_normal _ _ _ _ _ E'). exists w'.
      replace (S i + n) with (i + S n) in * by lia.
      split; [|done]. cbn. do 2 f_equal.
      replace (length xs - i) with (S (length xs - S i)) by lia.
      cbn. done.
Qed.
End ByHand.

Lemma keeps_key_map_bind (m k : M unit) :
  keeps_key_map m -> keeps_key_map k -> keeps_key_map (m;; k).
Proof.
  intros Hm Hk w Hw. destruct (Hm w Hw) as (w1 & E1 & T1 & S1 & K1).
  destruct (Hk w1) as (w2 & E2 & T2 & S2 & K2).
  { unfold no_empty_mapping. rewrite K1. exact Hw. }
  exists w2. rewrite (bind_normal _ _ _ _ _ E1). repeat split; congruence.
Qed.

Lemma keeps_key_map_when b (m : M unit) : keeps_key_map m -> keeps_key_map (when b m).
Proof. intros Hm. destruct b; [done|]. intros w _. by exists w. Qed.

Lemma Legacy_pressKey_keeps k : keeps_key_map (Legacy.pressKey k).
Proof.
  intros w _. unfold Legacy.pressKey. run.
  destruct (_keyboardHandler (tas w)); cbn; by eexists.
Qed.

Lemma Legacy_releaseAllKeys_keeps : keeps_key_map Legacy.releaseAllKeys.
Proof.
  intros w _. unfold Legacy.releaseAllKeys. run.
  destruct (_keyboardHandler (tas w)); cbn; by eexists.
Qed.

Lemma Legacy_pressDirection_keeps d : keeps_key_map (Legacy.pressDirection d).
Proof.
  intros w Hw. unfold Legacy.pressDirection.
  cbv [mbind M_bind bind this the_host]. cbn.
  destruct (_keyboardHandler (tas w)) eqn:Hk; cbn; [|by eexists].
  destruct (Ea (Jc (host w))) as [keyMappings|] eqn:HEa; cbn; [|by exists w].
  destruct (keyMappings !! d) as [[|k ks]|] eqn:Hd; cbn.
  - by destruct (Hw keyMappings d).
  - rewrite <- HEa. by apply Legacy_pressKey_keeps.
  - by exists w.
Qed.

Lemma Legacy_setInputState_reads (j : json) :
  j <> JNull ->
  Legacy.setInputState (Some j) =
    (Legacy.releaseAllKeys;;
     when (reads j "left") Legacy.left;;
     when (reads j "right") Legacy.right;;
     when (reads j "up") Legacy.up;;
     when (reads j "down") Legacy.down;;
     when (reads j "action") Legacy.action;;
     when (reads j "cancel") Legacy.cancel).
Proof. intros H. by destruct j. Qed.

Lemma Legacy_setInputState_keeps j :
  j <> JNull -> keeps_key_map (Legacy.setInputState (Some j)).
Proof.
  intros H. rewrite (Legacy_setInputState_reads j H).
  apply keeps_key_map_bind; [apply Legacy_releaseAllKeys_keeps|].
  repeat (apply keeps_key_map_bind || apply keeps_key_map_when);
    apply Legacy_pressDirection_keeps.
Qed.

Lemma Legacy_playbackFrame_array w l xs :
  no_empty_mapping (host w) ->
  _recording (tas w) = VArr l -> store w !! l = Some xs -> Forall playable xs ->
  exists b w',
    Legacy.playbackFrame w = (Normal b, w') /\
    playback_step Direct_released xs w b w' /\ no_empty_mapping (host w').
Proof.
  intros Hfit Hr Hl Hp. unfold Legacy.playbackFrame, playback_step. run.
  destruct (_isPlaying (tas w)) eqn:Hplay; cbn; [|by eexists _, _].
  rewrite Hr, (length_of_array _ _ _ Hl). cbn. rewrite counter_ge_length. cbn.
  destruct (length xs <=? _playbackIndex (tas w)) eqn:Hend; cbn.
  - apply Nat.leb_le in Hend.
    unfold Legacy.stopPlayback, Legacy.releaseAllKeys. run.
    destruct (_keyboardHandler (tas w)) eqn:Hk; cbn;
      eexists _, _; (split; [reflexivity|]); cbn; rewrite ?Hr;
      (split; [|done]); repeat split; try done.
    + intros _. apply all_released_fmap.
    + intros ?. congruence.
  - apply Nat.leb_gt in Hend.
    rewrite (index_array _ _ _ _ Hl). cbn.
    destruct (lookup_lt_is_Some_2 xs _ Hend) as [j Hj]. rewrite Hj.
    assert (Hnn : j <> JNull).
    { eapply (Forall_lookup_1 playable); eauto. }
    destruct (Legacy_setInputState_keeps j Hnn w Hfit) as (w1 & E1 & T1 & S1 & K1).
    rewrite E1. cbn.
    eexists _, _. split; [reflexivity|]. cbn. rewrite T1, Hplay.
    split; [by repeat split|]. unfold no_empty_mapping. cbn. rewrite K1. exact Hfit.
Qed.

Lemma by_hand startPlayback playbackFrame released fit :
  (forall w l xs,
     fit w ->
     _recording (tas w) = VArr l -> store w !! l = Some xs -> Forall playable xs ->
     exists b w',
       playbackFrame w = (Normal b, w') /\ playback_step released xs w b w' /\ fit w') ->
  (forall w l xs, store w !! l = Some xs -> xs <> [] ->
     exists w0,
       startPlayback (VArr l) w = (Normal tt, w0) /\
       _recording (tas w0) = VArr l /\ _isPlaying (tas w0) = true /\
       _playbackIndex (tas w0) = 0 /\ store w0 = store w /\ host w0 = host w) ->
  (forall w w', host w' = host w -> fit w -> fit w') ->
  plays_by_hand startPlayback playbackFrame fit.
Proof.
  intros Hframe Hstart Hfit w l xs n Hl Hne Hp Hw.
  destruct (Hstart w l xs Hl Hne) as (w0 & E0 & Hr & Hplay & Hi & Hs & Hh).
  rewrite (bind_normal _ _ _ _ _ E0).
  destruct (calls_while_playing playbackFrame released fit Hframe l xs Hp n 0 w0)
    as (w' & E & Hp' & Hi'); try done.
  - by apply (Hfit w).
  - by rewrite Hs.
  - lia.
  - exists w'. rewrite Nat.sub_0_r in E. by rewrite E.
Qed.

Lemma Direct_plays_by_hand :
  plays_by_hand Direct.startPlayback Direct.playbackFrame (fun _ => True).
Proof.
  apply (by_hand _ _ Direct_released); [| |done].
  - intros w l xs _ Hr Hl Hp.
    destruct (Direct_playbackFrame_array w l xs Hr Hl Hp) as (b & w' & ? & ?).
    by exists b, w'.
  - intros w l xs Hl Hne.
    destruct (Direct_startPlayback_array w l xs Hl Hne) as (w0 & E & H).
    exists w0. unfold playing_from in H. tauto.
Qed.

Lemma Dispatch_plays_by_hand :
  plays_by_hand Dispatch.startPlayback Dispatch.playbackFrame (fun _ => True).
Proof.
  apply (by_hand _ _ Dispatch_released); [| |done].
  - intros w l xs _ Hr Hl Hp.
    destruct (Dispatch_playbackFrame_array w l xs Hr Hl Hp) as (b & w' & ? & ?).
    by exists b, w'.
  - intros w l xs Hl Hne.
    destruct (Dispatch_startPlayback_array w l xs Hl Hne) as (w0 & E & H).
    exists w0. unfold playing_from in H. tauto.
Qed.

Lemma Legacy_plays_by_hand :
  plays_by_hand Legacy.startPlayback Legacy.playbackFrame
    (fun w => no_empty_mapping (host w)).
Proof.
  apply (by_hand _ _ Direct_released).
  - apply Legacy_playbackFrame_array.
  - intros w l xs Hl Hne. rewrite (Legacy_startPlayback_array w l xs Hl Hne).
    eexists. split; [reflexivity|]. by cbn.
  - intros w w' Hh. by rewrite Hh.
Qed.

(** X1. Playback driven by hand: after [startPlayback(S)] for a non-empty
    sequence [S] of frames none of which is [null], [n] calls of
    [playbackFrame()] return [true] for the first [length S] of them and
    [false] for the others; the session is playing, with the cursor at
    [n], as long as [n] is at most [length S], and is stopped, with the
    cursor at 0, after that.  In the earlier copy of [tas.js] this holds
    on a host whose key map has no direction with an empty array of
    keys. *)
Theorem playbackFrame_returns_true_once_per_frame :
  plays_by_hand Direct.startPlayback Direct.playbackFrame (fun _ => True) /\
  plays_by_hand Dispatch.startPlayback Dispatch.playbackFrame (fun _ => True) /\
  plays_by_hand Legacy.startPlayback Legacy.playbackFrame
    (fun w => no_empty_mapping (host w)).
Proof.
  split; [apply Direct_plays_by_hand|].
  split; [apply Dispatch_plays_by_hand | apply Legacy_plays_by_hand].
Qed.

Lemma playbackFrame_returns_true_once_per_frame_witness :
  store one_frame_world !! 1 = Some [left_frame] /\
  [left_frame] <> [] /\ Forall playable [left_frame] /\
  no_empty_mapping (host one_frame_world) /\
  exists w',
    (Legacy.startPlayback (VArr 1);; calls Legacy.playbackFrame 3) one_frame_world
      = (Normal (replicate (3 `min` 1) true ++ replicate (3 - 1) false), w') /\
    _isPlaying (tas w') = bool_decide (3 <= 1) /\
    _playbackIndex (tas w') = (if bool_decide (3 <= 1) then 3 else 0).
Proof.
  assert (H1 : store one_frame_world !! 1 = Some [left_frame]) by reflexivity.
  assert (H2 : [left_frame] <> []) by discriminate.
  assert (H3 : Forall playable [left_frame])
    by (repeat constructor; discriminate).
  assert (H4 : no_empty_mapping (host one_frame_world)) by (intros m d; discriminate).
  split; [exact H1|]. split; [exact H2|]. split; [exact H3|]. split; [exact H4|].
  exact (proj2 (proj2 playbackFrame_returns_true_once_per_frame)
           one_frame_world 1 [left_frame] 3 H1 H2 H3 H4).
Defined.

(** ** A frame that is [null] *)

Lemma Legacy_releaseAllKeys_host : touches_host_only Legacy.releaseAllKeys.
Proof.
  intros w. unfold Legacy.releaseAllKeys. run.
  destruct (_keyboardHandler (tas w)); cbn; by eexists.
Qed.

Ltac null_frame_step release :=
  intros w l xs Hplay Hr Hl Hnull; run; rewrite Hplay; cbn;
  rewrite Hr, (length_of_array _ _ _ Hl); cbn; rewrite counter_ge_length; cbn;
  assert (Hlt : _playbackIndex (tas w) < length xs) by (by eapply lookup_lt_Some);
  rewrite (proj2 (Nat.leb_gt _ _) Hlt); cbn;
  rewrite (index_array _ _ _ _ Hl); cbn; rewrite Hnull; run;
  first [ by eexists
        | destruct (release w) as (w1 & E1 & T1 & S1); rewrite E1; cbn;
          by exists w1 ].

Lemma null_frame_twice (playbackFrame : M bool) :
  (forall w l xs,
     _isPlaying (tas w) = true -> _recording (tas w) = VArr l ->
     store w !! l = Some xs -> xs !! _playbackIndex (tas w) = Some JNull ->
     exists w',
       playbackFrame w = (Abrupt TypeError, w') /\
       tas w' = tas w /\ store w' = store w) ->
  null_frame_throws playbackFrame.
Proof.
  intros H w l xs Hplay Hr Hl Hnull.
  destruct (H w l xs Hplay Hr Hl Hnull) as (w' & E & T & S).
  exists w'. split; [done|]. split; [done|]. split; [done|].
  destruct (H w' l xs) as (w'' & E' & T' & _); try congruence.
  exists w''. split; [done|]. congruence.
Qed.

(** X2. A frame that is [null], as [importRecording] and [startPlayback]
    accept it from a JSON text, stops the player for good:
    [playbackFrame()] throws a TypeError when the cursor is on it, before
    the cursor moves, so the session stays playing with the cursor on
    that frame, the store as it was, and the next call throws again. *)
Theorem null_frame_blocks_playback :
  null_frame_throws Direct.playbackFrame /\
  null_frame_throws Dispatch.playbackFrame /\
  null_frame_throws Legacy.playbackFrame.
Proof.
  repeat split; apply null_frame_twice.
  - unfold Direct.playbackFrame, Direct.setInputState.
    null_frame_step Direct_releaseAllKeys_host.
  - unfold Dispatch.playbackFrame, Dispatch.setInputState.
    null_frame_step Dispatch_releaseAllKeys_host.
  - unfold Legacy.playbackFrame, Legacy.setInputState.
    null_frame_step Legacy_releaseAllKeys_host.
Qed.

Lemma null_frame_blocks_playback_witness :
  _isPlaying (tas null_frame_world) = true /\
  _recording (tas null_frame_world) = VArr 1 /\
  store null_frame_world !! 1 = Some [JNull] /\
  [JNull] !! _playbackIndex (tas null_frame_world) = Some JNull /\
  exists w',
    Direct.playbackFrame null_frame_world = (Abrupt TypeError, w') /\
    tas w' = tas null_frame_world /\ store w' = store null_frame_world /\
    exists w'',
      Direct.playbackFrame w' = (Abrupt TypeError, w'') /\
      tas w'' = tas null_frame_world.
Proof.
  assert (H1 : _isPlaying (tas null_frame_world) = true) by reflexivity.
  assert (H2 : _recording (tas null_frame_world) = VArr 1) by reflexivity.
  assert (H3 : store null_frame_world !! 1 = Some [JNull]) by reflexivity.
  assert (H4 : [JNull] !! _playbackIndex (tas null_frame_world) = Some JNull)
    by reflexivity.
  split; [exact H1|]. split; [exact H2|]. split; [exact H3|]. split; [exact H4|].
  exact (proj1 null_frame_blocks_playback null_frame_world 1 [JNull] H1 H2 H3 H4).
Defined.

(** ** Recording while playing *)

Lemma takes_over startRecording tick recordFrame playbackFrame released :
  (forall w, exists w0,
     startRecording w = (Normal tt, w0) /\
     _isPlaying (tas w0) = _isPlaying (tas w) /\ _isRecording (tas w0) = true /\
     _playbackIndex (tas w0) = _playbackIndex (tas w) /\
     _recording (tas w0) = VArr (length (store w)) /\
     store w0 = store w ++ [[]]) ->
  (forall f w, _isRecording (tas w) = true ->
     tick f w =
       (recordFrame;; s ← this; when (_isPlaying s) (playbackFrame;; mret tt))
         (set_host (f (host w)) w)) ->
  (forall w l,
     _isRecording (tas w) = true -> _recording (tas w) = VArr l ->
     store w !! l = Some [] ->
     exists w' ys,
       recordFrame w = (Normal tt, w') /\
       _isPlaying (tas w') = _isPlaying (tas w) /\
       _isRecording (tas w') = true /\
       _playbackIndex (tas w') = _playbackIndex (tas w) /\
       _recording (tas w') = VArr l /\
       store w' !! l = Some ys /\ length ys <= 1 /\ Forall playable ys) ->
  (forall w l xs,
     _recording (tas w) = VArr l -> store w !! l = Some xs -> Forall playable xs ->
     exists b w',
       playbackFrame w = (Normal b, w') /\ playback_step released xs w b w') ->
  recording_takes_over startRecording tick.
Proof.
  intros Hstart Htick Hrecord Hframe w Hplay.
  destruct (Hstart w) as (w0 & E0 & Hp0 & Hr0 & Hi0 & Hrec0 & Hs0).
  exists w0. rewrite Hp0. repeat split; try done.
  intros Hpos f. rewrite Htick by done.
  destruct (Hrecord (set_host (f (host w0)) w0) (length (store w)))
    as (w1 & ys & E1 & Hp1 & Hr1 & Hi1 & Hrec1 & Hl1 & Hlen & Hys); try done.
  { cbn. rewrite Hs0. apply lookup_alloc. }
  rewrite (bind_normal _ _ _ _ _ E1). cbn in Hp1, Hi1.
  cbv [mbind M_bind bind this]. cbn. rewrite Hp1, Hp0, Hplay. cbn.
  destruct (Hframe w1 _ ys Hrec1 Hl1 Hys) as (b & w2 & E2 & _ & Hsame & Hstep).
  rewrite E2. exists w2. split; [done|].
  rewrite Hp1, Hp0, Hplay, Hi1, Hi0 in Hstep.
  rewrite (proj2 (Nat.leb_le _ _)) in Hstep by lia.
  destruct Hstep as (_ & ? & ? & _).
  destruct Hsame as (_ & _ & _ & ? & _). repeat split; congruence.
Qed.

Lemma Direct_startRecording_any w :
  exists w0,
    Direct.startRecording w = (Normal tt, w0) /\
    _isPlaying (tas w0) = _isPlaying (tas w) /\ _isRecording (tas w0) = true /\
    _playbackIndex (tas w0) = _playbackIndex (tas w) /\
    _recording (tas w0) = VArr (length (store w)) /\
    store w0 = store w ++ [[]].
Proof.
  unfold Direct.startRecording, Direct._hookGameTick. run.
  destruct (_tickHooked (tas w)) eqn:Hh; cbn; rewrite ?Hh; cbn;
    [|destruct (Vv_tick (host w)) eqn:Hv; cbn];
    eexists; (split; [reflexivity|]); by cbn.
Qed.

Lemma Dispatch_startRecording_any w :
  exists w0,
    Dispatch.startRecording w = (Normal tt, w0) /\
    _isPlaying (tas w0) = _isPlaying (tas w) /\ _isRecording (tas w0) = true /\
    _playbackIndex (tas w0) = _playbackIndex (tas w) /\
    _recording (tas w0) = VArr (length (store w)) /\
    store w0 = store w ++ [[]].
Proof.
  unfold Dispatch.startRecording, Dispatch._hookGameTick. run.
  destruct (_tickHooked (tas w)) eqn:Hh; cbn; rewrite ?Hh; cbn;
    [|destruct (Vv_tick (host w)) eqn:Hv; cbn];
    eexists; (split; [reflexivity|]); by cbn.
Qed.

Lemma Direct_recordFrame_first w l :
  _isRecording (tas w) = true -> _recording (tas w) = VArr l ->
  store w !! l = Some [] ->
  exists w' ys,
    Direct.recordFrame w = (Normal tt, w') /\
    _isPlaying (tas w') = _isPlaying (tas w) /\
    _isRecording (tas w') = true /\
    _playbackIndex (tas w') = _playbackIndex (tas w) /\
    _recording (tas w') = VArr l /\
    store w' !! l = Some ys /\ length ys <= 1 /\ Forall playable ys.
Proof.
  intros Hrec Hr Hl. destruct (_inputManager (tas w)) eqn:Him.
  - rewrite (Direct_recordFrame_bound w l []) by done.
    eexists _, _. split; [reflexivity|]. cbn.
    rewrite list_lookup_insert_eq by (by eapply lookup_lt_Some).
    repeat split; try done. by repeat constructor.
  - unfold Direct.recordFrame, Direct.getInputState. run.
    rewrite Hrec. cbn. rewrite Him. cbn.
    eexists _, []. split; [reflexivity|]. cbn. repeat split; try done. lia.
Qed.

Lemma Dispatch_recordFrame_first w l :
  _isRecording (tas w) = true -> _recording (tas w) = VArr l ->
  store w !! l = Some [] ->
  exists w' ys,
    Dispatch.recordFrame w = (Normal tt, w') /\
    _isPlaying (tas w') = _isPlaying (tas w) /\
    _isRecording (tas w') = true /\
    _playbackIndex (tas w') = _playbackIndex (tas w) /\
    _recording (tas w') = VArr l /\
    store w' !! l = Some ys /\ length ys <= 1 /\ Forall playable ys.
Proof.
  intros Hrec Hr Hl. destruct (_inputManager (tas w)) eqn:Him.
  - rewrite (Dispatch_recordFrame_bound w l []) by done.
    eexists _, _. split; [reflexivity|]. cbn.
    rewrite list_lookup_insert_eq by (by eapply lookup_lt_Some).
    repeat split; try done. by repeat constructor.
  - unfold Dispatch.recordFrame, Dispatch.getInputState. run.
    rewrite Hrec. cbn. rewrite Him. cbn.
    eexists _, []. split; [reflexivity|]. cbn. repeat split; try done. lia.
Qed.

(** X3. [startRecording()] does not stop a playback: called while the
    session is playing it leaves the session both recording and playing,
    with the cursor where it was, and replaces the sequence being played
    by a new empty array; when the cursor had left 0, the next tick finds
    the cursor past the end of that array and ends the playback, the rest
    of the sequence unplayed, while the recording goes on. *)
Theorem startRecording_takes_over_a_playback :
  recording_takes_over Direct.startRecording Direct.tick /\
  recording_takes_over Dispatch.startRecording Dispatch.tick.
Proof.
  split.
  - apply (takes_over _ _ Direct.recordFrame Direct.playbackFrame Direct_released).
    + apply Direct_startRecording_any.
    + apply Direct_tick_recording.
    + apply Direct_recordFrame_first.
    + apply Direct_playbackFrame_array.
  - apply (takes_over _ _ Dispatch.recordFrame Dispatch.playbackFrame
             Dispatch_released).
    + apply Dispatch_startRecording_any.
    + apply Dispatch_tick_recording.
    + apply Dispatch_recordFrame_first.
    + apply Dispatch_playbackFrame_array.
Qed.

Lemma startRecording_takes_over_a_playback_witness :
  _isPlaying (tas mid_playback_world) = true /\
  0 < _playbackIndex (tas mid_playback_world) /\
  exists w0,
    Direct.startRecording mid_playback_world = (Normal tt, w0) /\
    _isPlaying (tas w0) = true /\ _isRecording (tas w0) = true /\
    _playbackIndex (tas w0) = _playbackIndex (tas mid_playback_world) /\
    _recording (tas w0) = VArr (length (store mid_playback_world)) /\
    store w0 = store mid_playback_world ++ [[]] /\
    (0 < _playbackIndex (tas mid_playback_world) ->
     forall f : Host -> Host,
       exists w1,
         Direct.tick f w0 = (Normal tt, w1) /\
         _isPlaying (tas w1) = false /\ _isRecording (tas w1) = true /\
         _playbackIndex (tas w1) = 0).
Proof.
  assert (H1 : _isPlaying (tas mid_playback_world) = true) by reflexivity.
  assert (H2 : 0 < _playbackIndex (tas mid_playback_world)) by (cbn; lia).
  split; [exact H1|]. split; [exact H2|].
  exact (proj1 startRecording_takes_over_a_playback mid_playback_world H1).
Defined.

(** ** What was recorded is restored *)

Lemma flat_record_playable j : flat_record j -> playable j.
Proof. by destruct j. Qed.

Section RecordingFlat.
Variable tick : (Host -> Host) -> M unit.
Variable recordFrame : M unit.
Variable playbackFrame : M bool.
Variable released : World -> Host -> Prop.

Hypothesis tick_recording : forall f w,
  _isRecording (tas w) = true ->
  tick f w =
    (recordFrame;; s ← this; when (_isPlaying s) (playbackFrame;; mret tt))
      (set_host (f (host w)) w).

Hypothesis recordFrame_flat : record_step_flat recordFrame.

Hypothesis playbackFrame_array : forall w l xs,
  _recording (tas w) = VArr l -> store w !! l = Some xs -> Forall playable xs ->
  exists b w',
    playbackFrame w = (Normal b, w') /\ playback_step released xs w b w'.

Lemma tick_records_flat f l w :
  recording_flat l w ->
  exists w', tick f w = (Normal tt, w') /\ recording_flat l w'.
Proof using tick_recording recordFrame_flat playbackFrame_array.
  intros (Hrec & Him & Hr & xs & Hl & Hflat).
  rewrite tick_recording by done.
  destruct (recordFrame_flat (set_host (f (host w)) w) l xs)
    as (w1 & j & E1 & S1 & T1 & F1); [done..|].
  rewrite (bind_normal _ _ _ _ _ E1). cbn in S1, T1.
  assert (Hl1 : store w1 !! l = Some (xs ++ [j])).
  { rewrite S1. apply list_lookup_insert_eq. by eapply lookup_lt_Some. }
  assert (Hflat1 : Forall flat_record (xs ++ [j])).
  { apply Forall_app. split; [done|]. by constructor. }
  assert (Hinv1 : recording_flat l w1).
  { unfold recording_flat. rewrite T1. cbn. repeat split; try done.
    by exists (xs ++ [j]). }
  cbv [mbind M_bind bind this]. cbn.
  destruct (_isPlaying (tas w1)) eqn:Hplay; cbn; [|by exists w1].
  destruct (playbackFrame_array w1 l (xs ++ [j])) as (b & w' & E & Hs' & Hsame & _).
  { apply Hinv1. }
  { done. }
  { eapply Forall_impl; [exact Hflat1|]. apply flat_record_playable. }
  rewrite E. exists w'. split; [done|].
  destruct Hinv1 as (? & ? & ? & _).
  destruct Hsame as (? & ? & ? & ? & ? & ?).
  unfold recording_flat. repeat split; try congruence.
  exists (xs ++ [j]). by rewrite Hs'.
Qed.

Lemma observe_records_flat fs : forall l w,
  recording_flat l w ->
  exists w', observe tick fs w = (Normal tt, w') /\ recording_flat l w'.
Proof using tick_recording recordFrame_flat playbackFrame_array.
  induction fs as [|f fs IH]; intros l w Hinv; cbn.
  - by exists w.
  - destruct (tick_records_flat f l w Hinv) as (w1 & E1 & Hinv1).
    destruct (IH l w1 Hinv1) as (w' & E & Hinv').
    exists w'. by rewrite (bind_normal _ _ _ _ _ E1).
Qed.
End RecordingFlat.

Lemma Direct_record_step_flat : record_step_flat Direct.recordFrame.
Proof.
  intros w l xs Hrec Him Hr Hl.
  rewrite (Direct_recordFrame_bound w l xs) by done.
  eexists _, _. split; [reflexivity|]. cbn. repeat split; try done.
  - apply (flagged_record_flat (Z.of_nat (_frameCount (tas w)))).
  - apply (flagged_record_flat (Z.of_nat (_frameCount (tas w)))).
Qed.

Lemma Dispatch_record_step_flat : record_step_flat Dispatch.recordFrame.
Proof.
  intros w l xs Hrec Him Hr Hl.
  rewrite (Dispatch_recordFrame_bound w l xs) by done.
  eexists _, _. split; [reflexivity|]. cbn. repeat split; try done.
  - apply (frame_record_flat (frame_record _ _ _ _ _ _ _)).
    by eexists _, _, _, _, _, _, _.
  - apply (frame_record_flat (frame_record _ _ _ _ _ _ _)).
    by eexists _, _, _, _, _, _, _.
Qed.

Lemma restored startRecording tick recordFrame playbackFrame released
    exportRecording importRecording :
  (forall f w, _isRecording (tas w) = true ->
     tick f w =
       (recordFrame;; s ← this; when (_isPlaying s) (playbackFrame;; mret tt))
         (set_host (f (host w)) w)) ->
  record_step recordFrame -> record_step_flat recordFrame ->
  (forall w l xs,
     _recording (tas w) = VArr l -> store w !! l = Some xs -> Forall playable xs ->
     exists b w',
       playbackFrame w = (Normal b, w') /\ playback_step released xs w b w') ->
  (forall w, _inputManager (tas w) = true ->
     exists w0,
       startRecording w = (Normal tt, w0) /\ recording_at (length (store w)) 0 w0) ->
  exportRecording = (s ← this; JSON_stringify (_recording s)) ->
  (forall w text xs,
     JSON.parse text = Some (JArr xs) ->
     exists w',
       importRecording (VStr text) w = (Normal true, w') /\
       _recording (tas w') = VArr (length (store w)) /\
       store w' = store w ++ [xs]) ->
  recorded_session_is_restored startRecording tick exportRecording importRecording.
Proof.
  intros Htick Hstep Hflat Hframe Hstart Hexport Himport w fs Him.
  destruct (Hstart w Him) as (w0 & E0 & Hinv0).
  destruct (observe_records tick recordFrame playbackFrame released Htick Hstep
              Hframe fs _ 0 w0 Hinv0) as (w1 & E1 & Hinv1).
  assert (Hflat0 : recording_flat (length (store w)) w0).
  { destruct Hinv0 as (? & ? & ? & _ & xs & Hl & Hlen & _).
    repeat split; try done. exists xs. split; [done|].
    destruct xs; [constructor | done]. }
  destruct (observe_records_flat tick recordFrame playbackFrame released Htick
              Hflat Hframe fs _ w0 Hflat0) as (w1' & E1' & Hinv1').
  assert (w1' = w1) as -> by congruence.
  destruct Hinv1 as (_ & _ & Hr & _ & xs & Hl & Hlen & _).
  destruct Hinv1' as (_ & _ & _ & xs' & Hl' & Hfl).
  assert (xs' = xs) as -> by congruence.
  exists (JSON.stringify (JArr xs)), w1, (length (store w)), xs.
  rewrite (bind_normal _ _ _ _ _ E0), (bind_normal _ _ _ _ _ E1).
  split; [by eapply exportRecording_array|].
  split; [done|]. split; [done|]. split; [done|].
  intros w2.
  destruct (Himport w2 _ xs (parse_stringify_records xs Hfl)) as (w3 & E3 & Hr3 & Hs3).
  exists (length (store w2)), w3. split; [done|]. split; [done|].
  rewrite Hs3. apply lookup_alloc.
Qed.

(** X4. What a session records it can restore: with the input manager
    bound, [startRecording()], any number of observed ticks and
    [exportRecording()] give a text from which [importRecording], in any
    session, stores a sequence equal to the one recorded, one record per
    tick; this holds for the records of [tas.js] and for those of
    [part_000], which carry [hasInput]. *)
Theorem recorded_session_round_trip :
  recorded_session_is_restored Direct.startRecording Direct.tick
    Direct.exportRecording Direct.importRecording /\
  recorded_session_is_restored Dispatch.startRecording Dispatch.tick
    Dispatch.exportRecording Dispatch.importRecording.
Proof.
  split.
  - apply (restored _ _ Direct.recordFrame Direct.playbackFrame Direct_released).
    + apply Direct_tick_recording.
    + apply Direct_record_step.
    + apply Direct_record_step_flat.
    + apply Direct_playbackFrame_array.
    + apply Direct_startRecording_bound.
    + reflexivity.
    + apply Direct_import_array_text.
  - apply (restored _ _ Dispatch.recordFrame Dispatch.playbackFrame
             Dispatch_released).
    + apply Dispatch_tick_recording.
    + apply Dispatch_record_step.
    + apply Dispatch_record_step_flat.
    + apply Dispatch_playbackFrame_array.
    + apply Dispatch_startRecording_bound.
    + reflexivity.
    + apply Dispatch_import_array_text.
Qed.

Lemma recorded_session_round_trip_witness :
  _inputManager (tas (game_ready quiet_host)) = true /\
  exists text w1 l xs,
    (Direct.startRecording;;
     observe Direct.tick [fun h => h; fun h => h];;
     Direct.exportRecording) (game_ready quiet_host) = (Normal (VStr text), w1) /\
    _recording (tas w1) = VArr l /\ store w1 !! l = Some xs /\
    length xs = 2 /\
    forall w2 : World,
      exists l' w3,
        Direct.importRecording (VStr text) w2 = (Normal true, w3) /\
        _recording (tas w3) = VArr l' /\
        store w3 !! l' = Some xs.
Proof.
  assert (H : _inputManager (tas (game_ready quiet_host)) = true) by reflexivity.
  split; [exact H|].
  exact (proj1 recorded_session_round_trip (game_ready quiet_host)
           [fun h => h; fun h => h] H).
Defined.

(** ** Playing a text *)

Lemma Direct_plays_the_decoded_array : plays_the_decoded_array Direct.startPlayback.
Proof.
  intros w text xs Hp Hne. destruct xs as [|x xs]; [done|].
  unfold Direct.startPlayback, Direct._hookGameTick, JSON_parse. rewrite Hp. run.
  erewrite length_of_array by (cbn; apply lookup_alloc).
  rewrite positive_length. cbn.
  erewrite length_of_array by (cbn; apply lookup_alloc).
  rewrite is_zero_length. cbn.
  destruct (_tickHooked (tas w)) eqn:Hh; cbn; rewrite ?Hh; cbn;
    [|destruct (Vv_tick (host w)) eqn:Hv; cbn];
    (erewrite length_of_array by (cbn; apply lookup_alloc)); cbn;
    eexists; (split; [reflexivity|]); by repeat split.
Qed.

Lemma Dispatch_plays_the_decoded_array :
  plays_the_decoded_array Dispatch.startPlayback.
Proof.
  intros w text xs Hp Hne. destruct xs as [|x xs]; [done|].
  unfold Dispatch.startPlayback, Dispatch._hookGameTick, JSON_parse. rewrite Hp. run.
  erewrite length_of_array by (cbn; apply lookup_alloc).
  rewrite positive_length. cbn.
  erewrite length_of_array by (cbn; apply lookup_alloc).
  rewrite is_zero_length. cbn.
  destruct (_tickHooked (tas w)) eqn:Hh; cbn; rewrite ?Hh; cbn;
    [|destruct (Vv_tick (host w)) eqn:Hv; cbn];
    (erewrite length_of_array by (cbn; apply lookup_alloc)); cbn;
    eexists; (split; [reflexivity|]); by repeat split.
Qed.

Lemma plays_export exportRecording startPlayback :
  exportRecording = (s ← this; JSON_stringify (_recording s)) ->
  plays_the_decoded_array startPlayback ->
  plays_the_export exportRecording startPlayback.
Proof.
  intros Hexport Hplay w l xs Hflat Hne Hr Hl.
  rewrite (bind_normal _ _ _ _ _ (exportRecording_array _ w l xs Hexport Hr Hl)).
  apply Hplay; [|done]. by apply parse_stringify_records.
Qed.

(** X5. [startPlayback] takes the text that [exportRecording()] returns:
    for a stored recording of one or more records with plain keys and
    [null], boolean or integer values, as the recorder and the builder
    make them, [startPlayback(exportRecording())] starts playing, from
    frame 0 and with recording off, a new array that holds the same
    records; the array that was the recording is left as it is. *)
Theorem startPlayback_plays_the_export :
  plays_the_export Direct.exportRecording Direct.startPlayback /\
  plays_the_export Dispatch.exportRecording Dispatch.startPlayback.
Proof.
  split; (apply plays_export; [reflexivity|]).
  - apply Direct_plays_the_decoded_array.
  - apply Dispatch_plays_the_decoded_array.
Qed.

Lemma startPlayback_plays_the_export_witness :
  Forall flat_record [left_frame] /\ [left_frame] <> [] /\
  _recording (tas stored_world) = VArr 1 /\
  store stored_world !! 1 = Some [left_frame] /\
  exists w0,
    (text ← Direct.exportRecording; Direct.startPlayback text) stored_world
      = (Normal tt, w0) /\
    _recording (tas w0) = VArr (length (store stored_world)) /\
    store w0 = store stored_world ++ [[left_frame]] /\
    _isPlaying (tas w0) = true /\ _isRecording (tas w0) = false /\
    _playbackIndex (tas w0) = 0.
Proof.
  assert (H1 : Forall flat_record [left_frame]).
  { constructor; [|constructor]. split.
    - apply (bool_decide_unpack _). by vm_compute.
    - repeat constructor. }
  assert (H2 : [left_frame] <> []) by discriminate.
  assert (H3 : _recording (tas stored_world) = VArr 1) by reflexivity.
  assert (H4 : store stored_world !! 1 = Some [left_frame]) by reflexivity.
  split; [exact H1|]. split; [exact H2|]. split; [exact H3|]. split; [exact H4|].
  exact (proj1 startPlayback_plays_the_export stored_world 1 [left_frame]
           H1 H2 H3 H4).
Defined.

(** ** Copies of the recording *)

Lemma snapshot getRecording recordFrame :
  getRecording = (s ← this; slice (_recording s)) ->
  record_step recordFrame ->
  returns_a_snapshot getRecording recordFrame.
Proof.
  intros -> Hstep w l xs Hrec Him Hr Hl.
  assert (Hlt : l < length (store w)) by (by eapply lookup_lt_Some).
  set (w1 := {| tas := tas w; store := store w ++ [xs]; host := host w;
                console := console w |}).
  destruct (Hstep w1 l xs) as (w2 & fields & E2 & S2 & _); try done.
  { cbn. by rewrite lookup_app_l. }
  exists (length (store w)), w1, w2, (JObj fields).
  split; [run; by rewrite Hr, (slice_array _ _ _ Hl)|].
  split; [lia|]. split; [apply lookup_alloc|]. split; [done|].
  rewrite S2. cbn. split.
  - rewrite list_lookup_insert_ne by lia. apply lookup_alloc.
  - apply list_lookup_insert_eq. rewrite length_app. lia.
Qed.

(** X6. [getRecording()] returns a copy of the stored recording: the
    array returned is a new one with the same records, and a frame
    recorded after the call is appended to the stored recording while the
    array returned stays as it was. *)
Theorem getRecording_returns_a_snapshot :
  returns_a_snapshot Direct.getRecording Direct.recordFrame /\
  returns_a_snapshot Dispatch.getRecording Dispatch.recordFrame.
Proof.
  split; (apply snapshot; [reflexivity|]).
  - apply Direct_record_step.
  - apply Dispatch_record_step.
Qed.

Lemma getRecording_returns_a_snapshot_witness :
  let w := (Direct.startRecording (game_ready quiet_host)).2 in
  _isRecording (tas w) = true /\ _inputManager (tas w) = true /\
  _recording (tas w) = VArr 1 /\ store w !! 1 = Some [] /\
  exists l' w1 w2 j,
    Direct.getRecording w = (Normal (VArr l'), w1) /\
    l' <> 1 /\ store w1 !! l' = Some [] /\
    Direct.recordFrame w1 = (Normal tt, w2) /\
    store w2 !! l' = Some [] /\ store w2 !! 1 = Some ([] ++ [j]).
Proof.
  set (w := (Direct.startRecording (game_ready quiet_host)).2).
  assert (H1 : _isRecording (tas w) = true) by reflexivity.
  assert (H2 : _inputManager (tas w) = true) by reflexivity.
  assert (H3 : _recording (tas w) = VArr 1) by reflexivity.
  assert (H4 : store w !! 1 = Some []) by reflexivity.
  split; [exact H1|]. split; [exact H2|]. split; [exact H3|]. split; [exact H4|].
  exact (proj1 getRecording_returns_a_snapshot w 1 [] H1 H2 H3 H4).
Defined.

(** ** Releasing a direction *)

Lemma lookup_release ks : forall (m : gmap N bool) k,
  release ks m !! k = if decide (k ∈ ks) then Some false else m !! k.
Proof.
  induction ks as [|k0 ks IH]; intros m k; cbn.
  - rewrite decide_False; [done|]. apply not_elem_of_nil.
  - fold (release ks (<[k0:=false]> m)). rewrite IH.
    destruct (decide (k ∈ ks)) as [Hin|Hnin].
    + rewrite decide_True; [done|]. by right.
    + destruct (decide (k = k0)) as [->|Hne].
      * rewrite lookup_insert_eq, decide_True; [done|]. by left.
      * rewrite lookup_insert_ne by done.
        rewrite decide_False; [done|]. by intros [?|?]%elem_of_cons.
Qed.

Lemma Direct_releaseKeys_bound ks : forall w,
  _keyboardHandler (tas w) = true ->
  for_each ks Direct.releaseKey w =
    (Normal tt, set_host (set_Ob (release ks) (host w)) w).
Proof.
  induction ks as [|k ks IH]; intros w Hk; cbn [for_each].
  - run. by rewrite set_host_same.
  - assert (E : Direct.releaseKey k w
                = (Normal tt, set_host (set_Ob (insert k false) (host w)) w)).
    { unfold Direct.releaseKey. run. by rewrite Hk. }
    rewrite (bind_normal _ _ _ _ _ E), IH by done. done.
Qed.

Lemma Direct_releaseDirection_bound d w :
  _keyboardHandler (tas w) = true ->
  Direct.releaseDirection d w =
    (Normal tt, set_host (set_Ob (release (keys_of (host w) d)) (host w)) w).
Proof.
  intros Hk. unfold Direct.releaseDirection, keys_of.
  cbv [mbind M_bind bind this the_host]. cbn. rewrite Hk. cbn.
  match goal with
  | |- context [match ?x with Some _ => _ | None => _ end] =>
      destruct x as [[|k ks]|]
  end;
    try (by apply (Direct_releaseKeys_bound (k :: ks)));
    (destruct (Direct.fallbackKeys d) as [ks'|]; cbn;
     [by apply (Direct_releaseKeys_bound ks') | by rewrite set_host_same]).
Qed.

(** X7. In [part_000], with the keyboard handler bound,
    [releaseDirection(d)] undoes [pressDirection(d)] for every direction
    [d]: after the two calls no key of the direction is down, the key that
    was pressed included, whether the keys come from the game's key map
    or from the fallback tables; the keys of other directions are as
    before. *)
Theorem releaseDirection_undoes_pressDirection :
  forall (w : World) (direction : N),
    _keyboardHandler (tas w) = true ->
    exists w',
      (Direct.pressDirection direction;; Direct.releaseDirection direction) w
        = (Normal tt, w') /\
      tas w' = tas w /\ store w' = store w /\
      flag (host w') direction = false /\
      (forall k, k ∈ key_pressed_for (host w) direction ->
         Ob (Jc (host w')) !! k = Some false) /\
      (forall k, k ∉ keys_of (host w) direction ->
         Ob (Jc (host w')) !! k = Ob (Jc (host w)) !! k).
Proof.
  intros w d Hk.
  rewrite (bind_normal _ _ _ _ _ (Direct_pressDirection_bound d w Hk)).
  rewrite Direct_releaseDirection_bound by done.
  eexists. split; [reflexivity|]. cbn. split; [done|]. split; [done|].
  change (keys_of (set_Ob _ (host w)) d) with (keys_of (host w) d).
  split; [|split].
  - unfold flag. cbn.
    change (keys_of (set_Ob _ _) d) with (keys_of (host w) d).
    apply not_true_is_false. rewrite existsb_exists.
    intros (k & Hin & Hb). apply bool_decide_eq_true in Hb.
    rewrite lookup_release, decide_True in Hb; [done|].
    by apply list_elem_of_In.
  - intros k Hin. rewrite lookup_release, decide_True; [done|].
    by apply key_pressed_for_keys_of.
  - intros k Hnin. rewrite lookup_release, decide_False by done.
    rewrite lookup_press, decide_False; [done|].
    intros Hin. by apply Hnin, key_pressed_for_keys_of.
Qed.

Lemma releaseDirection_undoes_pressDirection_witness :
  let w := game_ready both_left_keys_host in
  _keyboardHandler (tas w) = true /\
  exists w',
    (Direct.pressDirection 0;; Direct.releaseDirection 0) w = (Normal tt, w') /\
    tas w' = tas w /\ store w' = store w /\
    flag (host w') 0 = false /\
    (forall k, k ∈ key_pressed_for (host w) 0 ->
       Ob (Jc (host w')) !! k = Some false) /\
    (forall k, k ∉ keys_of (host w) 0 ->
       Ob (Jc (host w')) !! k = Ob (Jc (host w)) !! k).
Proof.
  assert (H : _keyboardHandler (tas (game_ready both_left_keys_host)) = true)
    by reflexivity.
  split; [exact H|].
  exact (releaseDirection_undoes_pressDirection (game_ready both_left_keys_host) 0 H).
Defined.

(** ** The events of a frame *)

(** X8. In [tas.js], [setInputState(frame)] for a frame that is not
    [null] only dispatches keyboard events, whether or not [init] has
    succeeded: a [keyup] for each of the seven keys of [KEYS], in their
    order, and then a [keydown] for each flag of the frame that is truthy,
    in the order left (37), right (39), up (38), down (40), action (13,
    Enter), cancel (8); Space (32) is released and never pressed.  The
    TAS object, the store and the console are left as they are, and the
    game's objects change only as the page's listeners change them when
    each of these events reaches them. *)
Theorem Dispatch_setInputState_dispatches :
  forall (w : World) (j : json),
    playable j ->
    exists w',
      Dispatch.setInputState (Some j) w = (Normal tt, w') /\
      tas w' = tas w /\ store w' = store w /\ console w' = console w /\
      host w' =
        delivered ((keyup <$> [37; 39; 38; 40; 32; 13; 8]%N) ++
                   (keydown <$> keys_dispatched j)) (host w) /\
      dispatched (host w') =
        dispatched (host w) ++
          (keyup <$> [37; 39; 38; 40; 32; 13; 8]%N) ++
          (keydown <$> keys_dispatched j) /\
      32%N ∉ keys_dispatched j.
Proof.
  intros w j Hj. rewrite (Dispatch_setInputState_events j w Hj).
  eexists. split; [reflexivity|]. cbn [with_events set_host tas store console host].
  repeat split; try done.
  - apply dispatched_delivered.
  - unfold keys_dispatched. rewrite !elem_of_app.
    destruct (reads j "left"), (reads j "right"), (reads j "up"), (reads j "down"),
      (reads j "action"), (reads j "cancel");
      rewrite ?elem_of_cons, ?elem_of_nil; intros H;
      repeat (destruct H as [H|H]; try done).
Qed.

Lemma Dispatch_setInputState_dispatches_witness :
  playable loose_frame /\
  keys_dispatched loose_frame = [37; 13]%N /\
  Ob (Jc (delivered ((keyup <$> [37; 39; 38; 40; 32; 13; 8]%N) ++
                     (keydown <$> keys_dispatched loose_frame))
            listening_host))
    = {[ 37 := true; 39 := false; 38 := false; 40 := false; 32 := false;
         13 := true; 8 := false ]}%N /\
  exists w',
    Dispatch.setInputState (Some loose_frame) (page_load listening_host)
      = (Normal tt, w') /\
    tas w' = tas (page_load listening_host) /\
    store w' = store (page_load listening_host) /\
    console w' = console (page_load listening_host) /\
    host w' =
      delivered ((keyup <$> [37; 39; 38; 40; 32; 13; 8]%N) ++
                 (keydown <$> keys_dispatched loose_frame))
        (host (page_load listening_host)) /\
    dispatched (host w') =
      dispatched (host (page_load listening_host)) ++
        (keyup <$> [37; 39; 38; 40; 32; 13; 8]%N) ++
        (keydown <$> keys_dispatched loose_frame) /\
    32%N ∉ keys_dispatched loose_frame.
Proof.
  assert (H : playable loose_frame) by discriminate.
  split; [exact H|]. split; [reflexivity|].
  split; [apply (bool_decide_unpack _); by vm_compute|].
  exact (Dispatch_setInputState_dispatches (page_load listening_host) loose_frame H).
Defined.

(** X9. In [part_000], with the keyboard handler bound,
    [setInputState(frame)] reads the six flags of any frame but [null] by
    truth value: the keys left down are exactly those it presses for the
    flags whose value is truthy, so a number other than 0, a non-empty
    string or an object counts as pressed, and 0, the empty string,
    [null], [false] and a missing field count as released; a frame that
    is not an object leaves every key up. *)
Theorem Direct_setInputState_reads_truth_values :
  forall (w : World) (j : json),
    _keyboardHandler (tas w) = true -> playable j ->
    exists w',
      Direct.setInputState (Some j) w = (Normal tt, w') /\
      tas w' = tas w /\ store w' = store w /\
      (forall k, Ob (Jc (host w')) !! k = Some true <->
                 k ∈ keys_pressed (host w)
                       (reads j "left") (reads j "right") (reads j "up")
                       (reads j "down") (reads j "action") (reads j "cancel")) /\
      ((forall fields, j <> JObj fields) -> all_released (host w')).
Proof.
  intros w j Hk Hj. rewrite (Direct_setInputState_bound j w Hk Hj).
  eexists. split; [reflexivity|]. cbn. split; [done|]. split; [done|]. split.
  - intros k. apply lookup_applied.
  - intros Hno k b Hb. destruct b; [|done].
    apply lookup_applied in Hb.
    destruct j; try (by apply elem_of_nil in Hb). by destruct (Hno fields).
Qed.

Lemma Direct_setInputState_reads_truth_values_witness :
  let w := game_ready left_down_host in
  _keyboardHandler (tas w) = true /\ playable loose_frame /\
  keys_pressed (host w) (reads loose_frame "left") (reads loose_frame "right")
    (reads loose_frame "up") (reads loose_frame "down")
    (reads loose_frame "action") (reads loose_frame "cancel") = [37; 13]%N /\
  exists w',
    Direct.setInputState (Some loose_frame) w = (Normal tt, w') /\
    tas w' = tas w /\ store w' = store w /\
    (forall k, Ob (Jc (host w')) !! k = Some true <->
               k ∈ keys_pressed (host w)
                     (reads loose_frame "left") (reads loose_frame "right")
                     (reads loose_frame "up") (reads loose_frame "down")
                     (reads loose_frame "action") (reads loose_frame "cancel")) /\
    ((forall fields, loose_frame <> JObj fields) -> all_released (host w')).
Proof.
  assert (H1 : _keyboardHandler (tas (game_ready left_down_host)) = true)
    by reflexivity.
  assert (H2 : playable loose_frame) by discriminate.
  split; [exact H1|]. split; [exact H2|]. split; [reflexivity|].
  exact (Direct_setInputState_reads_truth_values (game_ready left_down_host)
           loose_frame H1 H2).
Defined.

(** ** Chains of builder calls *)

Lemma chain_appends cs : forall b w l xs,
  Builder.seq b = VArr l -> store w !! l = Some xs ->
  exists b' w',
    chain cs b w = (Normal b', w') /\
    Builder.seq b' = VArr l /\
    store w' !! l = Some (xs ++ chained cs (Builder.currentFrame b)).
Proof.
  induction cs as [|c cs IH]; intros b w l xs Hb Hl; cbn [chain chained].
  - exists b, w. by rewrite app_nil_r.
  - destruct (call_appends c b w l xs Hb Hl) as (b1 & w1 & E1 & Hb1 & Hc1 & Hl1).
    destruct (IH b1 w1 l _ Hb1 Hl1) as (b' & w' & E & Hb' & Hl').
    exists b', w'. rewrite (bind_normal _ _ _ _ _ E1).
    split; [done|]. split; [done|]. by rewrite Hl', Hc1, <- app_assoc.
Qed.

Lemma appended_numbered c start :
  forall i, i < length (appended c start) ->
    exists frame left right up down action cancel,
      appended c start !! i
        = Some (frame_record frame left right up down action cancel) /\
      frame = Z.of_nat (start + i).
Proof.
  intros i Hi.
  assert (H : forall (f : nat -> json) n,
             (forall k, exists l r u d a c,
                f k = frame_record (Z.of_nat k) l r u d a c) ->
             i < length (f <$> seq start n) ->
             exists frame left right up down action cancel,
               (f <$> seq start n) !! i
                 = Some (frame_record frame left right up down action cancel) /\
               frame = Z.of_nat (start + i)).
  { intros f n Hf Hlen. rewrite length_fmap, length_seq in Hlen.
    rewrite list_lookup_fmap, lookup_seq_lt by done. cbn.
    destruct (Hf (start + i)) as (l & r & u & d & a & c0 & ->).
    by eexists _, _, _, _, _, _, _. }
  destruct c; cbn [appended] in *; apply H; try done;
    intros k; unfold held, waited; by eexists _, _, _, _, _, _.
Qed.

Lemma chained_numbered cs : forall start i,
  i < length (chained cs start) ->
  exists frame left right up down action cancel,
    chained cs start !! i
      = Some (frame_record frame left right up down action cancel) /\
    frame = Z.of_nat (start + i).
Proof.
  induction cs as [|c cs IH]; intros start i Hi; cbn [chained] in *.
  - cbn in Hi. lia.
  - rewrite length_app in Hi.
    destruct (decide (i < length (appended c start))) as [Hlt|Hge].
    + rewrite lookup_app_l by done. by apply appended_numbered.
    + rewrite lookup_app_r by lia.
      destruct (IH (start + length (appended c start))
                  (i - length (appended c start)))
        as (frame & l & r & u & d & a & c' & E & ->); [lia|].
      eexists _, l, r, u, d, a, c'. split; [exact E|]. f_equal. lia.
Qed.

(** X10. The sequence builder numbers its frames: whatever chain of
    [hold], [wait] and direction calls follows [sequence()], the array
    that [build()] returns holds, in order, the frames the calls appended,
    each a record of the seven fields [frame], [left], [right], [up],
    [down], [action], [cancel], and the [frame] of the record at position
    [i] is [i]. *)
Theorem builder_numbers_its_frames :
  forall (cs : list BuilderCall) (w : World),
    exists l w' xs,
      (b ← Builder.sequence; b ← chain cs b; Builder.build b) w
        = (Normal (VArr l), w') /\
      store w' !! l = Some xs /\
      xs = chained cs 0 /\
      Forall is_frame_record xs /\
      frames_count_up xs.
Proof.
  intros cs w. unfold Builder.sequence. run.
  set (w0 := {| tas := tas w; store := store w ++ [[]]; host := host w;
                console := console w |}).
  set (b0 := {| Builder.seq := VArr (length (store w)); Builder.currentFrame := 0 |}).
  destruct (chain_appends cs b0 w0 (length (store w)) []) as (b & w' & E & Hb & Hl).
  { done. } { apply lookup_alloc. }
  rewrite E. unfold Builder.build. run. rewrite Hb.
  exists (length (store w)), w', (chained cs 0).
  split; [done|]. split; [done|]. split; [done|]. split.
  - apply Forall_lookup_2. intros i x Hx.
    destruct (chained_numbered cs 0 i) as (fr & l & r & u & d & a & c & E' & _).
    { by eapply lookup_lt_Some. }
    rewrite E' in Hx. inversion Hx. by eexists _, _, _, _, _, _, _.
  - intros i Hi.
    destruct (chained_numbered cs 0 i Hi) as (fr & l & r & u & d & a & c & E' & ->).
    eexists. split; [exact E'|]. done.
Qed.

Lemma hold_loop_unknown_direction d n : forall b,
  (6 <= d)%N -> Builder.hold_loop d n b = Builder.wait_loop n b.
Proof.
  induction n as [|n IH]; intros b Hd; [done|].
  cbn [Builder.hold_loop Builder.wait_loop]. rewrite IH by done.
  unfold DIRECTION.LEFT, DIRECTION.RIGHT, DIRECTION.UP, DIRECTION.DOWN,
    DIRECTION.ACTION, DIRECTION.CANCEL.
  by rewrite !(proj2 (N.eqb_neq _ _)) by lia.
Qed.

(** X11. Frame counts at the edge: a direction method of the builder
    called with 0 frames appends one frame, as it does without argument;
    [hold] and [wait] with 0 or a negative number of frames append
    nothing and leave the frame counter; and [hold] of a direction that
    is none of the six appends the same all-released frames as [wait]. *)
Theorem builder_frame_counts_at_the_edge :
  forall (b : Builder.t) (w : World),
    (Builder.left (Some 0%Z) b w = Builder.left None b w /\
     Builder.right (Some 0%Z) b w = Builder.right None b w /\
     Builder.up (Some 0%Z) b w = Builder.up None b w /\
     Builder.down (Some 0%Z) b w = Builder.down None b w /\
     Builder.action (Some 0%Z) b w = Builder.action None b w /\
     Builder.cancel (Some 0%Z) b w = Builder.cancel None b w /\
     Builder.left None b w = Builder.hold DIRECTION.LEFT 1%Z b w) /\
    (forall (direction : N) (frames : Z), (frames <= 0)%Z ->
       Builder.hold direction frames b w = (Normal b, w) /\
       Builder.wait frames b w = (Normal b, w) /\
       Builder.left (Some frames) b w
         = (if (frames =? 0)%Z then Builder.left None b w else (Normal b, w))) /\
    (forall (direction : N) (frames : Z), (6 <= direction)%N ->
       Builder.hold direction frames b w = Builder.wait frames b w).
Proof.
  intros b w. split; [by repeat split|]. split.
  - intros d n Hn. unfold Builder.hold, Builder.wait, Builder.left.
    replace (Z.to_nat n) with 0 by lia. split; [done|]. split; [done|].
    unfold Builder.or_one. destruct (n =? 0)%Z eqn:E; [done|].
    unfold Builder.hold. by replace (Z.to_nat n) with 0 by lia.
  - intros d n Hd. unfold Builder.hold, Builder.wait.
    by rewrite hold_loop_unknown_direction.
Qed.

(** ** The earlier copy of [tas.js] *)

(** X12. In the earlier copy of [tas.js], [recordFrame()] stores the
    direction slots of the input manager as it finds them: a slot whose
    value is truthy is stored with that value, boolean or not, and any
    other slot as [false]; and when the input manager has no [tb] the
    call throws a TypeError and leaves the recording and the frame counter
    as they were. *)
Theorem Legacy_recordFrame_copies_the_slots :
  forall (w : World) (l : loc) (xs : list json),
    _isRecording (tas w) = true -> _inputManager (tas w) = true ->
    _recording (tas w) = VArr l -> store w !! l = Some xs ->
    (forall slots, tb (Dk (host w)) = Some slots ->
       exists w',
         Legacy.recordFrame w = (Normal tt, w') /\
         store w' !! l = Some (xs ++ [raw_record (_frameCount (tas w)) slots]) /\
         _frameCount (tas w') = S (_frameCount (tas w))) /\
    (tb (Dk (host w)) = None -> Legacy.recordFrame w = (Abrupt TypeError, w)).
Proof.
  intros w l xs Hrec Him Hr Hl. split.
  - intros slots Htb. unfold Legacy.recordFrame, Legacy.getInputState. run.
    rewrite Hrec. cbn. rewrite Him. cbn. rewrite Htb. cbn.
    rewrite Hr, (push_at _ _ _ _ Hl). cbn.
    eexists. split; [reflexivity|]. cbn. split; [|done].
    apply list_lookup_insert_eq. by eapply lookup_lt_Some.
  - intros Htb. unfold Legacy.recordFrame, Legacy.getInputState. run.
    rewrite Hrec. cbn. rewrite Him. cbn. rewrite Htb. cbn. by destruct w.
Qed.

Lemma Legacy_recordFrame_copies_the_slots_witness :
  let w := (Legacy.startRecording (game_ready numeric_slot_host)).2 in
  _isRecording (tas w) = true /\ _inputManager (tas w) = true /\
  _recording (tas w) = VArr 1 /\ store w !! 1 = Some [] /\
  raw_record 0 {[ 0%N := JInt 1 ]}
    = JObj [(jstr "frame", JInt 0); (jstr "left", JInt 1);
            (jstr "right", JBool false); (jstr "up", JBool false);
            (jstr "down", JBool false); (jstr "action", JBool false);
            (jstr "cancel", JBool false)] /\
  (forall slots, tb (Dk (host w)) = Some slots ->
     exists w',
       Legacy.recordFrame w = (Normal tt, w') /\
       store w' !! 1 = Some ([] ++ [raw_record (_frameCount (tas w)) slots]) /\
       _frameCount (tas w') = S (_frameCount (tas w))) /\
  (tb (Dk (host w)) = None -> Legacy.recordFrame w = (Abrupt TypeError, w)).
Proof.
  set (w := (Legacy.startRecording (game_ready numeric_slot_host)).2).
  assert (H1 : _isRecording (tas w) = true) by reflexivity.
  assert (H2 : _inputManager (tas w) = true) by reflexivity.
  assert (H3 : _recording (tas w) = VArr 1) by reflexivity.
  assert (H4 : store w !! 1 = Some []) by reflexivity.
  split; [exact H1|]. split; [exact H2|]. split; [exact H3|]. split; [exact H4|].
  split; [by vm_compute|].
  exact (Legacy_recordFrame_copies_the_slots w 1 [] H1 H2 H3 H4).
Defined.

Lemma Legacy_pressDirection_unmapped d w :
  _keyboardHandler (tas w) = true ->
  Ea (Jc (host w)) ≫= (fun keyMappings => keyMappings !! d) = None ->
  Legacy.pressDirection d w = (Normal tt, w).
Proof.
  intros Hk HEa. unfold Legacy.pressDirection.
  cbv [mbind M_bind bind this the_host]. cbn. rewrite Hk. cbn.
  cbv [mbind] in HEa. by rewrite HEa.
Qed.

Lemma when_unmapped b (m : M unit) w :
  m w = (Normal tt, w) -> when b m w = (Normal tt, w).
Proof. by destruct b. Qed.

(** X13. The earlier copy of [tas.js] has no fallback keys: with the
    keyboard handler bound and no key map in it, [pressDirection] does
    nothing for any direction, so [setInputState] of any frame but [null]
    only releases: it leaves every key of the pressed-key map up,
    whatever flags the frame has, where [part_000] presses Left (37) for
    a frame with [left] set. *)
Theorem Legacy_presses_nothing_without_a_key_map :
  forall (w : World) (j : json),
    _keyboardHandler (tas w) = true -> Ea (Jc (host w)) = None -> playable j ->
    (forall direction, Legacy.pressDirection direction w = (Normal tt, w)) /\
    Legacy.setInputState (Some j) w =
      (Normal tt, set_host (set_Ob (fmap (fun _ => false)) (host w)) w) /\
    (reads j "left" = true ->
     exists w',
       Direct.setInputState (Some j) w = (Normal tt, w') /\
       Ob (Jc (host w')) !! 37%N = Some true).
Proof.
  intros w j Hk HEa Hj.
  assert (Hpress : forall w' d,
            _keyboardHandler (tas w') = true -> Ea (Jc (host w')) = None ->
            Legacy.pressDirection d w' = (Normal tt, w')).
  { intros w' d Hk' HEa'. apply Legacy_pressDirection_unmapped; [done|].
    by rewrite HEa'. }
  split; [intros d; by apply Hpress|]. split.
  - rewrite (Legacy_setInputState_reads j Hj).
    assert (E : Legacy.releaseAllKeys w
                = (Normal tt, set_host (set_Ob (fmap (fun _ => false)) (host w)) w)).
    { unfold Legacy.releaseAllKeys. run. by rewrite Hk. }
    rewrite (bind_normal _ _ _ _ _ E).
    unfold Legacy.left, Legacy.right, Legacy.up, Legacy.down, Legacy.action,
      Legacy.cancel.
    do 5 (erewrite bind_normal by (apply when_unmapped; by apply Hpress)).
    apply when_unmapped. by apply Hpress.
  - intros Hleft. rewrite (Direct_setInputState_bound j w Hk Hj).
    eexists. split; [reflexivity|]. cbn. apply lookup_applied.
    unfold keys_pressed. rewrite Hleft. apply elem_of_app. left.
    unfold key_pressed_for. rewrite HEa. cbn. by left.
Qed.

Lemma Legacy_presses_nothing_without_a_key_map_witness :
  let w := game_ready quiet_host in
  _keyboardHandler (tas w) = true /\ Ea (Jc (host w)) = None /\
  playable left_frame /\ reads left_frame "left" = true /\
  (forall direction, Legacy.pressDirection direction w = (Normal tt, w)) /\
  Legacy.setInputState (Some left_frame) w =
    (Normal tt, set_host (set_Ob (fmap (fun _ => false)) (host w)) w) /\
  (reads left_frame "left" = true ->
   exists w',
     Direct.setInputState (Some left_frame) w = (Normal tt, w') /\
     Ob (Jc (host w')) !! 37%N = Some true).
Proof.
  assert (H1 : _keyboardHandler (tas (game_ready quiet_host)) = true) by reflexivity.
  assert (H2 : Ea (Jc (host (game_ready quiet_host))) = None) by reflexivity.
  assert (H3 : playable left_frame) by discriminate.
  split; [exact H1|]. split; [exact H2|]. split; [exact H3|].
  split; [reflexivity|].
  exact (Legacy_presses_nothing_without_a_key_map (game_ready quiet_host)
           left_frame H1 H2 H3).
Defined.

(** ** Initialisation *)

Lemma said_refl l w : said l 0 w w.
Proof. exists []. by rewrite app_nil_r. Qed.

Lemma said_trans l n m w1 w2 w3 :
  said l n w1 w2 -> said l m w2 w3 -> said l (n + m) w1 w3.
Proof.
  intros (a & Ea & La & Fa) (b & Eb & Lb & Fb). exists (a ++ b).
  rewrite Eb, Ea, <- app_assoc, length_app, Forall_app. by repeat split; try lia.
Qed.

Section AutoInit.
Variable tryInit : nat -> Page -> M (option Pending).
Variable finds : Page -> bool.
Variable warnings : nat.

Hypothesis missing_step : forall n page w,
  finds page = false ->
  exists w',
    tryInit n page w =
      (Normal (match n with S n' => Some (pending 500 (tryInit n')) | O => None end),
       w') /\
    tas w' = tas w /\ store w' = store w /\ host w' = host w /\
    said warn warnings w w'.

Hypothesis found_step : forall n page w,
  finds page = true ->
  exists w',
    tryInit n page w = (Normal None, w') /\
    _inputManager (tas w') = true /\ _keyboardHandler (tas w') = true /\
    _tickHooked (tas w') = (_tickHooked (tas w) || Vv_tick (host w)) /\
    store w' = store w /\ host w' = host w.

Lemma fire_none pages w : fire None pages w = (Normal None, w).
Proof. by destruct pages. Qed.

Lemma fire_gives_up n : forall pages w,
  S n <= length pages -> Forall (fun page => finds page = false) (take (S n) pages) ->
  exists w',
    fire (Some (pending 500 (tryInit n))) pages w = (Normal None, w') /\
    tas w' = tas w /\ store w' = store w /\ host w' = host w /\
    said warn (S n * warnings) w w'.
Proof using missing_step.
  induction n as [|n IH]; intros [|page pages] w Hlen Hall; cbn in Hlen; try lia.
  - cbn [fire]. apply Forall_cons in Hall as [Hp _].
    destruct (missing_step 0 page w Hp) as (w' & E & T & St & H & Hsaid).
    rewrite (bind_normal _ _ _ _ _ E), fire_none. exists w'.
    repeat split; try done. by rewrite Nat.mul_1_l.
  - cbn [fire]. rewrite firstn_cons in Hall. apply Forall_cons in Hall as [Hp Hall].
    destruct (missing_step (S n) page w Hp) as (w1 & E1 & T1 & S1 & H1 & Hsaid1).
    rewrite (bind_normal _ _ _ _ _ E1).
    destruct (IH pages w1) as (w' & E & T & St & H & Hsaid); [lia|done|].
    exists w'. split; [done|]. repeat split; try congruence.
    replace (S (S n) * warnings) with (warnings + S n * warnings) by lia.
    by eapply said_trans.
Qed.

Lemma fire_finds missing : forall n w page later,
  length missing <= n -> Forall (fun page => finds page = false) missing ->
  finds page = true ->
  exists w',
    fire (Some (pending 500 (tryInit n))) (missing ++ page :: later) w
      = (Normal None, w') /\
    _inputManager (tas w') = true /\ _keyboardHandler (tas w') = true /\
    _tickHooked (tas w') = (_tickHooked (tas w) || Vv_tick (host w)) /\
    store w' = store w /\ host w' = host w.
Proof using missing_step found_step.
  induction missing as [|p missing IH]; intros n w page later Hlen Hall Hf.
  - cbn [app fire].
    destruct (found_step n page w Hf) as (w' & E & ?).
    rewrite (bind_normal _ _ _ _ _ E), fire_none. by exists w'.
  - cbn [app fire]. apply Forall_cons in Hall as [Hp Hall].
    destruct n as [|n]; [cbn in Hlen; lia|].
    destruct (missing_step (S n) p w Hp) as (w1 & E1 & T1 & S1 & H1 & _).
    rewrite (bind_normal _ _ _ _ _ E1).
    destruct (IH n w1 page later) as (w' & E & ? & ? & ? & ? & ?);
      [cbn in Hlen; lia|done..|].
    exists w'. rewrite T1, H1 in *. repeat split; congruence.
Qed.
End AutoInit.

Lemma initialises on_load tryInit finds warnings :
  on_load = pending 500 (tryInit 10) ->
  (forall n page w,
     finds page = false ->
     exists w',
       tryInit n page w =
         (Normal (match n with S n' => Some (pending 500 (tryInit n')) | O => None end),
          w') /\
       tas w' = tas w /\ store w' = store w /\ host w' = host w /\
       said warn warnings w w') ->
  (forall n page w,
     finds page = true ->
     exists w',
       tryInit n page w = (Normal None, w') /\
       _inputManager (tas w') = true /\ _keyboardHandler (tas w') = true /\
       _tickHooked (tas w') = (_tickHooked (tas w) || Vv_tick (host w)) /\
       store w' = store w /\ host w' = host w) ->
  initialises_itself on_load tryInit finds warnings.
Proof.
  intros -> Hmiss Hfound. split; [done|]. split.
  - intros w pages Hlen Hall. by apply (fire_gives_up tryInit finds warnings Hmiss 10).
  - intros w missing page later Hlen Hall Hf.
    by apply (fire_finds tryInit finds warnings Hmiss Hfound).
Qed.

Lemma Direct_tryInit_missing n page w :
  Direct_finds page = false ->
  exists w',
    Direct.tryInit n page w =
      (Normal (match n with
               | S n' => Some (pending 500 (Direct.tryInit n'))
               | O => None
               end), w') /\
    tas w' = tas w /\ store w' = store w /\ host w' = host w /\
    said warn 2 w w'.
Proof.
  unfold Direct_finds. intros [HWv Hxh]%orb_false_iff.
  destruct n as [|n]; cbn [Direct.tryInit]; unfold Direct.init; rewrite HWv;
    (destruct (xh_yp page) as [[[]|]|]; try done); run;
    eexists; (split; [reflexivity|]); cbn;
    (split; [done|]); (split; [done|]); (split; [done|]);
    eexists [_; _]; cbn; (split; [by rewrite <- app_assoc|]);
    (split; [reflexivity|]); by repeat constructor.
Qed.

Lemma Direct_tryInit_found n page w :
  Direct_finds page = true ->
  exists w',
    Direct.tryInit n page w = (Normal None, w') /\
    _inputManager (tas w') = true /\ _keyboardHandler (tas w') = true /\
    _tickHooked (tas w') = (_tickHooked (tas w) || Vv_tick (host w)) /\
    store w' = store w /\ host w' = host w.
Proof.
  unfold Direct_finds. intros Hf.
  destruct n as [|n]; cbn [Direct.tryInit]; unfold Direct.init, Direct._hookGameTick;
    (destruct (Wv page) eqn:HWv;
     [|destruct (xh_yp page) as [[[]|]|]; try done]); run;
    (destruct (_tickHooked (tas w)) eqn:Hh; cbn; rewrite ?Hh; cbn;
     [|destruct (Vv_tick (host w)) eqn:Hv; cbn]);
    eexists; (split; [reflexivity|]); by cbn.
Qed.

Lemma Dispatch_tryInit_missing n page w :
  Dispatch_finds page = false ->
  exists w',
    Dispatch.tryInit n page w =
      (Normal (match n with
               | S n' => Some (pending 500 (Dispatch.tryInit n'))
               | O => None
               end), w') /\
    tas w' = tas w /\ store w' = store w /\ host w' = host w /\
    said warn 1 w w'.
Proof.
  unfold Dispatch_finds. intros HWv.
  destruct n as [|n]; cbn [Dispatch.tryInit]; unfold Dispatch.init; rewrite HWv;
    run; eexists; (split; [reflexivity|]); cbn;
    (split; [done|]); (split; [done|]); (split; [done|]);
    eexists [_]; cbn; (split; [reflexivity|]); (split; [reflexivity|]);
    by repeat constructor.
Qed.

Lemma Dispatch_tryInit_found n page w :
  Dispatch_finds page = true ->
  exists w',
    Dispatch.tryInit n page w = (Normal None, w') /\
    _inputManager (tas w') = true /\ _keyboardHandler (tas w') = true /\
    _tickHooked (tas w') = (_tickHooked (tas w) || Vv_tick (host w)) /\
    store w' = store w /\ host w' = host w.
Proof.
  unfold Dispatch_finds. intros HWv.
  destruct n as [|n]; cbn [Dispatch.tryInit];
    unfold Dispatch.init, Dispatch._hookGameTick; rewrite HWv; run;
    (destruct (_tickHooked (tas w)) eqn:Hh; cbn; rewrite ?Hh; cbn;
     [|destruct (Vv_tick (host w)) eqn:Hv; cbn]);
    eexists; (split; [reflexivity|]); by cbn.
Qed.

(** X14. The script initialises itself by a timer of 500 ms that calls
    [tryInit(10)], and [tryInit] sets the same timer again, with one
    attempt less, while [init] fails and attempts are left.  So [init] is
    tried at most 11 times.  If the game is missing at each of the first
    11 firings, the script gives up: no timer is left, the TAS object is
    as it was, unbound also if the game appears later, and the console
    got two warnings per attempt in [part_000] and one in [tas.js].  If
    the game is found at one of the first 11 firings, the attempts end
    there: the two references are bound, the game tick is hooked when
    the game has one, and no timer is left.  In [part_000] the game is
    found through [Wv] or through a call [xh(yp)] that returns it; a call
    that throws counts as missing. *)
Theorem tryInit_gives_up_after_eleven_attempts :
  initialises_itself Direct.on_load Direct.tryInit Direct_finds 2 /\
  initialises_itself Dispatch.on_load Dispatch.tryInit Dispatch_finds 1.
Proof.
  split; (apply initialises; [reflexivity| |]).
  - apply Direct_tryInit_missing.
  - apply Direct_tryInit_found.
  - apply Dispatch_tryInit_missing.
  - apply Dispatch_tryInit_found.
Qed.

Lemma tryInit_gives_up_after_eleven_attempts_witness :
  let w := page_load quiet_host in
  let pages := replicate 11 page_without_game ++ [page_with_game] in
  11 <= length pages /\
  Forall (fun page => Direct_finds page = false) (take 11 pages) /\
  exists w',
    fire (Some Direct.on_load) pages w = (Normal None, w') /\
    tas w' = tas w /\ store w' = store w /\ host w' = host w /\
    said warn (11 * 2) w w'.
Proof.
  assert (H1 : 11 <= length (replicate 11 page_without_game ++ [page_with_game]))
    by (cbn; lia).
  assert (H2 : Forall (fun page => Direct_finds page = false)
                 (take 11 (replicate 11 page_without_game ++ [page_with_game])))
    by (cbn; repeat constructor).
  split; [exact H1|]. split; [exact H2|].
  exact (proj1 (proj2 (proj1 tryInit_gives_up_after_eleven_attempts))
           (page_load quiet_host) _ H1 H2).
Defined.

(** ** The frame counter *)

Section Counting.
Variable tick : (Host -> Host) -> M unit.
Variable recordFrame : M unit.
Variable playbackFrame : M bool.
Variable released : World -> Host -> Prop.

Hypothesis tick_recording : forall f w,
  _isRecording (tas w) = true ->
  tick f w =
    (recordFrame;; s ← this; when (_isPlaying s) (playbackFrame;; mret tt))
      (set_host (f (host w)) w).

Hypothesis recordFrame_counts : forall w l xs,
  _isRecording (tas w) = true -> _recording (tas w) = VArr l ->
  store w !! l = Some xs ->
  exists w' ys,
    recordFrame w = (Normal tt, w') /\
    tas w' = set_frameCount (S (_frameCount (tas w))) (tas w) /\
    store w' !! l = Some (xs ++ ys) /\ Forall playable ys.

Hypothesis playbackFrame_array : forall w l xs,
  _recording (tas w) = VArr l -> store w !! l = Some xs -> Forall playable xs ->
  exists b w',
    playbackFrame w = (Normal b, w') /\ playback_step released xs w b w'.

Lemma tick_counts f l n w :
  counting_at l n w ->
  exists w', tick f w = (Normal tt, w') /\ counting_at l (S n) w'.
Proof using tick_recording recordFrame_counts playbackFrame_array.
  intros (Hrec & Hr & Hn & xs & Hl & Hp).
  rewrite tick_recording by done.
  destruct (recordFrame_counts (set_host (f (host w)) w) l xs)
    as (w1 & ys & E1 & T1 & Hl1 & Hys); [done..|].
  rewrite (bind_normal _ _ _ _ _ E1). cbn in T1.
  assert (Hp1 : Forall playable (xs ++ ys)) by (apply Forall_app; by split).
  assert (Hinv1 : counting_at l (S n) w1).
  { unfold counting_at. rewrite T1. cbn. rewrite Hn. repeat split; try done.
    by exists (xs ++ ys). }
  cbv [mbind M_bind bind this]. cbn.
  destruct (_isPlaying (tas w1)) eqn:Hplay; cbn; [|by exists w1].
  destruct (playbackFrame_array w1 l (xs ++ ys)) as (b & w' & E & Hs' & Hsame & _);
    [apply Hinv1 | done..|].
  rewrite E. exists w'. split; [done|].
  destruct Hinv1 as (? & ? & ? & _).
  destruct Hsame as (? & ? & ? & ? & ? & ?).
  unfold counting_at. repeat split; try congruence.
  exists (xs ++ ys). by rewrite Hs'.
Qed.

Lemma observe_counts fs : forall l n w,
  counting_at l n w ->
  exists w', observe tick fs w = (Normal tt, w') /\ counting_at l (n + length fs) w'.
Proof using tick_recording recordFrame_counts playbackFrame_array.
  induction fs as [|f fs IH]; intros l n w Hinv; cbn.
  - exists w. by rewrite Nat.add_0_r.
  - destruct (tick_counts f l n w Hinv) as (w1 & E1 & Hinv1).
    destruct (IH l (S n) w1 Hinv1) as (w' & E & Hinv').
    exists w'. rewrite (bind_normal _ _ _ _ _ E1). split; [done|].
    by replace (n + S (length fs)) with (S n + length fs) by lia.
Qed.
End Counting.

Lemma Direct_recordFrame_counts w l xs :
  _isRecording (tas w) = true -> _recording (tas w) = VArr l ->
  store w !! l = Some xs ->
  exists w' ys,
    Direct.recordFrame w = (Normal tt, w') /\
    tas w' = set_frameCount (S (_frameCount (tas w))) (tas w) /\
    store w' !! l = Some (xs ++ ys) /\ Forall playable ys.
Proof.
  intros Hrec Hr Hl. destruct (_inputManager (tas w)) eqn:Him.
  - rewrite (Direct_recordFrame_bound w l xs) by done.
    eexists _, [_]. split; [reflexivity|]. cbn. split; [done|].
    rewrite list_lookup_insert_eq by (by eapply lookup_lt_Some).
    split; [done|]. by repeat constructor.
  - unfold Direct.recordFrame, Direct.getInputState. run.
    rewrite Hrec. cbn. rewrite Him. cbn.
    eexists _, []. split; [reflexivity|]. cbn. by rewrite app_nil_r.
Qed.

Lemma Direct_startRecording_counting w :
  exists w0,
    Direct.startRecording w = (Normal tt, w0) /\
    counting_at (length (store w)) 0 w0.
Proof.
  unfold Direct.startRecording, Direct._hookGameTick. run.
  destruct (_tickHooked (tas w)) eqn:Hh; cbn; rewrite ?Hh; cbn;
    [|destruct (Vv_tick (host w)) eqn:Hv; cbn];
    eexists; (split; [reflexivity|]); unfold counting_at; cbn;
    (repeat split; try done); exists []; by rewrite lookup_alloc.
Qed.

(** X15. [getFrameCount()] in [part_000] returns the frame counter of
    the recorder, not a count kept by the game: after [startRecording()]
    and any number of observed ticks it returns the number of these ticks,
    whether or not the input manager is bound and whether or not a
    playback runs at the same time. *)
Theorem getFrameCount_counts_the_recorded_ticks :
  counts_the_ticks Direct.startRecording Direct.tick Direct.getFrameCount.
Proof.
  intros w fs.
  destruct (Direct_startRecording_counting w) as (w0 & E0 & Hinv0).
  destruct (observe_counts Direct.tick Direct.recordFrame Direct.playbackFrame
              Direct_released Direct_tick_recording Direct_recordFrame_counts
              Direct_playbackFrame_array fs _ 0 w0 Hinv0) as (w1 & E1 & Hinv1).
  exists w1. rewrite (bind_normal _ _ _ _ _ E0), (bind_normal _ _ _ _ _ E1).
  unfold Direct.getFrameCount. run. by destruct Hinv1 as (_ & _ & -> & _).
Qed.

(** ** Importing something else than a sequence *)

(** X16. [importRecording(data)] for a [data] that is neither an array
    nor a string (a number, a boolean, an object, [null], [undefined])
    returns [false] after one [console.error] and leaves the session, the
    store and the host as they were. *)
Theorem importRecording_rejects_other_types :
  forall (w : World) (data : value),
    neither_array_nor_string data ->
    (exists w',
       Direct.importRecording data w = (Normal false, w') /\
       same_state w w' /\ reported error w w') /\
    (exists w',
       Dispatch.importRecording data w = (Normal false, w') /\
       same_state w w' /\ reported error w w').
Proof.
  intros w data H.
  destruct data; try done;
    (split; [unfold Direct.importRecording | unfold Dispatch.importRecording]);
    run; eexists; (split; [reflexivity|]); (split; [done|]); by eexists _, _.
Qed.

Lemma importRecording_rejects_other_types_witness :
  neither_array_nor_string (VNum 5 0) /\
  (exists w',
     Direct.importRecording (VNum 5 0) stored_world = (Normal false, w') /\
     same_state stored_world w' /\ reported error stored_world w') /\
  (exists w',
     Dispatch.importRecording (VNum 5 0) stored_world = (Normal false, w') /\
     same_state stored_world w' /\ reported error stored_world w').
Proof.
  assert (H : neither_array_nor_string (VNum 5 0)) by exact I.
  split; [exact H|].
  exact (importRecording_rejects_other_types stored_world (VNum 5 0) H).
Defined.

(** ** Setting the input manager by hand *)

(** X17. [setInputManager] with the game's input manager binds the two
    references, so that [isGameReady()] returns [true].  With [null] it
    clears the input manager and leaves the keyboard handler: then
    [isGameReady()] returns [false] and [recordFrame()] stores no frame,
    while [pressKey], when the keyboard handler was bound, still sets the
    key in the game's pressed-key map. *)
Theorem setInputManager_null_keeps_the_keyboard_handler :
  forall (w : World) (keyCode : N),
    (exists w1,
       (Direct.setInputManager true;; Direct.isGameReady) w = (Normal true, w1) /\
       _inputManager (tas w1) = true /\ _keyboardHandler (tas w1) = true) /\
    (exists w1,
       (Direct.setInputManager false;; Direct.isGameReady) w = (Normal false, w1) /\
       _inputManager (tas w1) = false /\
       _keyboardHandler (tas w1) = _keyboardHandler (tas w) /\
       (exists w2,
          Direct.recordFrame w1 = (Normal tt, w2) /\ store w2 = store w1) /\
       (_keyboardHandler (tas w) = true ->
        exists w2,
          Direct.pressKey keyCode w1 = (Normal tt, w2) /\
          Ob (Jc (host w2)) !! keyCode = Some true)).
Proof.
  intros w k. split.
  - unfold Direct.setInputManager, Direct.isGameReady. run. by eexists.
  - unfold Direct.setInputManager, Direct.isGameReady. run.
    eexists. split; [reflexivity|]. cbn. split; [done|]. split; [done|]. split.
    + unfold Direct.recordFrame, Direct.getInputState. run.
      destruct (_isRecording (tas w)); cbn; by eexists.
    + intros Hk. unfold Direct.pressKey. run. rewrite Hk. cbn.
      eexists. split; [reflexivity|]. cbn. apply lookup_insert_eq.
Qed.

(** ** The hook when nothing runs *)

Lemma set_host_set_host h h' w : set_host h' (set_host h w) = set_host h' w.
Proof. done. Qed.

Lemma idle_transparent tick :
  (forall f w, idle (tas w) -> tick f w = (Normal tt, set_host (f (host w)) w)) ->
  transparent_when_idle tick.
Proof.
  intros Htick w fs. revert w.
  induction fs as [|f fs IH]; intros w Hidle; cbn [observe game_ticks foldl].
  - by destruct w.
  - rewrite (bind_normal _ _ _ _ _ (Htick f w Hidle)).
    rewrite IH by done. done.
Qed.

(** X25. An idle TAS leaves the game alone: in a session that is neither
    recording nor playing, any number of hooked ticks do to the host what
    the game's own ticks do, and change neither the TAS object nor the
    store nor the console. *)
Theorem hooked_tick_is_transparent_when_idle :
  transparent_when_idle Direct.tick /\ transparent_when_idle Dispatch.tick.
Proof.
  split; apply idle_transparent; intros f w [Hrec Hplay].
  - unfold Direct.tick. run. rewrite Hrec. cbn. by rewrite Hplay.
  - unfold Dispatch.tick. run. rewrite Hrec. cbn. by rewrite Hplay.
Qed.

Lemma hooked_tick_is_transparent_when_idle_witness :
  idle (tas (game_ready quiet_host)) /\
  observe Direct.tick [hold_left; let_go] (game_ready quiet_host)
    = (Normal tt,
       set_host (game_ticks [hold_left; let_go] (host (game_ready quiet_host)))
         (game_ready quiet_host)).
Proof.
  assert (H : idle (tas (game_ready quiet_host))) by (split; reflexivity).
  split; [exact H|].
  exact (proj1 hooked_tick_is_transparent_when_idle (game_ready quiet_host)
           [hold_left; let_go] H).
Defined.

(** ** What the recorder stores *)

Lemma Direct_tick_stores_a_record : tick_stores_a_record Direct.tick flagged_record.
Proof.
  intros f w l xs Hrec Hplay Him Hr Hl.
  rewrite (Direct_tick_recording f w Hrec).
  cbv [mbind M_bind bind].
  rewrite (Direct_recordFrame_bound (set_host (f (host w)) w) l xs) by done.
  run. by rewrite Hplay.
Qed.

Lemma Dispatch_tick_stores_a_record : tick_stores_a_record Dispatch.tick frame_record.
Proof.
  intros f w l xs Hrec Hplay Him Hr Hl.
  rewrite (Dispatch_tick_recording f w Hrec).
  cbv [mbind M_bind bind].
  rewrite (Dispatch_recordFrame_bound (set_host (f (host w)) w) l xs) by done.
  run. by rewrite Hplay.
Qed.

Lemma observe_stores_the_slots tick record fs :
  tick_stores_a_record tick record ->
  forall w l xs,
    _isRecording (tas w) = true -> _isPlaying (tas w) = false ->
    _inputManager (tas w) = true -> _recording (tas w) = VArr l ->
    store w !! l = Some xs ->
    exists w',
      observe tick fs w = (Normal tt, w') /\
      _recording (tas w') = VArr l /\
      store w' !! l = Some (xs ++ recorded record (_frameCount (tas w)) fs (host w)) /\
      host w' = game_ticks fs (host w).
Proof.
  intros Htick.
  induction fs as [|f fs IH]; intros w l xs Hrec Hplay Him Hr Hl;
    cbn [observe recorded game_ticks foldl].
  - exists w. by rewrite app_nil_r.
  - rewrite (bind_normal _ _ _ _ _ (Htick f w l xs Hrec Hplay Him Hr Hl)).
    match goal with |- context [observe tick fs ?w1] => set (w1' := w1) end.
    destruct (IH w1' l
                (xs ++ [record (Z.of_nat (_frameCount (tas w)))
                          (slot (f (host w)) 0) (slot (f (host w)) 1)
                          (slot (f (host w)) 2) (slot (f (host w)) 3)
                          (slot (f (host w)) 4) (slot (f (host w)) 5)]))
      as (w' & E & Hr' & Hl' & Hh'); try done.
    { apply list_lookup_insert_eq. by eapply lookup_lt_Some. }
    exists w'. split; [exact E|]. split; [exact Hr'|]. cbn in Hl', Hh'.
    by rewrite Hl', Hh', <- app_assoc.
Qed.

Lemma Direct_startRecording_fresh w :
  exists w0,
    Direct.startRecording w = (Normal tt, w0) /\
    _isPlaying (tas w0) = _isPlaying (tas w) /\ _isRecording (tas w0) = true /\
    _inputManager (tas w0) = _inputManager (tas w) /\
    _playbackIndex (tas w0) = _playbackIndex (tas w) /\
    _frameCount (tas w0) = 0 /\
    _recording (tas w0) = VArr (length (store w)) /\
    store w0 = store w ++ [[]] /\ host w0 = host w.
Proof.
  unfold Direct.startRecording, Direct._hookGameTick. run.
  destruct (_tickHooked (tas w)) eqn:Hh; cbn; rewrite ?Hh; cbn;
    [|destruct (Vv_tick (host w)) eqn:Hv; cbn];
    eexists; (split; [reflexivity|]); by cbn.
Qed.

Lemma Dispatch_startRecording_fresh w :
  exists w0,
    Dispatch.startRecording w = (Normal tt, w0) /\
    _isPlaying (tas w0) = _isPlaying (tas w) /\ _isRecording (tas w0) = true /\
    _inputManager (tas w0) = _inputManager (tas w) /\
    _playbackIndex (tas w0) = _playbackIndex (tas w) /\
    _frameCount (tas w0) = 0 /\
    _recording (tas w0) = VArr (length (store w)) /\
    store w0 = store w ++ [[]] /\ host w0 = host w.
Proof.
  unfold Dispatch.startRecording, Dispatch._hookGameTick. run.
  destruct (_tickHooked (tas w)) eqn:Hh; cbn; rewrite ?Hh; cbn;
    [|destruct (Vv_tick (host w)) eqn:Hv; cbn];
    eexists; (split; [reflexivity|]); by cbn.
Qed.

Lemma slots_recorded startRecording tick stopRecording record t :
  tick_stores_a_record tick record ->
  (forall w, exists w0,
     startRecording w = (Normal tt, w0) /\
     _isPlaying (tas w0) = _isPlaying (tas w) /\ _isRecording (tas w0) = true /\
     _inputManager (tas w0) = _inputManager (tas w) /\
     _playbackIndex (tas w0) = _playbackIndex (tas w) /\
     _frameCount (tas w0) = 0 /\
     _recording (tas w0) = VArr (length (store w)) /\
     store w0 = store w ++ [[]] /\ host w0 = host w) ->
  stopRecording =
    (update (set_isRecording false);;
     s ← this;
     n ← length_of (_recording s);
     say log t [n];;
     slice (_recording s)) ->
  records_the_slots startRecording tick stopRecording record.
Proof.
  intros Htick Hstart Hstop w fs Him Hplay.
  destruct (Hstart w) as (w0 & E0 & Hp0 & Hrec0 & Him0 & _ & Hn0 & Hr0 & Hs0 & Hh0).
  destruct (observe_stores_the_slots tick record fs Htick w0 (length (store w)) []
              Hrec0)
    as (w1 & E1 & Hr1 & Hl1 & Hh1); try congruence.
  { by rewrite Hs0, lookup_app_r, Nat.sub_diag. }
  rewrite Hn0, Hh0 in Hl1. cbn [app] in Hl1.
  rewrite (bind_normal _ _ _ _ _ E0), (bind_normal _ _ _ _ _ E1).
  subst stopRecording. run. rewrite Hr1.
  erewrite length_of_array by (cbn; eassumption). cbn.
  erewrite slice_array by (cbn; eassumption). cbn.
  eexists _, _. split; [reflexivity|]. cbn.
  rewrite lookup_alloc. split; [done|]. congruence.
Qed.

(** X26. What a recording holds: started in a session that is not playing
    and has its input manager bound, the recording that [stopRecording()]
    returns after the ticks [fs] has one record per tick, and record [i]
    holds frame number [i] and the six direction slots as the game's own
    tick [i] left them; the host is what the game's ticks alone make it,
    so recording reads the game and does not act on it. *)
Theorem recording_holds_the_slots_of_each_tick :
  records_the_slots Direct.startRecording Direct.tick Direct.stopRecording
    flagged_record /\
  records_the_slots Dispatch.startRecording Dispatch.tick Dispatch.stopRecording
    frame_record.
Proof.
  split.
  - eapply slots_recorded; [apply Direct_tick_stores_a_record
                           |apply Direct_startRecording_fresh|reflexivity].
  - eapply slots_recorded; [apply Dispatch_tick_stores_a_record
                           |apply Dispatch_startRecording_fresh|reflexivity].
Qed.

Lemma recording_holds_the_slots_of_each_tick_witness :
  _inputManager (tas (game_ready quiet_host)) = true /\
  _isPlaying (tas (game_ready quiet_host)) = false /\
  exists l w',
    (Direct.startRecording;; observe Direct.tick [hold_left; let_go];;
     Direct.stopRecording) (game_ready quiet_host) = (Normal (VArr l), w') /\
    store w' !! l
      = Some (recorded flagged_record 0 [hold_left; let_go]
                (host (game_ready quiet_host))) /\
    host w' = game_ticks [hold_left; let_go] (host (game_ready quiet_host)).
Proof.
  assert (Him : _inputManager (tas (game_ready quiet_host)) = true) by reflexivity.
  assert (Hp : _isPlaying (tas (game_ready quiet_host)) = false) by reflexivity.
  split; [exact Him|]. split; [exact Hp|].
  exact (proj1 recording_holds_the_slots_of_each_tick (game_ready quiet_host)
           [hold_left; let_go] Him Hp).
Defined.

(** ** What a tick of a playback does to the game *)

(** X27. What each tick of a playback does to the game: after
    [startPlayback(xs)] and [k] ticks with [k < xs.length], the next tick
    first runs the game's own tick and then applies frame [k] to what the
    game left.  In the copy, with the keyboard handler bound, every key of
    the pressed-key map is set up and the keys of the frame's truthy flags
    are set down; in [tas.js] the seven [keyup] events and the [keydown]
    events of the frame's truthy flags are dispatched, one after the
    other, to the page's listeners, and the game's objects are what those
    listeners make of them. *)
Theorem playback_tick_applies_its_frame :
  tick_applies_its_frame Direct.startPlayback Direct.tick handler_bound
    Direct_frame_applied /\
  tick_applies_its_frame Dispatch.startPlayback Dispatch.tick any_session
    Dispatch_frame_applied.
Proof. split; [apply Direct_applies_its_frame | apply Dispatch_applies_its_frame]. Qed.

Lemma playback_tick_applies_its_frame_witness :
  (exists w0 w1 w',
     Direct.startPlayback (VArr 1)
       (with_sequence bound_session quiet_host [left_frame; waited 1])
       = (Normal tt, w0) /\
     observe Direct.tick [hold_left] w0 = (Normal tt, w1) /\
     Direct.tick let_go w1 = (Normal tt, w') /\
     host w' = Direct_frame_applied (waited 1) (let_go (host w1))) /\
  (exists w0 w1 w',
     Dispatch.startPlayback (VArr 1)
       (with_sequence bound_session listening_host [left_frame; waited 1])
       = (Normal tt, w0) /\
     observe Dispatch.tick [] w0 = (Normal tt, w1) /\
     Dispatch.tick hold_left w1 = (Normal tt, w') /\
     host w' = Dispatch_frame_applied left_frame (hold_left (host w1))) /\
  Ob (Jc (Dispatch_frame_applied left_frame (hold_left listening_host))) !! 37%N
    = Some true.
Proof.
  split; [|split; [|reflexivity]].
  - apply (proj1 playback_tick_applies_its_frame
             (with_sequence bound_session quiet_host [left_frame; waited 1])
             1 [left_frame; waited 1] [hold_left] let_go (waited 1)).
    + reflexivity.
    + repeat constructor; discriminate.
    + reflexivity.
    + reflexivity.
  - apply (proj2 playback_tick_applies_its_frame
             (with_sequence bound_session listening_host [left_frame; waited 1])
             1 [left_frame; waited 1] [] hold_left left_frame).
    + reflexivity.
    + repeat constructor; discriminate.
    + exact I.
    + reflexivity.
Defined.

(** ** Recording started before the first tick of a playback *)

Section Echo.
Variable tick : (Host -> Host) -> M unit.
Variable recordFrame : M unit.
Variable playbackFrame : M bool.
Variable released : World -> Host -> Prop.
Variable record : Z -> bool -> bool -> bool -> bool -> bool -> bool -> json.

Hypothesis tick_recording : forall f w,
  _isRecording (tas w) = true ->
  tick f w =
    (recordFrame;;
     s ← this; when (_isPlaying s) (playbackFrame;; mret tt))
      (set_host (f (host w)) w).

Hypothesis recordFrame_bound : forall w l xs,
  _isRecording (tas w) = true -> _inputManager (tas w) = true ->
  _recording (tas w) = VArr l -> store w !! l = Some xs ->
  recordFrame w =
    (Normal tt,
     {| tas := set_frameCount (S (_frameCount (tas w))) (tas w);
        store := <[l := xs ++ [record (Z.of_nat (_frameCount (tas w)))
                                 (slot (host w) 0) (slot (host w) 1)
                                 (slot (host w) 2) (slot (host w) 3)
                                 (slot (host w) 4) (slot (host w) 5)]]> (store w);
        host := host w; console := console w |}).

Hypothesis record_playable : forall n a b c d e g, playable (record n a b c d e g).

Hypothesis playbackFrame_array : forall w l xs,
  _recording (tas w) = VArr l -> store w !! l = Some xs -> Forall playable xs ->
  exists b w',
    playbackFrame w = (Normal b, w') /\ playback_step released xs w b w'.

Lemma tick_echoes f l n w :
  echoing_at l n w ->
  exists w', tick f w = (Normal tt, w') /\ echoing_at l (S n) w'.
Proof using tick_recording recordFrame_bound record_playable playbackFrame_array.
  intros (Hrec & Hplay & Him & Hr & Hn & Hi & xs & Hl & Hlen & Hp).
  rewrite (tick_recording f w Hrec).
  rewrite (bind_normal _ _ _ _ _
             (recordFrame_bound (set_host (f (host w)) w) l xs Hrec Him Hr Hl)).
  cbv [mbind M_bind bind this]. cbn. rewrite Hplay. cbn [when].
  match goal with |- context [playbackFrame ?w1] => set (w1' := w1) end.
  destruct (playbackFrame_array w1' l
              (xs ++ [record (Z.of_nat (_frameCount (tas w)))
                        (slot (f (host w)) 0) (slot (f (host w)) 1)
                        (slot (f (host w)) 2) (slot (f (host w)) 3)
                        (slot (f (host w)) 4) (slot (f (host w)) 5)]))
    as (b & w' & E & Hs' & Hsame & Hstep).
  { done. }
  { apply list_lookup_insert_eq. by eapply lookup_lt_Some. }
  { apply Forall_app. split; [done|]. by constructor. }
  rewrite E. exists w'. split; [done|].
  cbn in Hstep, Hsame, Hs'. rewrite Hplay, Hi, length_app, Hlen in Hstep.
  cbn in Hstep. rewrite (proj2 (Nat.leb_gt (n + 1) n)) in Hstep by lia.
  destruct Hstep as (_ & Hp' & Hi').
  destruct Hsame as (Him' & _ & Hr' & Hrec' & Hn' & _). cbn in *.
  unfold echoing_at. repeat split; try congruence.
  eexists. rewrite Hs'. split; [by apply list_lookup_insert_eq, lookup_lt_Some with xs|].
  split; [rewrite length_app; cbn; lia|].
  apply Forall_app. split; [done|]. by constructor.
Qed.

Lemma observe_echoes fs : forall l n w,
  echoing_at l n w ->
  exists w', observe tick fs w = (Normal tt, w') /\ echoing_at l (n + length fs) w'.
Proof using tick_recording recordFrame_bound record_playable playbackFrame_array.
  induction fs as [|f fs IH]; intros l n w Hinv; cbn.
  - exists w. by rewrite Nat.add_0_r.
  - destruct (tick_echoes f l n w Hinv) as (w1 & E1 & Hinv1).
    destruct (IH l (S n) w1 Hinv1) as (w' & E & Hinv').
    exists w'. rewrite (bind_normal _ _ _ _ _ E1). split; [done|].
    by replace (n + S (length fs)) with (S n + length fs) by lia.
Qed.
End Echo.

Lemma echo_from_start startRecording tick recordFrame playbackFrame released record :
  (forall f w, _isRecording (tas w) = true ->
     tick f w =
       (recordFrame;;
        s ← this; when (_isPlaying s) (playbackFrame;; mret tt))
         (set_host (f (host w)) w)) ->
  (forall w l xs,
     _isRecording (tas w) = true -> _inputManager (tas w) = true ->
     _recording (tas w) = VArr l -> store w !! l = Some xs ->
     recordFrame w =
       (Normal tt,
        {| tas := set_frameCount (S (_frameCount (tas w))) (tas w);
           store := <[l := xs ++ [record (Z.of_nat (_frameCount (tas w)))
                                    (slot (host w) 0) (slot (host w) 1)
                                    (slot (host w) 2) (slot (host w) 3)
                                    (slot (host w) 4) (slot (host w) 5)]]> (store w);
           host := host w; console := console w |})) ->
  (forall n a b c d e g, playable (record n a b c d e g)) ->
  (forall w l xs,
     _recording (tas w) = VArr l -> store w !! l = Some xs -> Forall playable xs ->
     exists b w', playbackFrame w = (Normal b, w') /\ playback_step released xs w b w') ->
  (forall w, exists w0,
     startRecording w = (Normal tt, w0) /\
     _isPlaying (tas w0) = _isPlaying (tas w) /\ _isRecording (tas w0) = true /\
     _inputManager (tas w0) = _inputManager (tas w) /\
     _playbackIndex (tas w0) = _playbackIndex (tas w) /\
     _frameCount (tas w0) = 0 /\
     _recording (tas w0) = VArr (length (store w)) /\
     store w0 = store w ++ [[]] /\ host w0 = host w) ->
  echoes_without_end startRecording tick.
Proof.
  intros Htick Hrecord Hplayable Hframe Hstart w fs Hplay Hi Him.
  destruct (Hstart w) as (w0 & E0 & Hp0 & Hrec0 & Him0 & Hi0 & Hn0 & Hr0 & Hs0 & _).
  assert (Hinv : echoing_at (length (store w)) 0 w0).
  { unfold echoing_at. repeat split; try congruence.
    exists []. by rewrite Hs0, lookup_app_r, Nat.sub_diag. }
  destruct (observe_echoes tick recordFrame playbackFrame released record
              Htick Hrecord Hplayable Hframe fs _ 0 w0 Hinv) as (w' & E & Hinv').
  destruct Hinv' as (? & ? & ? & ? & ? & ? & xs & ? & ? & ?).
  exists w', xs. rewrite (bind_normal _ _ _ _ _ E0). by repeat split.
Qed.

(** X28. Recording started before the first tick of a playback: when
    [startRecording()] is called in a session that is playing with the
    cursor still on 0 and the input manager bound, every tick records a
    frame and [playbackFrame] plays that frame at once, so after any number
    of ticks the session is still playing and recording, and the cursor
    and the length of the recording both equal the number of ticks: the
    playback does not end by itself. *)
Theorem recording_from_the_start_of_a_playback_never_ends :
  echoes_without_end Direct.startRecording Direct.tick /\
  echoes_without_end Dispatch.startRecording Dispatch.tick.
Proof.
  split.
  - apply (echo_from_start _ _ Direct.recordFrame Direct.playbackFrame
             Direct_released flagged_record).
    + apply Direct_tick_recording.
    + apply Direct_recordFrame_bound.
    + done.
    + apply Direct_playbackFrame_array.
    + apply Direct_startRecording_fresh.
  - apply (echo_from_start _ _ Dispatch.recordFrame Dispatch.playbackFrame
             Dispatch_released frame_record).
    + apply Dispatch_tick_recording.
    + apply Dispatch_recordFrame_bound.
    + done.
    + apply Dispatch_playbackFrame_array.
    + apply Dispatch_startRecording_fresh.
Qed.

Lemma recording_from_the_start_of_a_playback_never_ends_witness :
  exists w' xs,
    (Direct.startRecording;; observe Direct.tick [hold_left; let_go; let_go])
      fresh_playback_world = (Normal tt, w') /\
    _isPlaying (tas w') = true /\ _isRecording (tas w') = true /\
    _playbackIndex (tas w') = 3 /\
    _recording (tas w') = VArr 2 /\
    store w' !! 2 = Some xs /\ length xs = 3.
Proof.
  apply (proj1 recording_from_the_start_of_a_playback_never_ends
           fresh_playback_world [hold_left; let_go; let_go]); reflexivity.
Defined.

(** ** The service worker: strings *)

Import ServiceWorker.

Lemma startsWith_app p r : startsWith p (p ++ r) = true.
Proof. induction p as [|c p IH]; cbn; [done|]. by rewrite N.eqb_refl. Qed.

Lemma startsWith_prefix p : forall s,
  startsWith p s = true -> s = p ++ drop (length p) s.
Proof.
  induction p as [|c p IH]; intros [|d s]; cbn; try done.
  intros [->%N.eqb_eq H]%andb_true_iff. f_equal. by apply IH.
Qed.

Lemma startsWith_nil s : startsWith [] s = true.
Proof. by destruct s. Qed.

Lemma endsWith_nil s : endsWith [] s = true.
Proof.
  unfold endsWith. cbn. done.
Qed.

Lemma endsWith_app r p : endsWith p (r ++ p) = true.
Proof.
  unfold endsWith. rewrite length_app.
  replace (length r + length p - length p) with (length r) by lia.
  rewrite drop_app_length.
  pose proof (startsWith_app p []) as H. rewrite app_nil_r in H.
  rewrite H, andb_true_r. apply Nat.leb_le. lia.
Qed.

Lemma endsWith_suffix p s : endsWith p s = true -> exists r, s = r ++ p.
Proof.
  unfold endsWith. intros [Hle%Nat.leb_le H]%andb_true_iff.
  exists (take (length s - length p) s).
  rewrite <- (take_drop (length s - length p) s) at 1. f_equal.
  apply startsWith_prefix in H. rewrite H at 1.
  rewrite drop_ge, app_nil_r; [done|]. rewrite length_drop. lia.
Qed.

Lemma replace_prefix p t r : replace p t (p ++ r) = t ++ r.
Proof.
  destruct (p ++ r) eqn:E; cbn.
  - destruct p; [|done]. cbn in E. subst. by rewrite startsWith_nil.
  - rewrite <- E, startsWith_app. by rewrite drop_app_length.
Qed.

Lemma mapGstaticToLocal_prefix rest :
  mapGstaticToLocal (gstaticPrefix ++ rest)
    = Some (jstr "/gstatic/externally_hosted/" ++ rest).
Proof.
  unfold mapGstaticToLocal. by rewrite startsWith_app, replace_prefix.
Qed.

Lemma mapGstaticToLocal_Some url path :
  mapGstaticToLocal url = Some path ->
  exists rest,
    url = gstaticPrefix ++ rest /\
    path = jstr "/gstatic/externally_hosted/" ++ rest.
Proof.
  unfold mapGstaticToLocal.
  destruct (startsWith gstaticPrefix url) eqn:E; [|done].
  apply startsWith_prefix in E. intros H.
  exists (drop (length gstaticPrefix) url). split; [done|].
  rewrite E, replace_prefix in H. by inversion H.
Qed.

(** ** The service worker: the [fetch] listener *)

Lemma find_elem_of {A} (f : A -> bool) (l : list A) x :
  x ∈ l -> f x = true -> exists y, List.find f l = Some y.
Proof.
  induction 1 as [x l|x z l _ IH]; intros Hf; cbn.
  - rewrite Hf. by eexists.
  - destruct (f z); [by eexists|]. by apply IH.
Qed.

Lemma find_Some_elem_of {A} (f : A -> bool) (l : list A) y :
  List.find f l = Some y -> y ∈ l /\ f y = true.
Proof.
  induction l as [|x l IH]; cbn; [done|].
  destruct (f x) eqn:E.
  - intros [= ->]. split; [by left | done].
  - intros H. destruct (IH H). split; [by right | done].
Qed.

Lemma respond_by_pathname pathname caches_match cache_keys cache_match request key :
  caches_match request = None ->
  key ∈ cache_keys ->
  matches_pathname pathname (pathname (url request)) key = true ->
  exists key',
    key' ∈ cache_keys /\
    forall fetch,
      respond pathname caches_match cache_keys cache_match fetch request
        = cache_match key'.
Proof.
  intros Hc Hin Hm. unfold respond. rewrite Hc.
  destruct (mapGstaticToLocal (url request)) as [[|c localPath]|] eqn:E;
    try (destruct (find_elem_of _ _ _ Hin Hm) as [k Hk]; rewrite Hk;
         apply find_Some_elem_of in Hk as [Hk _]; by exists k).
  destruct (List.find (matches_local pathname (c :: localPath)) cache_keys)
    as [k|] eqn:Hl.
  - apply find_Some_elem_of in Hl as [Hk _]. by exists k.
  - destruct (find_elem_of _ _ _ Hin Hm) as [k Hk]. rewrite Hk.
    apply find_Some_elem_of in Hk as [Hk _]. by exists k.
Qed.

Lemma matches_local_suffix pathname localPath key :
  matches_local pathname localPath key = true ->
  endsWith (without_leading_slash localPath) (pathname (url key)) = true.
Proof.
  unfold matches_local. intros [H|H]%orb_true_iff; [|done].
  apply bool_decide_eq_true in H. rewrite H.
  destruct localPath as [|c r]; [done|]. cbn.
  destruct (c =? 47)%N.
  - apply (endsWith_app [c] r).
  - apply (endsWith_app [] (c :: r)).
Qed.

(** ** The service worker: caching the resources *)

Section CacheResources.
Variable fetch : jstring -> option Response.
Variable put_rejected : jstring -> Response -> bool.


End CacheResources.

(** ** The service worker *)

(** X18. [mapGstaticToLocal] maps a URL that begins with
    [https://www.gstatic.com/external_hosted/] to
    [/gstatic/externally_hosted/] followed by the rest of the URL, the rest
    unchanged even where the prefix occurs in it again; every other URL
    gives [null]; and two URLs mapped to the same path are the same. *)
Theorem mapGstaticToLocal_maps_the_prefix :
  (forall rest,
     mapGstaticToLocal (gstaticPrefix ++ rest)
       = Some (jstr "/gstatic/externally_hosted/" ++ rest)) /\
  (forall url,
     mapGstaticToLocal url = None <-> forall rest, url <> gstaticPrefix ++ rest) /\
  (forall url url' path,
     mapGstaticToLocal url = Some path -> mapGstaticToLocal url' = Some path ->
     url = url').
Proof.
  split; [apply mapGstaticToLocal_prefix|]. split.
  - intros url. split.
    + intros H rest ->. by rewrite mapGstaticToLocal_prefix in H.
    + intros H. destruct (mapGstaticToLocal url) as [path|] eqn:E; [|done].
      apply mapGstaticToLocal_Some in E as (rest & -> & _). by destruct (H rest).
  - intros url url' path H H'.
    apply mapGstaticToLocal_Some in H as (rest & -> & ->).
    apply mapGstaticToLocal_Some in H' as (rest' & -> & E).
    by apply app_inv_head in E as ->.
Qed.



(** X20. Matching by file name: when no cache has the request itself and
    the path of the request ends with the file name of a cached key (the
    text after the last slash of the key's path), the worker answers with
    what the cache holds for a key and never asks the network, whatever
    directory was asked for. *)
Theorem file_name_match_is_served_from_cache
    (pathname : jstring -> jstring)
    (caches_match cache_match : Request -> option Response)
    (cache_keys : list Request) (request key : Request) :
  caches_match request = None ->
  key ∈ cache_keys ->
  endsWith (file_name (pathname (url key))) (pathname (url request)) = true ->
  exists key',
    key' ∈ cache_keys /\
    forall fetch,
      respond pathname caches_match cache_keys cache_match fetch request
        = cache_match key'.
Proof.
  intros Hc Hin Hm. apply (respond_by_pathname _ _ _ _ _ key); [done..|].
  unfold matches_pathname. rewrite Hm. by rewrite orb_true_r.
Qed.

Lemma file_name_match_is_served_from_cache_witness :
  no_response favicon_request = None /\
  icon_key ∈ [icon_key] /\
  endsWith (file_name (url icon_key)) (url favicon_request) = true /\
  exists key',
    key' ∈ [icon_key] /\
    forall fetch,
      respond (fun u => u) no_response [icon_key] page_for_all fetch favicon_request
        = page_for_all key'.
Proof.
  assert (H1 : no_response favicon_request = None) by reflexivity.
  assert (H2 : icon_key ∈ [icon_key]) by (by left).
  assert (H3 : endsWith (file_name (url icon_key)) (url favicon_request) = true)
    by reflexivity.
  split; [exact H1|]. split; [exact H2|]. split; [exact H3|].
  exact (file_name_match_is_served_from_cache (fun u => u) no_response
           page_for_all [icon_key] favicon_request icon_key H1 H2 H3).
Defined.

(** X21. The root path: a request that is not for [gstatic.com], whose path
    is [/] and that no cache has, is answered with what the cache holds
    for its first key, whichever that key is, and the network is not
    asked. *)
Theorem root_request_gets_the_first_key
    (pathname : jstring -> jstring)
    (caches_match cache_match : Request -> option Response)
    (request key : Request) (others : list Request) :
  caches_match request = None ->
  mapGstaticToLocal (url request) = None ->
  pathname (url request) = jstr "/" ->
  forall fetch,
    respond pathname caches_match (key :: others) cache_match fetch request
      = cache_match key.
Proof.
  intros Hc Hg Hp fetch. unfold respond. rewrite Hc, Hg, Hp. cbn.
  unfold matches_pathname.
  change (without_leading_slash (jstr "/")) with (@nil N).
  by rewrite endsWith_nil, orb_true_r.
Qed.

Lemma root_request_gets_the_first_key_witness :
  no_response root_request = None /\
  mapGstaticToLocal (url root_request) = None /\
  url root_request = jstr "/" /\
  forall fetch,
    respond (fun u => u) no_response [icon_key; cannon_key] page_for_all fetch
      root_request = page_for_all icon_key.
Proof.
  assert (H1 : no_response root_request = None) by reflexivity.
  assert (H2 : mapGstaticToLocal (url root_request) = None) by reflexivity.
  assert (H3 : url root_request = jstr "/") by reflexivity.
  split; [exact H1|]. split; [exact H2|]. split; [exact H3|].
  exact (root_request_gets_the_first_key (fun u => u) no_response page_for_all
           root_request icon_key [cannon_key] H1 H2 H3).
Defined.

(** X22. A request for [https://www.gstatic.com/external_hosted/] followed
    by [rest] that no cache has is answered from a cached key whose path
    ends with [gstatic/externally_hosted/] followed by [rest], when the
    cache has such a key; the network is not asked. *)
Theorem gstatic_request_is_served_locally
    (pathname : jstring -> jstring)
    (caches_match cache_match : Request -> option Response)
    (cache_keys : list Request) (request key : Request) (rest : jstring) :
  caches_match request = None ->
  url request = gstaticPrefix ++ rest ->
  key ∈ cache_keys ->
  endsWith (jstr "gstatic/externally_hosted/" ++ rest) (pathname (url key)) = true ->
  exists key',
    key' ∈ cache_keys /\
    endsWith (jstr "gstatic/externally_hosted/" ++ rest) (pathname (url key')) = true /\
    forall fetch,
      respond pathname caches_match cache_keys cache_match fetch request
        = cache_match key'.
Proof.
  intros Hc Hu Hin Hm. unfold respond.
  rewrite Hc, Hu, mapGstaticToLocal_prefix.
  change (jstr "/gstatic/externally_hosted/" ++ rest)
    with (47%N :: (jstr "gstatic/externally_hosted/" ++ rest)).
  cbv beta iota zeta.
  set (localPath := 47%N :: _).
  assert (Hk : matches_local pathname localPath key = true).
  { unfold matches_local. apply orb_true_iff. right. exact Hm. }
  destruct (find_elem_of _ _ _ Hin Hk) as [k E]. rewrite E.
  apply find_Some_elem_of in E as [Hk1 Hk2].
  exists k. split; [done|]. split; [|done].
  by apply matches_local_suffix in Hk2.
Qed.

Lemma gstatic_request_is_served_locally_witness :
  no_response cannon_request = None /\
  url cannon_request = gstaticPrefix ++ jstr "cannonjs/cannon.min.js" /\
  cannon_key ∈ [icon_key; cannon_key] /\
  endsWith (jstr "gstatic/externally_hosted/" ++ jstr "cannonjs/cannon.min.js")
    (url cannon_key) = true /\
  exists key',
    key' ∈ [icon_key; cannon_key] /\
    endsWith (jstr "gstatic/externally_hosted/" ++ jstr "cannonjs/cannon.min.js")
      (url key') = true /\
    forall fetch,
      respond (fun u => u) no_response [icon_key; cannon_key] page_for_all fetch
        cannon_request = page_for_all key'.
Proof.
  assert (H1 : no_response cannon_request = None) by reflexivity.
  assert (H2 : url cannon_request = gstaticPrefix ++ jstr "cannonjs/cannon.min.js")
    by reflexivity.
  assert (H3 : cannon_key ∈ [icon_key; cannon_key]) by (right; by left).
  assert (H4 : endsWith (jstr "gstatic/externally_hosted/" ++ jstr "cannonjs/cannon.min.js")
                 (url cannon_key) = true) by reflexivity.
  split; [exact H1|]. split; [exact H2|]. split; [exact H3|]. split; [exact H4|].
  exact (gstatic_request_is_served_locally (fun u => u) no_response page_for_all
           [icon_key; cannon_key] cannon_request cannon_key
           (jstr "cannonjs/cannon.min.js") H1 H2 H3 H4).
Defined.


(** X24. [getCacheStatus] reports the offline cache as complete from 135
    of the 149 resources on: for a cache of up to 149 keys, [isCached] is
    true exactly when there are at least 135; and when the cache cannot be
    read it reports 0 cached and [isCached] false. *)
Theorem getCacheStatus_threshold :
  (forall n, n <= 149 ->
     getCacheStatus (Some n) = cache_status n 149 (135 <=? n)) /\
  getCacheStatus None = cache_status 0 149 false.
Proof.
  split; [|by vm_compute].
  assert (H : forallb
                (fun n =>
                   match getCacheStatus (Some n) with
                   | cache_status c t b =>
                       (c =? n) && (t =? 149) && Bool.eqb b (135 <=? n)
                   | _ => false
                   end)
                (seq 0 150) = true) by (by vm_compute).
  intros n Hn. rewrite forallb_forall in H.
  specialize (H n). rewrite in_seq in H. specialize (H ltac:(lia)).
  destruct (getCacheStatus (Some n)) as [| |c t b]; try done.
  apply andb_true_iff in H as [[->%Nat.eqb_eq ->%Nat.eqb_eq]%andb_true_iff H].
  by apply Bool.eqb_prop in H as ->.
Qed.
